(** * InteractiveTree: the per-frame interpolation engine, its samplers and datasets

    A shallow embedding of [src/InteractiveTree.tsx].

    Numbers.  A JavaScript [number] is modelled as a real number: arithmetic is
    exact, [Math.sin], [Math.cos], [Math.acos], [Math.sqrt] and [Math.cbrt]
    are the real functions.  Rounding (binary64 in the engine, binary32 in the
    instance buffers) is not modelled.  The one place where the special values
    of IEEE arithmetic decide the behaviour (a cone of height 0) is embedded a
    second time in [Module IEEE], over reals extended with infinities and NaN.

    Library.  The component calls three.js ([Vector3], [Euler], [Quaternion],
    [Matrix4], [Object3D], [InstancedMesh]).  Those operations are not part of
    the component's source; they are written here as three.js implements them.

    State.  The component owns three mesh refs, one scratch [Object3D]
    ([dummy]) and one scratch vector ([tempVec]); every mutation of the source
    is an explicit state update here. *)

From Stdlib Require Import Reals Lra Lia Psatz List Bool ZArith.
Import ListNotations.

#[local] Open Scope R_scope.

(** ** JavaScript built-ins *)

Module JS.

(** [Math.cbrt]: the real cube root, odd in its argument. *)
Definition cbrt (a : R) : R :=
  if Rlt_dec 0 a then Rpower a (/ 3)
  else if Rlt_dec a 0 then - Rpower (- a) (/ 3)
  else 0.

(** [Math.atan2 (b, a)]: the angle of the point [(a, b)]. *)
Definition atan2 (b a : R) : R :=
  if Rlt_dec 0 a then atan (b / a)
  else if Rlt_dec a 0 then
    (if Rle_dec 0 b then atan (b / a) + PI else atan (b / a) - PI)
  else if Rlt_dec 0 b then PI / 2
  else if Rlt_dec b 0 then - (PI / 2)
  else 0.

(** [Math.floor]. *)
Definition floor (a : R) : R := IZR (Zfloor a).

(** [Number.EPSILON]. *)
Definition EPSILON : R := / 2 ^ 52.

(** Comparisons of the source, as booleans. *)
Definition ltb (a b : R) : bool := if Rlt_dec a b then true else false.
Definition leb (a b : R) : bool := if Rle_dec a b then true else false.
Definition eqb (a b : R) : bool := if Req_dec_T a b then true else false.

(** [arr[k]] for a number [k]: [undefined] ([None]) unless [k] is an
    integer index inside the array. *)
Definition index {A : Type} (arr : list A) (k : R) : option A :=
  if Req_dec_T k (IZR (Zfloor k)) then
    (if Z_lt_dec (Zfloor k) 0 then None
     else nth_error arr (Z.to_nat (Zfloor k)))
  else None.

(** [typedArray[i] = a]: a write past the end is ignored. *)
Fixpoint store {A : Type} (i : nat) (a : A) (arr : list A) : list A :=
  match arr, i with
  | [], _ => []
  | _ :: rest, O => a :: rest
  | b :: rest, S j => b :: store j a rest
  end.

(** [arr.forEach ((data, i) => body)], the loop state threaded through. *)
Fixpoint forEach_from {A St : Type} (body : A -> nat -> St -> St)
    (arr : list A) (i : nat) (st : St) : St :=
  match arr with
  | [] => st
  | data :: rest => forEach_from body rest (S i) (body data i st)
  end.

Definition forEach {A St : Type} (body : A -> nat -> St -> St)
    (arr : list A) (st : St) : St :=
  forEach_from body arr 0 st.

End JS.

(** ** [Math.random]: a stream of draws and a cursor *)

Record RNG := mkRNG { draws : nat -> R; cursor : nat }.

Definition Rand (A : Type) : Type := RNG -> A * RNG.

Definition ret {A : Type} (a : A) : Rand A := fun g => (a, g).

Definition bind {A B : Type} (m : Rand A) (k : A -> Rand B) : Rand B :=
  fun g => let (a, g') := m g in k a g'.

Notation "a <- m ;; k" := (bind m (fun a => k))
  (at level 61, m at next level, right associativity).

(** [Math.random ()]: the draw under the cursor; the cursor moves on. *)
Definition random : Rand R :=
  fun g => (draws g (cursor g), mkRNG (draws g) (S (cursor g))).

(** [for (let i = 0; i < n; i++) temp.push (gen ())]. *)
Fixpoint pushLoop {A : Type} (n : nat) (gen : Rand A) : Rand (list A) :=
  match n with
  | O => ret []
  | S m => a <- gen ;; rest <- pushLoop m gen ;; ret (a :: rest)
  end.

(** ** three.js *)

Module Vector3.

Record t := mk { x : R; y : R; z : R }.

Definition zero : t := mk 0 0 0.

(** [v.copy (w)] *)
Definition copy (w : t) : t := mk (x w) (y w) (z w).

(** [v.add (w)] *)
Definition add (v w : t) : t := mk (x v + x w) (y v + y w) (z v + z w).

(** [v.addScalar (s)] *)
Definition addScalar (v : t) (s : R) : t := mk (x v + s) (y v + s) (z v + s).

(** [v.setScalar (s)] *)
Definition setScalar (s : R) : t := mk s s s.

(** [v.lerp (w, alpha)] *)
Definition lerp (v w : t) (alpha : R) : t :=
  mk (x v + (x w - x v) * alpha)
     (y v + (y w - y v) * alpha)
     (z v + (z w - z v) * alpha).

(** [v.length ()] *)
Definition length (v : t) : R := sqrt (x v * x v + y v * y v + z v * z v).

(** [v.distanceTo (w)] *)
Definition distanceTo (v w : t) : R :=
  sqrt ((x v - x w) * (x v - x w) + (y v - y w) * (y v - y w)
        + (z v - z w) * (z v - z w)).

End Vector3.

Module MathUtils.

(** [THREE.MathUtils.lerp (a, b, s)] *)
Definition lerp (a b s : R) : R := (1 - s) * a + s * b.

End MathUtils.

Module Euler.

(** An Euler triple in the default order XYZ. *)
Record t := mk { x : R; y : R; z : R }.

End Euler.

Module Quaternion.

Record t := mk { x : R; y : R; z : R; w : R }.

Definition identity : t := mk 0 0 0 1.

(** [q.setFromEuler (e)], order XYZ. *)
Definition setFromEuler (e : Euler.t) : t :=
  let c1 := cos (Euler.x e / 2) in
  let c2 := cos (Euler.y e / 2) in
  let c3 := cos (Euler.z e / 2) in
  let s1 := sin (Euler.x e / 2) in
  let s2 := sin (Euler.y e / 2) in
  let s3 := sin (Euler.z e / 2) in
  mk (s1 * c2 * c3 + c1 * s2 * s3)
     (c1 * s2 * c3 - s1 * c2 * s3)
     (c1 * c2 * s3 + s1 * s2 * c3)
     (c1 * c2 * c3 - s1 * s2 * s3).

(** [q.setFromAxisAngle (axis, angle)] *)
Definition setFromAxisAngle (axis : Vector3.t) (angle : R) : t :=
  let halfAngle := angle / 2 in
  let s := sin halfAngle in
  mk (Vector3.x axis * s) (Vector3.y axis * s) (Vector3.z axis * s)
     (cos halfAngle).

(** [a.multiply (b)] *)
Definition multiply (a b : t) : t :=
  mk (x a * w b + w a * x b + y a * z b - z a * y b)
     (y a * w b + w a * y b + z a * x b - x a * z b)
     (z a * w b + w a * z b + x a * y b - y a * x b)
     (w a * w b - x a * x b - y a * y b - z a * z b).

Definition length (q : t) : R :=
  sqrt (x q * x q + y q * y q + z q * z q + w q * w q).

(** [q.normalize ()] *)
Definition normalize (q : t) : t :=
  let l := length q in
  if JS.eqb l 0 then mk 0 0 0 1
  else let l' := 1 / l in mk (x q * l') (y q * l') (z q * l') (w q * l').

(** [q.slerp (qb, s)] *)
Definition slerp (q qb : t) (s : R) : t :=
  if JS.eqb s 0 then q
  else if JS.eqb s 1 then qb
  else
    let cosHalfTheta0 := w q * w qb + x q * x qb + y q * y qb + z q * z qb in
    let neg := JS.ltb cosHalfTheta0 0 in
    let this :=
      if neg then mk (- x qb) (- y qb) (- z qb) (- w qb) else qb in
    let cosHalfTheta := if neg then - cosHalfTheta0 else cosHalfTheta0 in
    if JS.leb 1 cosHalfTheta then q
    else
      let sqrSinHalfTheta := 1 - cosHalfTheta * cosHalfTheta in
      if JS.leb sqrSinHalfTheta JS.EPSILON then
        let s' := 1 - s in
        normalize (mk (s' * x q + s * x this) (s' * y q + s * y this)
                      (s' * z q + s * z this) (s' * w q + s * w this))
      else
        let sinHalfTheta := sqrt sqrSinHalfTheta in
        let halfTheta := JS.atan2 sinHalfTheta cosHalfTheta in
        let ratioA := sin ((1 - s) * halfTheta) / sinHalfTheta in
        let ratioB := sin (s * halfTheta) / sinHalfTheta in
        mk (x q * ratioA + x this * ratioB)
           (y q * ratioA + y this * ratioB)
           (z q * ratioA + z this * ratioB)
           (w q * ratioA + w this * ratioB).

End Quaternion.

Module Matrix4.

(** The sixteen elements, column-major as in [Matrix4.elements]. *)
Record t := mk {
  te0 : R; te1 : R; te2 : R; te3 : R;
  te4 : R; te5 : R; te6 : R; te7 : R;
  te8 : R; te9 : R; te10 : R; te11 : R;
  te12 : R; te13 : R; te14 : R; te15 : R }.

Definition identity : t := mk 1 0 0 0  0 1 0 0  0 0 1 0  0 0 0 1.

(** What sixteen zero-filled buffer slots read as. *)
Definition zero : t := mk 0 0 0 0  0 0 0 0  0 0 0 0  0 0 0 0.

(** [m.compose (position, quaternion, scale)] *)
Definition compose (position : Vector3.t) (quaternion : Quaternion.t)
    (scale : Vector3.t) : t :=
  let x := Quaternion.x quaternion in
  let y := Quaternion.y quaternion in
  let z := Quaternion.z quaternion in
  let w := Quaternion.w quaternion in
  let x2 := x + x in let y2 := y + y in let z2 := z + z in
  let xx := x * x2 in let xy := x * y2 in let xz := x * z2 in
  let yy := y * y2 in let yz := y * z2 in let zz := z * z2 in
  let wx := w * x2 in let wy := w * y2 in let wz := w * z2 in
  let sx := Vector3.x scale in
  let sy := Vector3.y scale in
  let sz := Vector3.z scale in
  mk ((1 - (yy + zz)) * sx) ((xy + wz) * sx) ((xz - wy) * sx) 0
     ((xy - wz) * sy) ((1 - (xx + zz)) * sy) ((yz + wx) * sy) 0
     ((xz + wy) * sz) ((yz - wx) * sz) ((1 - (xx + yy)) * sz) 0
     (Vector3.x position) (Vector3.y position) (Vector3.z position) 1.

(** [m.determinant ()] *)
Definition determinant (m : t) : R :=
  let n11 := te0 m in let n12 := te4 m in
  let n13 := te8 m in let n14 := te12 m in
  let n21 := te1 m in let n22 := te5 m in
  let n23 := te9 m in let n24 := te13 m in
  let n31 := te2 m in let n32 := te6 m in
  let n33 := te10 m in let n34 := te14 m in
  let n41 := te3 m in let n42 := te7 m in
  let n43 := te11 m in let n44 := te15 m in
  n41 * (n14 * n23 * n32 - n13 * n24 * n32 - n14 * n22 * n33
         + n12 * n24 * n33 + n13 * n22 * n34 - n12 * n23 * n34)
  + n42 * (n11 * n23 * n34 - n11 * n24 * n33 + n14 * n21 * n33
           - n13 * n21 * n34 + n13 * n24 * n31 - n14 * n23 * n31)
  + n43 * (n11 * n24 * n32 - n11 * n22 * n34 - n14 * n21 * n32
           + n12 * n21 * n34 + n14 * n22 * n31 - n12 * n24 * n31)
  + n44 * (- n13 * n22 * n31 - n11 * n23 * n32 + n11 * n22 * n33
           + n13 * n21 * n32 - n12 * n21 * n33 + n12 * n23 * n31).

(** [q.setFromRotationMatrix (m)]: reads the upper 3x3 block. *)
Definition toQuaternion (m : t) : Quaternion.t :=
  let m11 := te0 m in let m12 := te4 m in let m13 := te8 m in
  let m21 := te1 m in let m22 := te5 m in let m23 := te9 m in
  let m31 := te2 m in let m32 := te6 m in let m33 := te10 m in
  let trace := m11 + m22 + m33 in
  if JS.ltb 0 trace then
    let s := 0.5 / sqrt (trace + 1) in
    Quaternion.mk ((m32 - m23) * s) ((m13 - m31) * s) ((m21 - m12) * s)
                  (0.25 / s)
  else if JS.ltb m22 m11 && JS.ltb m33 m11 then
    let s := 2 * sqrt (1 + m11 - m22 - m33) in
    Quaternion.mk (0.25 * s) ((m12 + m21) / s) ((m13 + m31) / s)
                  ((m32 - m23) / s)
  else if JS.ltb m33 m22 then
    let s := 2 * sqrt (1 + m22 - m11 - m33) in
    Quaternion.mk ((m12 + m21) / s) (0.25 * s) ((m23 + m32) / s)
                  ((m13 - m31) / s)
  else
    let s := 2 * sqrt (1 + m33 - m11 - m22) in
    Quaternion.mk ((m13 + m31) / s) ((m23 + m32) / s) (0.25 * s)
                  ((m21 - m12) / s).

(** [m.decompose (position, quaternion, scale)]: the three outputs. *)
Definition decompose (m : t) : Vector3.t * Quaternion.t * Vector3.t :=
  let sx0 := Vector3.length (Vector3.mk (te0 m) (te1 m) (te2 m)) in
  let sy := Vector3.length (Vector3.mk (te4 m) (te5 m) (te6 m)) in
  let sz := Vector3.length (Vector3.mk (te8 m) (te9 m) (te10 m)) in
  let det := determinant m in
  let sx := if JS.ltb det 0 then - sx0 else sx0 in
  let position := Vector3.mk (te12 m) (te13 m) (te14 m) in
  let invSX := 1 / sx in
  let invSY := 1 / sy in
  let invSZ := 1 / sz in
  let m1 :=
    mk (te0 m * invSX) (te1 m * invSX) (te2 m * invSX) (te3 m)
       (te4 m * invSY) (te5 m * invSY) (te6 m * invSY) (te7 m)
       (te8 m * invSZ) (te9 m * invSZ) (te10 m * invSZ) (te11 m)
       (te12 m) (te13 m) (te14 m) (te15 m) in
  (position, toQuaternion m1, Vector3.mk sx sy sz).

End Matrix4.

Module Color.

(** A colour, named by the hexadecimal code it was built from. *)
Record t := mk { hex : Z }.

End Color.

Module Object3D.

(** The fields the component uses.  [rotation] is three.js's Euler view of
    [quaternion]: setting it sets [quaternion], see [setRotation]. *)
Record t := mk {
  position : Vector3.t;
  quaternion : Quaternion.t;
  scale : Vector3.t;
  matrix : Matrix4.t }.

(** [new THREE.Object3D ()] *)
Definition new : t :=
  mk Vector3.zero Quaternion.identity (Vector3.setScalar 1) Matrix4.identity.

Definition setPosition (p : Vector3.t) (o : t) : t :=
  mk p (quaternion o) (scale o) (matrix o).
Definition setQuaternion (q : Quaternion.t) (o : t) : t :=
  mk (position o) q (scale o) (matrix o).
Definition setScale (s : Vector3.t) (o : t) : t :=
  mk (position o) (quaternion o) s (matrix o).
Definition setMatrix (m : Matrix4.t) (o : t) : t :=
  mk (position o) (quaternion o) (scale o) m.

(** [o.rotation.set (a, b, c)]: the change callback of [rotation] rebuilds
    [quaternion] from the new angles. *)
Definition setRotation (a b c : R) (o : t) : t :=
  setQuaternion (Quaternion.setFromEuler (Euler.mk a b c)) o.

(** [o.matrix.decompose (o.position, o.quaternion, o.scale)] *)
Definition decomposeMatrix (o : t) : t :=
  let '(p, q, s) := Matrix4.decompose (matrix o) in mk p q s (matrix o).

(** [o.updateMatrix ()] *)
Definition updateMatrix (o : t) : t :=
  setMatrix (Matrix4.compose (position o) (quaternion o) (scale o)) o.

End Object3D.

Module InstancedMesh.

(** The two per-instance buffers.  [instanceColor] is [null] until the first
    [setColorAt]. *)
Record t := mk {
  instanceMatrix : list Matrix4.t;
  instanceColor : option (list Color.t) }.

(** [mesh.getMatrixAt (i, m)].  A read past the end yields no number in
    JavaScript; the placeholder [Matrix4.zero] stands for it. *)
Definition getMatrixAt (i : nat) (mesh : t) : Matrix4.t :=
  nth i (instanceMatrix mesh) Matrix4.zero.

(** [mesh.setMatrixAt (i, m)] *)
Definition setMatrixAt (i : nat) (m : Matrix4.t) (mesh : t) : t :=
  mk (JS.store i m (instanceMatrix mesh)) (instanceColor mesh).

Definition white : Color.t := Color.mk 16777215.

(** [mesh.setColorAt (i, color)]: allocates the colour buffer on first use,
    one entry per instance. *)
Definition setColorAt (i : nat) (color : Color.t) (mesh : t) : t :=
  let buf :=
    match instanceColor mesh with
    | Some buf => buf
    | None => repeat white (length (instanceMatrix mesh))
    end in
  mk (instanceMatrix mesh) (Some (JS.store i color buf)).

End InstancedMesh.

Module Mesh.

(** The star: a plain mesh with its own transform. *)
Record t := mk {
  position : Vector3.t;
  rotation : Euler.t;
  scale : Vector3.t }.

End Mesh.

(** ** The component: configuration and spatial samplers *)

Definition PARTICLE_COUNT : nat := 3500.
Definition ORNAMENT_COUNT : nat := 150.
Definition TREE_HEIGHT : R := 8.
Definition TREE_RADIUS_BASE : R := 3.5.
Definition SCATTER_RADIUS : R := 15.

(** Modelled from the spec: the enumeration [TreeMorphState] of [../types],
    which is not among the sources.  The component names its member
    [TREE_SHAPE]; the spec calls the flag two-valued (SCATTERED | ARRANGED). *)
Inductive TreeMorphState := SCATTERED | TREE_SHAPE.

Definition TreeMorphState_eqb (a b : TreeMorphState) : bool :=
  match a, b with
  | SCATTERED, SCATTERED | TREE_SHAPE, TREE_SHAPE => true
  | _, _ => false
  end.

(** Random point in a sphere. *)
Definition randomInSphere (radius : R) : Rand Vector3.t :=
  u <- random ;;
  v <- random ;;
  w <- random ;;
  (let theta := 2 * PI * u in
   let phi := acos (2 * v - 1) in
   let r := JS.cbrt w * radius in
   ret (Vector3.mk (r * sin phi * cos theta)
                   (r * sin phi * sin theta)
                   (r * cos phi))).

(** Random point in a cone volume. *)
Definition randomInCone (height radiusBase : R) : Rand Vector3.t :=
  u <- random ;;
  v <- random ;;
  w <- random ;;
  (let y := u * height in
   let rAtHeight := (1 - y / height) * radiusBase in
   let theta := v * PI * 2 in
   let r := sqrt w * rAtHeight in
   ret (Vector3.mk (r * cos theta) y (r * sin theta))).

(** Random point just outside the lateral surface of a cone. *)
Definition randomOnConeSurface (height radiusBase : R) : Rand Vector3.t :=
  u <- random ;;
  v <- random ;;
  (let y := u * height in
   let rAtHeight := (1 - y / height) * radiusBase in
   let theta := v * PI * 2 in
   let r := rAtHeight + 0.1 in
   ret (Vector3.mk (r * cos theta) y (r * sin theta))).

(** ** Datasets *)

Module Needle.

Record t := mk {
  scatterPos : Vector3.t;
  treePos : Vector3.t;
  scatterRot : Euler.t;
  treeRot : Euler.t;
  speed : R }.

End Needle.

Module Ornament.

(** [color] is what [colors[...]] evaluated to: [None] is [undefined]. *)
Record t := mk {
  scatterPos : Vector3.t;
  treePos : Vector3.t;
  color : option Color.t;
  scale : R;
  speed : R }.

End Ornament.

(** One iteration of the needle loop of [needleData]. *)
Definition makeNeedle : Rand Needle.t :=
  scatterPos <- randomInSphere SCATTER_RADIUS ;;
  treePos <- randomInCone TREE_HEIGHT TREE_RADIUS_BASE ;;
  a <- random ;; b <- random ;; c <- random ;;
  (let treeRot := Euler.mk ((a - 0.5) * 0.5) (b * PI * 2) ((c - 0.5) * 0.5) in
   d <- random ;; e <- random ;; f <- random ;;
   (let scatterRot := Euler.mk (d * PI) (e * PI) (f * PI) in
    s <- random ;;
    ret (Needle.mk scatterPos treePos scatterRot treeRot (0.02 + s * 0.04)))).

Definition needleData : Rand (list Needle.t) :=
  pushLoop PARTICLE_COUNT makeNeedle.

(** The palette of [ornamentData]: gold, deep pink, silver. *)
Definition colors : list Color.t :=
  [Color.mk 16766720; Color.mk 16724838; Color.mk 16777215].

(** One iteration of the ornament loop of [ornamentData]. *)
Definition makeOrnament : Rand Ornament.t :=
  scatterPos <- randomInSphere SCATTER_RADIUS ;;
  treePos <- randomOnConeSurface TREE_HEIGHT TREE_RADIUS_BASE ;;
  c <- random ;;
  (let color := JS.index colors (JS.floor (c * INR (length colors))) in
   k <- random ;;
   (let scale := 0.15 + k * 0.25 in
    s <- random ;;
    ret (Ornament.mk scatterPos treePos color scale (0.015 + s * 0.03)))).

Definition ornamentData : Rand (list Ornament.t) :=
  pushLoop ORNAMENT_COUNT makeOrnament.

(** ** Mutable state of the component *)

(** The scratch objects shared by every loop iteration. *)
Record Scratch := mkScratch { dummy : Object3D.t; tempVec : Vector3.t }.

(** The three refs ([None] is a [null] ref) and the scratch objects. *)
Record Scene := mkScene {
  needlesMesh : option InstancedMesh.t;
  ornamentsMesh : option InstancedMesh.t;
  starMesh : option Mesh.t;
  scratch : Scratch }.

(** ** Frame loop *)

(** Body of [needleData.forEach] inside [useFrame]. *)
Definition animateNeedle (isTree : bool) (time delta : R)
    (data : Needle.t) (i : nat) (st : InstancedMesh.t * Scratch)
    : InstancedMesh.t * Scratch :=
  let '(mesh, sc) := st in
  let targetPos := if isTree then Needle.treePos data
                   else Needle.scatterPos data in
  let targetRot := if isTree then Needle.treeRot data
                   else Needle.scatterRot data in
  let tempVec :=
    if negb isTree
    then Vector3.addScalar (Vector3.copy targetPos) (sin (time + INR i) * 0.5)
    else Vector3.copy targetPos in
  let dummy := Object3D.setMatrix (InstancedMesh.getMatrixAt i mesh) (dummy sc) in
  let dummy := Object3D.decomposeMatrix dummy in
  let dummy :=
    Object3D.setPosition
      (Vector3.lerp (Object3D.position dummy) tempVec
                    (Needle.speed data * 60 * delta)) dummy in
  let targetQuat0 := Quaternion.setFromEuler targetRot in
  let targetQuat :=
    if negb isTree
    then Quaternion.multiply targetQuat0
           (Quaternion.setFromAxisAngle (Vector3.mk 0 1 0) (time * 0.1))
    else targetQuat0 in
  let dummy :=
    Object3D.setQuaternion
      (Quaternion.slerp (Object3D.quaternion dummy) targetQuat
                        (Needle.speed data * 60 * delta)) dummy in
  let dummy :=
    Object3D.setScale (Vector3.setScalar (if isTree then 1 else 0.5)) dummy in
  let dummy := Object3D.updateMatrix dummy in
  (InstancedMesh.setMatrixAt i (Object3D.matrix dummy) mesh,
   mkScratch dummy tempVec).

(** Body of [ornamentData.forEach] inside [useFrame]. *)
Definition animateOrnament (isTree : bool) (time delta : R)
    (data : Ornament.t) (i : nat) (st : InstancedMesh.t * Scratch)
    : InstancedMesh.t * Scratch :=
  let '(mesh, sc) := st in
  let targetPos := if isTree then Ornament.treePos data
                   else Ornament.scatterPos data in
  let dummy := Object3D.setMatrix (InstancedMesh.getMatrixAt i mesh) (dummy sc) in
  let dummy := Object3D.decomposeMatrix dummy in
  let tempVec :=
    if isTree
    then
      let v := Vector3.copy targetPos in
      Vector3.mk (Vector3.x v)
                 (Vector3.y v + sin (time * 2 + INR i) * 0.05)
                 (Vector3.z v)
    else
      Vector3.add (Vector3.copy targetPos)
        (Vector3.mk (sin (time * 0.5 + INR i))
                    (cos (time * 0.3 + INR i))
                    (sin (time * 0.7 + INR i))) in
  let dummy :=
    Object3D.setPosition
      (Vector3.lerp (Object3D.position dummy) tempVec
                    (Ornament.speed data * 50 * delta)) dummy in
  let dummy := Object3D.setRotation 0 (time * 0.5 + INR i) 0 dummy in
  let dummy := Object3D.updateMatrix dummy in
  (InstancedMesh.setMatrixAt i (Object3D.matrix dummy) mesh,
   mkScratch dummy tempVec).

(** The star block of [useFrame]. *)
Definition animateStar (isTree : bool) (delta : R) (star : Mesh.t) : Mesh.t :=
  let targetY := if isTree then TREE_HEIGHT + 0.5 else 20 in
  let currentY := Vector3.y (Mesh.position star) in
  let position :=
    Vector3.mk (Vector3.x (Mesh.position star))
               (MathUtils.lerp currentY targetY (delta * 2))
               (Vector3.z (Mesh.position star)) in
  let rotation :=
    Euler.mk (Euler.x (Mesh.rotation star))
             (Euler.y (Mesh.rotation star) + delta * 0.5)
             (Euler.z (Mesh.rotation star)) in
  let scale :=
    Vector3.setScalar
      (MathUtils.lerp (Vector3.x (Mesh.scale star))
                      (if isTree then 1.5 else 0) (delta * 3)) in
  Mesh.mk position rotation scale.

(** The callback given to [useFrame]: one frame at elapsed time [time] with
    frame delta [delta]. *)
Definition useFrame (needles : list Needle.t) (ornaments : list Ornament.t)
    (treeState : TreeMorphState) (time delta : R) (s : Scene) : Scene :=
  let isTree := TreeMorphState_eqb treeState TREE_SHAPE in
  let s1 :=
    match needlesMesh s with
    | Some mesh =>
        let '(mesh', sc') :=
          JS.forEach (animateNeedle isTree time delta) needles
                     (mesh, scratch s) in
        mkScene (Some mesh') (ornamentsMesh s) (starMesh s) sc'
    | None => s
    end in
  let s2 :=
    match ornamentsMesh s1 with
    | Some mesh =>
        let '(mesh', sc') :=
          JS.forEach (animateOrnament isTree time delta) ornaments
                     (mesh, scratch s1) in
        mkScene (needlesMesh s1) (Some mesh') (starMesh s1) sc'
    | None => s1
    end in
  match starMesh s2 with
  | Some star =>
      mkScene (needlesMesh s2) (ornamentsMesh s2)
              (Some (animateStar isTree delta star)) (scratch s2)
  | None => s2
  end.

(** ** One-time setup pass *)

(** A computation that may throw. *)
Inductive outcome (A : Type) : Type :=
| Done (a : A)
| Throws.
Arguments Done {A} a.
Arguments Throws {A}.

(** [forEach] whose body may throw: the first throw ends the loop. *)
Fixpoint forEachE_from {A St : Type} (body : A -> nat -> St -> outcome St)
    (arr : list A) (i : nat) (st : St) : outcome St :=
  match arr with
  | [] => Done st
  | data :: rest =>
      match body data i st with
      | Done st' => forEachE_from body rest (S i) st'
      | Throws => Throws
      end
  end.

(** Body of [ornamentData.forEach] inside [useLayoutEffect];
    [setColorAt (i, undefined)] throws. *)
Definition setupOrnament (data : Ornament.t) (i : nat)
    (st : InstancedMesh.t * Object3D.t) : outcome (InstancedMesh.t * Object3D.t) :=
  let '(mesh, dummy) := st in
  let dummy :=
    Object3D.setScale (Vector3.setScalar (Ornament.scale data)) dummy in
  let dummy := Object3D.updateMatrix dummy in
  let mesh := InstancedMesh.setMatrixAt i (Object3D.matrix dummy) mesh in
  match Ornament.color data with
  | Some c => Done (InstancedMesh.setColorAt i c mesh, dummy)
  | None => Throws
  end.

(** Body of [needleData.forEach] inside [useLayoutEffect]. *)
Definition setupNeedle (data : Needle.t) (i : nat)
    (st : InstancedMesh.t * Object3D.t) : InstancedMesh.t * Object3D.t :=
  let '(mesh, dummy) := st in
  let dummy := Object3D.setScale (Vector3.mk 0.1 0.4 0.1) dummy in
  let dummy := Object3D.updateMatrix dummy in
  (InstancedMesh.setMatrixAt i (Object3D.matrix dummy) mesh, dummy).

(** The callback given to [useLayoutEffect].  Flagging [instanceColor] for
    upload dereferences it, which throws when it is still [null]. *)
Definition useLayoutEffect (needles : list Needle.t)
    (ornaments : list Ornament.t) (s : Scene) : outcome Scene :=
  let r1 :=
    match ornamentsMesh s with
    | Some mesh =>
        match forEachE_from setupOrnament ornaments 0
                            (mesh, dummy (scratch s)) with
        | Done (mesh', dummy') =>
            match InstancedMesh.instanceColor mesh' with
            | Some _ =>
                Done (mkScene (needlesMesh s) (Some mesh') (starMesh s)
                              (mkScratch dummy' (tempVec (scratch s))))
            | None => Throws
            end
        | Throws => Throws
        end
    | None => Done s
    end in
  match r1 with
  | Done s1 =>
      match needlesMesh s1 with
      | Some mesh =>
          let '(mesh', dummy') :=
            JS.forEach setupNeedle needles (mesh, dummy (scratch s1)) in
          Done (mkScene (Some mesh') (ornamentsMesh s1) (starMesh s1)
                        (mkScratch dummy' (tempVec (scratch s1))))
      | None => Done s1
      end
  | Throws => Throws
  end.

(** ** Life cycle: mount, then frames *)

(** [new THREE.InstancedMesh (geometry, material, count)] *)
Definition newInstancedMesh (count : nat) : InstancedMesh.t :=
  InstancedMesh.mk (repeat Matrix4.identity count) None.

(** The scene as the JSX declares it, refs attached, scratch objects fresh. *)
Definition initialScene : Scene :=
  mkScene (Some (newInstancedMesh PARTICLE_COUNT))
          (Some (newInstancedMesh ORNAMENT_COUNT))
          (Some (Mesh.mk (Vector3.mk 0 (TREE_HEIGHT + 0.5) 0)
                         (Euler.mk 0 0 0) (Vector3.setScalar 1)))
          (mkScratch Object3D.new Vector3.zero).

(** What one call of the frame callback receives. *)
Record Frame := mkFrame {
  treeState : TreeMorphState;
  time : R;
  delta : R }.

(** The frame callback run once per frame of [frames], in order. *)
Definition runFrames (needles : list Needle.t) (ornaments : list Ornament.t)
    (frames : list Frame) (s : Scene) : Scene :=
  fold_left
    (fun s f => useFrame needles ornaments (treeState f) (time f) (delta f) s)
    frames s.

(** First render: both datasets are built (needles first), then the layout
    effect runs on the declared scene. *)
Definition mount (g : RNG)
    : outcome (list Needle.t * list Ornament.t * Scene) :=
  let (needles, g1) := needleData g in
  let (ornaments, _) := ornamentData g1 in
  match useLayoutEffect needles ornaments initialScene with
  | Done s => Done (needles, ornaments, s)
  | Throws => Throws
  end.

(** ** The cone samplers over numbers with IEEE special values

    Finite numbers are reals (no rounding, one unsigned zero that divides like
    [+0]); [PInf], [NInf] and [NaN] follow the IEEE rules that JavaScript
    uses. *)

Module IEEE.

Inductive num := Fin (r : R) | PInf | NInf | NaN.


(** An infinity with the sign of [PInf] times the sign of [r]. *)
Definition signedInf (r : R) (pos : bool) : num :=
  if Rlt_dec 0 r then (if pos then PInf else NInf)
  else if Rlt_dec r 0 then (if pos then NInf else PInf)
  else NaN.

Definition mul (a b : num) : num :=
  match a, b with
  | NaN, _ | _, NaN => NaN
  | Fin r, Fin s => Fin (r * s)
  | Fin r, PInf | PInf, Fin r => signedInf r true
  | Fin r, NInf | NInf, Fin r => signedInf r false
  | PInf, PInf | NInf, NInf => PInf
  | PInf, NInf | NInf, PInf => NInf
  end.

Definition div (a b : num) : num :=
  match a, b with
  | NaN, _ | _, NaN => NaN
  | Fin r, Fin s =>
      if Req_dec_T s 0 then signedInf r true else Fin (r / s)
  | Fin _, PInf | Fin _, NInf => Fin 0
  | PInf, Fin s => if Rlt_dec s 0 then NInf else PInf
  | NInf, Fin s => if Rlt_dec s 0 then PInf else NInf
  | PInf, PInf | PInf, NInf | NInf, PInf | NInf, NInf => NaN
  end.

Definition add (a b : num) : num :=
  match a, b with
  | NaN, _ | _, NaN => NaN
  | Fin r, Fin s => Fin (r + s)
  | PInf, NInf | NInf, PInf => NaN
  | PInf, _ | _, PInf => PInf
  | NInf, _ | _, NInf => NInf
  end.

Definition sub (a b : num) : num :=
  match a, b with
  | NaN, _ | _, NaN => NaN
  | Fin r, Fin s => Fin (r - s)
  | PInf, PInf | NInf, NInf => NaN
  | PInf, _ | _, NInf => PInf
  | NInf, _ | _, PInf => NInf
  end.

(** [Math.sqrt] *)
Definition sqrt (a : num) : num :=
  match a with
  | Fin r => if Rlt_dec r 0 then NaN else Fin (R_sqrt.sqrt r)
  | PInf => PInf
  | NInf | NaN => NaN
  end.

(** [Math.sin], [Math.cos] *)
Definition sin (a : num) : num :=
  match a with Fin r => Fin (Rtrigo_def.sin r) | _ => NaN end.
Definition cos (a : num) : num :=
  match a with Fin r => Fin (Rtrigo_def.cos r) | _ => NaN end.

Record vec := mkvec { x : num; y : num; z : num }.

(** [Math.random ()] returns a finite number. *)
Definition random : Rand num := a <- random ;; ret (Fin a).

(** [randomInCone] of the source, on [num]. *)
Definition randomInCone (height radiusBase : num) : Rand vec :=
  u <- random ;;
  v <- random ;;
  w <- random ;;
  (let y := mul u height in
   let rAtHeight := mul (sub (Fin 1) (div y height)) radiusBase in
   let theta := mul (mul v (Fin PI)) (Fin 2) in
   let r := mul (sqrt w) rAtHeight in
   ret (mkvec (mul r (cos theta)) y (mul r (sin theta)))).

(** [randomOnConeSurface] of the source, on [num]. *)
Definition randomOnConeSurface (height radiusBase : num) : Rand vec :=
  u <- random ;;
  v <- random ;;
  (let y := mul u height in
   let rAtHeight := mul (sub (Fin 1) (div y height)) radiusBase in
   let theta := mul (mul v (Fin PI)) (Fin 2) in
   let r := add rAtHeight (Fin 0.1) in
   ret (mkvec (mul r (cos theta)) y (mul r (sin theta)))).



End IEEE.

(** ** Observations used by the statements *)

(** The transform a buffer slot reads back as: what [decompose] returns. *)
Definition positionOf (m : Matrix4.t) : Vector3.t :=
  fst (fst (Matrix4.decompose m)).
Definition quaternionOf (m : Matrix4.t) : Quaternion.t :=
  snd (fst (Matrix4.decompose m)).
Definition scaleOf (m : Matrix4.t) : Vector3.t :=
  snd (Matrix4.decompose m).

(** The target a frame computes for needle [i]: position ([tempVec]) and
    orientation ([targetQuat]). *)
Definition needleTargetPos (isTree : bool) (time : R) (data : Needle.t)
    (i : nat) : Vector3.t :=
  if isTree then Needle.treePos data
  else Vector3.addScalar (Needle.scatterPos data) (sin (time + INR i) * 0.5).

Definition needleTargetQuat (isTree : bool) (time : R) (data : Needle.t)
    : Quaternion.t :=
  if isTree then Quaternion.setFromEuler (Needle.treeRot data)
  else Quaternion.multiply
         (Quaternion.setFromEuler (Needle.scatterRot data))
         (Quaternion.setFromAxisAngle (Vector3.mk 0 1 0) (time * 0.1)).

(** The target position a frame computes for ornament [i] ([tempVec]). *)
Definition ornamentTargetPos (isTree : bool) (time : R) (data : Ornament.t)
    (i : nat) : Vector3.t :=
  if isTree then
    Vector3.mk (Vector3.x (Ornament.treePos data))
               (Vector3.y (Ornament.treePos data)
                + sin (time * 2 + INR i) * 0.05)
               (Vector3.z (Ornament.treePos data))
  else
    Vector3.add (Ornament.scatterPos data)
      (Vector3.mk (sin (time * 0.5 + INR i)) (cos (time * 0.3 + INR i))
                  (sin (time * 0.7 + INR i))).

(** What one frame makes of the matrix [m] in slot [i]. *)
Definition needleStep (isTree : bool) (time delta : R) (data : Needle.t)
    (i : nat) (m : Matrix4.t) : Matrix4.t :=
  Matrix4.compose
    (Vector3.lerp (positionOf m) (needleTargetPos isTree time data i)
                  (Needle.speed data * 60 * delta))
    (Quaternion.slerp (quaternionOf m) (needleTargetQuat isTree time data)
                      (Needle.speed data * 60 * delta))
    (Vector3.setScalar (if isTree then 1 else 0.5)).

Definition ornamentStep (isTree : bool) (time delta : R) (data : Ornament.t)
    (i : nat) (m : Matrix4.t) : Matrix4.t :=
  Matrix4.compose
    (Vector3.lerp (positionOf m) (ornamentTargetPos isTree time data i)
                  (Ornament.speed data * 50 * delta))
    (Quaternion.setFromEuler (Euler.mk 0 (time * 0.5 + INR i) 0))
    (scaleOf m).

(** A loop that rewrites slot [k], [k+1], ... of a buffer, one slot per
    element of [arr]; [dflt] is what a slot past the end reads as. *)
Fixpoint applySteps {A B : Type} (dflt : B) (step : A -> nat -> B -> B)
    (arr : list A) (k : nat) (buf : list B) : list B :=
  match arr with
  | [] => buf
  | d :: rest =>
      applySteps dflt step rest (S k)
                 (JS.store k (step d k (nth k buf dflt)) buf)
  end.

Definition stepMesh {A : Type} (step : A -> nat -> Matrix4.t -> Matrix4.t)
    (arr : list A) (mesh : InstancedMesh.t) : InstancedMesh.t :=
  InstancedMesh.mk
    (applySteps Matrix4.zero step arr 0 (InstancedMesh.instanceMatrix mesh))
    (InstancedMesh.instanceColor mesh).

(** The colour buffer [setColorAt] writes into. *)
Definition colorBuffer (mesh : InstancedMesh.t) : list Color.t :=
  match InstancedMesh.instanceColor mesh with
  | Some buf => buf
  | None => repeat InstancedMesh.white
                   (length (InstancedMesh.instanceMatrix mesh))
  end.

(** The stream [g] moved on by [c] draws. *)
Definition advance (g : RNG) (c : nat) : RNG :=
  mkRNG (draws g) (c + cursor g).

(** A matrix whose bottom row is 0 0 0 1, as [compose] builds them. *)
Definition affine (m : Matrix4.t) : Prop :=
  Matrix4.te3 m = 0 /\ Matrix4.te7 m = 0 /\ Matrix4.te11 m = 0
  /\ Matrix4.te15 m = 1.

(** A generator that consumes exactly [c] draws. *)
Definition stride {A : Type} (gen : Rand A) (c : nat) : Prop :=
  forall g, snd (gen g) = advance g c.

(** The datasets the first render builds from the stream [g]. *)
Definition needlesOf (g : RNG) : list Needle.t := fst (needleData g).
Definition ornamentsOf (g : RNG) : list Ornament.t :=
  fst (ornamentData (snd (needleData g))).

(** What the setup pass writes for an ornament: its matrix, composed with the
    position [p] and orientation [q] the scratch object holds, and its
    colour. *)
Definition setupOrnamentMatrix (p : Vector3.t) (q : Quaternion.t)
    (d : Ornament.t) (_ : nat) (_ : Matrix4.t) : Matrix4.t :=
  Matrix4.compose p q (Vector3.setScalar (Ornament.scale d)).

Definition setupOrnamentColor (d : Ornament.t) (_ : nat) (old : Color.t)
    : Color.t :=
  match Ornament.color d with Some c => c | None => old end.

Definition setupNeedleMatrix (p : Vector3.t) (q : Quaternion.t)
    (_ : Needle.t) (_ : nat) (_ : Matrix4.t) : Matrix4.t :=
  Matrix4.compose p q (Vector3.mk 0.1 0.4 0.1).

(** The positions a needle's slot reads back as, frame after frame: each
    frame blends toward that frame's target. *)
Definition needleTrack (data : Needle.t) (i : nat) (frames : list Frame)
    (p0 : Vector3.t) : Vector3.t :=
  fold_left
    (fun p f =>
       Vector3.lerp p
         (needleTargetPos (TreeMorphState_eqb (treeState f) TREE_SHAPE)
                          (time f) data i)
         (Needle.speed data * 60 * delta f))
    frames p0.

(** The factor by which a sequence of arranged frames scales a needle's
    offset from its arranged position, and the time the frames span. *)
Definition contraction (data : Needle.t) (frames : list Frame) : R :=
  fold_right (fun f acc => (1 - Needle.speed data * 60 * delta f) * acc)
             1 frames.

Definition elapsed (frames : list Frame) : R :=
  fold_right (fun f acc => delta f + acc) 0 frames.

(** [n] frames in mode [mode] at 60 frames per second, the clock starting at
    [t0]. *)
Definition steadyFrames (mode : TreeMorphState) (n : nat) (t0 : R)
    : list Frame :=
  map (fun k => mkFrame mode (t0 + INR (S k) / 60) (/ 60)) (seq 0 n).

(** Example streams: every draw 0; every draw 0 but the fourth, 3/4 (the
    height draw of the first needle's cone sample). *)
Definition zeroStream : RNG := mkRNG (fun _ => 0) 0.
Definition highStream : RNG :=
  mkRNG (fun k => if Nat.eqb k 3 then 3 / 4 else 0) 0.

(** Example scene with one needle and one ornament. *)
Definition oneNeedle : Needle.t :=
  Needle.mk (Vector3.mk 1 2 3) (Vector3.mk 0 6 0) (Euler.mk 0 0 0)
            (Euler.mk 0 0 0) 0.02.
Definition oneOrnament : Ornament.t :=
  Ornament.mk (Vector3.mk 1 2 3) (Vector3.mk 3.6 0 0)
              (Some (Color.mk 16766720)) 0.15 0.015.
Definition smallScene : Scene :=
  mkScene (Some (newInstancedMesh 1)) (Some (newInstancedMesh 1)) None
          (mkScratch Object3D.new Vector3.zero).

(** The same refs, other contents in the scratch objects. *)
Definition smallSceneUsed : Scene :=
  mkScene (Some (newInstancedMesh 1)) (Some (newInstancedMesh 1)) None
          (mkScratch (Object3D.setPosition (Vector3.mk 7 8 9) Object3D.new)
                     (Vector3.mk 1 2 3)).

(** ** Geometry of the cone *)

(** Distance of a point from the vertical axis. *)
Definition radial (p : Vector3.t) : R :=
  sqrt (Vector3.x p * Vector3.x p + Vector3.z p * Vector3.z p).

(** The radius of the cone's cross-section at the height of [p]. *)
Definition radiusAt (height radiusBase : R) (p : Vector3.t) : R :=
  radiusBase * (1 - Vector3.y p / height).

(** Inside the cone of the given height and base radius, apex up. *)
Definition inCone (height radiusBase : R) (p : Vector3.t) : Prop :=
  0 <= Vector3.y p < height
  /\ radial p <= radiusAt height radiusBase p.

(** What every entry of the needle dataset satisfies. *)
Definition needleWellFormed (nd : Needle.t) : Prop :=
  Vector3.length (Needle.scatterPos nd) < SCATTER_RADIUS
  /\ inCone TREE_HEIGHT TREE_RADIUS_BASE (Needle.treePos nd)
  /\ 0.02 <= Needle.speed nd < 0.06
  /\ - 0.25 <= Euler.x (Needle.treeRot nd) < 0.25
  /\ 0 <= Euler.y (Needle.treeRot nd) < 2 * PI
  /\ - 0.25 <= Euler.z (Needle.treeRot nd) < 0.25
  /\ 0 <= Euler.x (Needle.scatterRot nd) < PI
  /\ 0 <= Euler.y (Needle.scatterRot nd) < PI
  /\ 0 <= Euler.z (Needle.scatterRot nd) < PI.

(** What every entry of the ornament dataset satisfies. *)
Definition ornamentWellFormed (od : Ornament.t) : Prop :=
  Vector3.length (Ornament.scatterPos od) < SCATTER_RADIUS
  /\ 0 <= Vector3.y (Ornament.treePos od) < TREE_HEIGHT
  /\ radial (Ornament.treePos od)
     = radiusAt TREE_HEIGHT TREE_RADIUS_BASE (Ornament.treePos od) + 0.1
  /\ (exists col, Ornament.color od = Some col /\ In col colors)
  /\ 0.15 <= Ornament.scale od < 0.4
  /\ 0.015 <= Ornament.speed od < 0.045.

(** ** Unit quaternions *)

(** [q.lengthSq ()] *)
Definition normSq (q : Quaternion.t) : R :=
  Quaternion.x q * Quaternion.x q + Quaternion.y q * Quaternion.y q
  + Quaternion.z q * Quaternion.z q + Quaternion.w q * Quaternion.w q.

(** ** Boxes and the star's track *)

(** Every coordinate of [p] within [r] of the same coordinate of [q]. *)
Definition within (r : R) (p q : Vector3.t) : Prop :=
  - r <= Vector3.x p - Vector3.x q <= r
  /\ - r <= Vector3.y p - Vector3.y q <= r
  /\ - r <= Vector3.z p - Vector3.z q <= r.

(** Every coordinate of [p] in [- r, r]. *)
Definition inBox (r : R) (p : Vector3.t) : Prop :=
  - r <= Vector3.x p <= r
  /\ - r <= Vector3.y p <= r
  /\ - r <= Vector3.z p <= r.

(** The factor by which a sequence of frames scales an offset that every
    frame blends away at [k] times its delta. *)
Definition blendFactor (k : R) (frames : list Frame) : R :=
  fold_right (fun f acc => (1 - k * delta f) * acc) 1 frames.

(** The values the star block aims at in a mode. *)
Definition starTargetY (mode : TreeMorphState) : R :=
  if TreeMorphState_eqb mode TREE_SHAPE then TREE_HEIGHT + 0.5 else 20.
Definition starTargetScale (mode : TreeMorphState) : R :=
  if TreeMorphState_eqb mode TREE_SHAPE then 1.5 else 0.

(** * Properties *)

(** ** Arithmetic helpers *)

(** Reduce the projections of explicit vectors, quaternions, matrices and
    pairs, and nothing else. *)
Ltac project_fields :=
  cbn [fst snd Vector3.x Vector3.y Vector3.z
       Quaternion.x Quaternion.y Quaternion.z Quaternion.w
       Matrix4.te0 Matrix4.te1 Matrix4.te2 Matrix4.te3 Matrix4.te4
       Matrix4.te5 Matrix4.te6 Matrix4.te7 Matrix4.te8 Matrix4.te9
       Matrix4.te10 Matrix4.te11 Matrix4.te12 Matrix4.te13 Matrix4.te14
       Matrix4.te15].

Lemma cbrt_0 : JS.cbrt 0 = 0.
Proof.
  unfold JS.cbrt.
  destruct (Rlt_dec 0 0) as [H | _]; [lra |].
  destruct (Rlt_dec 0 0) as [H | _]; [lra | reflexivity].
Qed.

Lemma cbrt_nonneg (a : R) : 0 <= a -> 0 <= JS.cbrt a.
Proof.
  intros Ha. unfold JS.cbrt.
  destruct (Rlt_dec 0 a) as [Hpos | Hn].
  - left. unfold Rpower. apply exp_pos.
  - destruct (Rlt_dec a 0) as [Hneg | _]; lra.
Qed.

Lemma cbrt_cube (a : R) : 0 <= a -> JS.cbrt a ^ 3 = a.
Proof.
  intros Ha. unfold JS.cbrt.
  destruct (Rlt_dec 0 a) as [Hpos | Hn].
  - rewrite <- Rpower_pow by (unfold Rpower; apply exp_pos).
    rewrite Rpower_mult.
    replace (/ 3 * INR 3) with 1 by (simpl; field).
    apply Rpower_1; exact Hpos.
  - destruct (Rlt_dec a 0) as [Hneg | _]; [lra |].
    replace a with 0 by lra. simpl. ring.
Qed.

Lemma cbrt_lt_1 (a : R) : 0 <= a < 1 -> JS.cbrt a < 1.
Proof.
  intros [Ha Hb].
  destruct (Rlt_dec (JS.cbrt a) 1) as [Hlt | Hge]; [exact Hlt | exfalso].
  assert (Hc : 1 <= JS.cbrt a) by lra.
  pose proof (cbrt_cube a Ha) as Hcube.
  assert (1 <= JS.cbrt a ^ 3) by (simpl; nra).
  lra.
Qed.

Lemma sqrt_lt_1_unit (a : R) : 0 <= a < 1 -> 0 <= sqrt a < 1.
Proof.
  intros [Ha Hb]. split; [apply sqrt_pos |].
  rewrite <- sqrt_1. apply sqrt_lt_1; lra.
Qed.

Lemma sqrt_sq_nonneg (a : R) : 0 <= a -> sqrt (a * a) = a.
Proof. intros Ha. apply sqrt_square; exact Ha. Qed.

Lemma sin2_cos2' (a : R) : sin a * sin a + cos a * cos a = 1.
Proof. pose proof (sin2_cos2 a) as H. unfold Rsqr in H. exact H. Qed.

(** ** Spatial samplers *)

Lemma randomInSphere_value (radius : R) (g : RNG) :
  fst (randomInSphere radius g) =
  let u := draws g (cursor g) in
  let v := draws g (S (cursor g)) in
  let w := draws g (S (S (cursor g))) in
  let theta := 2 * PI * u in
  let phi := acos (2 * v - 1) in
  let r := JS.cbrt w * radius in
  Vector3.mk (r * sin phi * cos theta) (r * sin phi * sin theta) (r * cos phi).
Proof. reflexivity. Qed.

Lemma randomInCone_value (height radiusBase : R) (g : RNG) :
  fst (randomInCone height radiusBase g) =
  let u := draws g (cursor g) in
  let v := draws g (S (cursor g)) in
  let w := draws g (S (S (cursor g))) in
  let y := u * height in
  let rAtHeight := (1 - y / height) * radiusBase in
  let theta := v * PI * 2 in
  let r := sqrt w * rAtHeight in
  Vector3.mk (r * cos theta) y (r * sin theta).
Proof. reflexivity. Qed.

Lemma sphere_norm (r phi theta : R) :
  (r * sin phi * cos theta) * (r * sin phi * cos theta)
  + (r * sin phi * sin theta) * (r * sin phi * sin theta)
  + (r * cos phi) * (r * cos phi) = r * r.
Proof.
  pose proof (sin2_cos2' phi) as Hp.
  pose proof (sin2_cos2' theta) as Ht.
  replace ((r * sin phi * cos theta) * (r * sin phi * cos theta)
           + (r * sin phi * sin theta) * (r * sin phi * sin theta)
           + (r * cos phi) * (r * cos phi))
    with (r * r * (sin phi * sin phi
                   * (sin theta * sin theta + cos theta * cos theta)
                   + cos phi * cos phi)) by ring.
  rewrite Ht, Rmult_1_r, Hp. ring.
Qed.

(** C6. For radius > 0 and draws u, v, w in [0, 1), [randomInSphere] returns
    the point with azimuth 2*pi*u, inclination arccos (2v-1) and distance
    cbrt(w)*radius from the origin; the point is inside the sphere and the
    cube of its distance from the origin is w*radius^3. *)
Theorem randomInSphere_spec (radius : R) (g : RNG) :
  0 < radius ->
  (forall k, 0 <= draws g k < 1) ->
  let u := draws g (cursor g) in
  let v := draws g (S (cursor g)) in
  let w := draws g (S (S (cursor g))) in
  let theta := 2 * PI * u in
  let phi := acos (2 * v - 1) in
  let r := JS.cbrt w * radius in
  let p := fst (randomInSphere radius g) in
  p = Vector3.mk (r * sin phi * cos theta) (r * sin phi * sin theta)
                 (r * cos phi)
  /\ Vector3.length p = r
  /\ Vector3.length p < radius
  /\ Vector3.length p ^ 3 = w * radius ^ 3.
Proof.
  intros Hrad Hdraws u v w theta phi r p.
  assert (Hw : 0 <= w < 1) by apply Hdraws.
  assert (Hc0 : 0 <= JS.cbrt w) by (apply cbrt_nonneg; lra).
  assert (Hc1 : JS.cbrt w < 1) by (apply cbrt_lt_1; exact Hw).
  assert (Hr0 : 0 <= r) by (unfold r; nra).
  assert (Hlen : Vector3.length p = r).
  { unfold p. rewrite randomInSphere_value. cbv zeta.
    unfold Vector3.length. cbn [Vector3.x Vector3.y Vector3.z].
    fold u v w. fold theta phi. fold r.
    rewrite sphere_norm. apply sqrt_sq_nonneg; exact Hr0. }
  split; [reflexivity |].
  split; [exact Hlen |].
  rewrite Hlen. split.
  - unfold r. nra.
  - unfold r. rewrite Rpow_mult_distr, cbrt_cube by lra. reflexivity.
Qed.

(** Witness of [randomInSphere_spec]: radius 15, every draw 0. *)
Lemma randomInSphere_spec_witness :
  Vector3.length (fst (randomInSphere 15 (mkRNG (fun _ => 0) 0))) < 15.
Proof.
  apply (randomInSphere_spec 15 (mkRNG (fun _ => 0) 0)).
  - lra.
  - intros k. simpl. lra.
Defined.

(** C7. For height > 0, base radius > 0 and draws in [0, 1), the point returned
    by [randomInCone] has 0 <= y < height and its distance from the vertical
    axis is sqrt(w) times the cross-sectional radius r*(1 - y/h) at its height,
    hence at most that radius. *)
Theorem randomInCone_spec (height radiusBase : R) (g : RNG) :
  0 < height ->
  0 < radiusBase ->
  (forall k, 0 <= draws g k < 1) ->
  let w := draws g (S (S (cursor g))) in
  let p := fst (randomInCone height radiusBase g) in
  let radial := sqrt (Vector3.x p * Vector3.x p + Vector3.z p * Vector3.z p) in
  let rAtHeight := radiusBase * (1 - Vector3.y p / height) in
  0 <= Vector3.y p < height
  /\ radial = sqrt w * rAtHeight
  /\ radial <= rAtHeight.
Proof.
  intros Hh Hr Hdraws w p radial rAtHeight.
  assert (Hu : 0 <= draws g (cursor g) < 1) by apply Hdraws.
  assert (Hw : 0 <= sqrt w < 1) by (apply sqrt_lt_1_unit; apply Hdraws).
  assert (Hy : Vector3.y p = draws g (cursor g) * height) by reflexivity.
  assert (Hy01 : 0 <= Vector3.y p / height < 1).
  { rewrite Hy. unfold Rdiv. rewrite Rmult_assoc, Rinv_r by lra. lra. }
  assert (Hrad0 : 0 <= rAtHeight) by (unfold rAtHeight; nra).
  assert (Hradial : radial = sqrt w * rAtHeight).
  { unfold radial, p. rewrite randomInCone_value. cbv zeta.
    cbn [Vector3.x Vector3.y Vector3.z].
    set (theta := draws g (S (cursor g)) * PI * 2).
    set (r := sqrt (draws g (S (S (cursor g))))
              * ((1 - draws g (cursor g) * height / height) * radiusBase)).
    replace (r * cos theta * (r * cos theta) + r * sin theta * (r * sin theta))
      with (r * r * (sin theta * sin theta + cos theta * cos theta)) by ring.
    rewrite sin2_cos2', Rmult_1_r.
    assert (Hreq : r = sqrt w * rAtHeight).
    { unfold r, rAtHeight, w. rewrite Hy. ring. }
    rewrite Hreq. apply sqrt_sq_nonneg. nra. }
  split.
  - rewrite Hy. split; nra.
  - split; [exact Hradial |]. rewrite Hradial. nra.
Qed.

(** Witness of [randomInCone_spec]: the configured cone, every draw 0. *)
Lemma randomInCone_spec_witness :
  0 <= Vector3.y (fst (randomInCone 8 3.5 (mkRNG (fun _ => 0) 0))) < 8.
Proof.
  apply (randomInCone_spec 8 3.5 (mkRNG (fun _ => 0) 0)).
  - lra.
  - lra.
  - intros k. simpl. lra.
Defined.

(** ** Degenerate cones under IEEE special values *)













(** ** Buffers and loops *)

Lemma store_length {A : Type} (i : nat) (a : A) (arr : list A) :
  length (JS.store i a arr) = length arr.
Proof.
  revert i. induction arr as [| b rest IH]; intros [| j]; simpl; auto.
Qed.

Lemma nth_store_eq {A : Type} (i : nat) (a d : A) (arr : list A) :
  (i < length arr)%nat -> nth i (JS.store i a arr) d = a.
Proof.
  revert i. induction arr as [| b rest IH]; intros [| j] Hi; simpl in *;
    try lia; auto.
  apply IH. lia.
Qed.

Lemma nth_store_neq {A : Type} (i j : nat) (a d : A) (arr : list A) :
  i <> j -> nth j (JS.store i a arr) d = nth j arr d.
Proof.
  revert i j. induction arr as [| b rest IH]; intros [| i] [| j] Hij; simpl;
    try reflexivity; try lia.
  apply IH. lia.
Qed.

Lemma applySteps_length {A B : Type} (dflt : B) (step : A -> nat -> B -> B)
    (arr : list A) (k : nat) (buf : list B) :
  length (applySteps dflt step arr k buf) = length buf.
Proof.
  revert k buf. induction arr as [| d rest IH]; intros k buf; simpl.
  - reflexivity.
  - rewrite IH. apply store_length.
Qed.

Lemma applySteps_before {A B : Type} (dflt : B) (step : A -> nat -> B -> B)
    (arr : list A) (k j : nat) (buf : list B) :
  (j < k)%nat ->
  nth j (applySteps dflt step arr k buf) dflt = nth j buf dflt.
Proof.
  revert k buf. induction arr as [| d rest IH]; intros k buf Hj; simpl.
  - reflexivity.
  - rewrite IH by lia. apply nth_store_neq. lia.
Qed.

Lemma applySteps_nth {A B : Type} (dflt : B) (step : A -> nat -> B -> B)
    (arr : list A) (k j : nat) (buf : list B) (d : A) :
  (k <= j)%nat ->
  nth_error arr (j - k) = Some d ->
  (j < length buf)%nat ->
  nth j (applySteps dflt step arr k buf) dflt = step d j (nth j buf dflt).
Proof.
  revert k buf. induction arr as [| d0 rest IH]; intros k buf Hk Hd Hj.
  - destruct (j - k)%nat; discriminate.
  - simpl. destruct (Nat.eq_dec j k) as [-> | Hne].
    + rewrite Nat.sub_diag in Hd. injection Hd as ->.
      rewrite applySteps_before by lia.
      apply nth_store_eq. exact Hj.
    + replace (j - k)%nat with (S (j - S k)) in Hd by lia. simpl in Hd.
      rewrite (IH (S k) _) ; [| lia | exact Hd | rewrite store_length; exact Hj].
      rewrite nth_store_neq by lia. reflexivity.
Qed.

(** A loop whose body rewrites slot [i] of the matrix buffer from that slot
    alone, under an invariant [Inv] of the scratch state, is [applySteps]. *)
Lemma forEach_from_steps {A St : Type} (Inv : St -> Prop)
    (body : A -> nat -> InstancedMesh.t * St -> InstancedMesh.t * St)
    (step : A -> nat -> Matrix4.t -> Matrix4.t) :
  (forall d i mesh sc,
      Inv sc ->
      fst (body d i (mesh, sc))
      = InstancedMesh.setMatrixAt i
          (step d i (InstancedMesh.getMatrixAt i mesh)) mesh
      /\ Inv (snd (body d i (mesh, sc)))) ->
  forall arr k mesh sc,
    Inv sc ->
    fst (JS.forEach_from body arr k (mesh, sc))
    = InstancedMesh.mk
        (applySteps Matrix4.zero step arr k
                    (InstancedMesh.instanceMatrix mesh))
        (InstancedMesh.instanceColor mesh)
    /\ Inv (snd (JS.forEach_from body arr k (mesh, sc))).
Proof.
  intros Hbody. induction arr as [| d rest IH]; intros k mesh sc Hsc; simpl.
  - destruct mesh; split; [reflexivity | exact Hsc].
  - destruct (Hbody d k mesh sc Hsc) as [Hm Hi].
    destruct (body d k (mesh, sc)) as [mesh' sc']. simpl in Hm, Hi.
    destruct (IH (S k) mesh' sc' Hi) as [IH1 IH2].
    split; [| exact IH2].
    rewrite IH1. subst mesh'. reflexivity.
Qed.

Lemma Vector3_copy_id (v : Vector3.t) : Vector3.copy v = v.
Proof. destruct v; reflexivity. Qed.

Lemma animateNeedle_matrix (isTree : bool) (time delta : R) (data : Needle.t)
    (i : nat) (mesh : InstancedMesh.t) (sc : Scratch) :
  fst (animateNeedle isTree time delta data i (mesh, sc))
  = InstancedMesh.setMatrixAt i
      (needleStep isTree time delta data i (InstancedMesh.getMatrixAt i mesh))
      mesh.
Proof.
  unfold animateNeedle, needleStep, needleTargetPos, needleTargetQuat,
    positionOf, quaternionOf.
  unfold Object3D.decomposeMatrix, Object3D.setMatrix.
  cbn [Object3D.matrix].
  destruct (Matrix4.decompose (InstancedMesh.getMatrixAt i mesh))
    as [[p q] s].
  rewrite !Vector3_copy_id.
  destruct isTree; reflexivity.
Qed.

Lemma animateOrnament_matrix (isTree : bool) (time delta : R)
    (data : Ornament.t) (i : nat) (mesh : InstancedMesh.t) (sc : Scratch) :
  fst (animateOrnament isTree time delta data i (mesh, sc))
  = InstancedMesh.setMatrixAt i
      (ornamentStep isTree time delta data i
                    (InstancedMesh.getMatrixAt i mesh))
      mesh.
Proof.
  unfold animateOrnament, ornamentStep, ornamentTargetPos,
    positionOf, scaleOf.
  unfold Object3D.decomposeMatrix, Object3D.setMatrix.
  cbn [Object3D.matrix].
  destruct (Matrix4.decompose (InstancedMesh.getMatrixAt i mesh))
    as [[p q] s].
  rewrite !Vector3_copy_id.
  destruct isTree; reflexivity.
Qed.

(** The three refs after one frame, as functions of the refs before it. *)
Lemma useFrame_refs (needles : list Needle.t) (ornaments : list Ornament.t)
    (mode : TreeMorphState) (time delta : R) (s : Scene) :
  let isTree := TreeMorphState_eqb mode TREE_SHAPE in
  let s' := useFrame needles ornaments mode time delta s in
  needlesMesh s'
  = option_map (stepMesh (needleStep isTree time delta) needles)
               (needlesMesh s)
  /\ ornamentsMesh s'
     = option_map (stepMesh (ornamentStep isTree time delta) ornaments)
                  (ornamentsMesh s)
  /\ starMesh s' = option_map (animateStar isTree delta) (starMesh s).
Proof.
  intros isTree s'. subst s'. unfold useFrame. fold isTree.
  destruct s as [nm om sm sc]. cbn [needlesMesh ornamentsMesh starMesh scratch].
  assert (HN : forall mesh sc0,
             fst (JS.forEach (animateNeedle isTree time delta) needles
                             (mesh, sc0))
             = stepMesh (needleStep isTree time delta) needles mesh).
  { intros mesh sc0. unfold JS.forEach, stepMesh.
    apply (forEach_from_steps (fun _ => True)); [| exact I].
    intros. split; [apply animateNeedle_matrix | exact I]. }
  assert (HO : forall mesh sc0,
             fst (JS.forEach (animateOrnament isTree time delta) ornaments
                             (mesh, sc0))
             = stepMesh (ornamentStep isTree time delta) ornaments mesh).
  { intros mesh sc0. unfold JS.forEach, stepMesh.
    apply (forEach_from_steps (fun _ => True)); [| exact I].
    intros. split; [apply animateOrnament_matrix | exact I]. }
  destruct nm as [nmesh |]; destruct om as [omesh |]; destruct sm as [star |];
    cbn [needlesMesh ornamentsMesh starMesh scratch option_map];
    repeat match goal with
    | |- context [JS.forEach (animateNeedle isTree time delta) needles
                             (?m, ?c)] =>
        let E := fresh "E" in
        pose proof (HN m c) as E;
        destruct (JS.forEach (animateNeedle isTree time delta) needles (m, c));
        cbn [fst] in E; subst;
        cbn [needlesMesh ornamentsMesh starMesh scratch option_map]
    | |- context [JS.forEach (animateOrnament isTree time delta) ornaments
                             (?m, ?c)] =>
        let E := fresh "E" in
        pose proof (HO m c) as E;
        destruct (JS.forEach (animateOrnament isTree time delta) ornaments
                             (m, c));
        cbn [fst] in E; subst;
        cbn [needlesMesh ornamentsMesh starMesh scratch option_map]
    end;
    repeat split; reflexivity.
Qed.

(** ** Composing and reading back *)

Lemma positionOf_compose (p : Vector3.t) (q : Quaternion.t) (s : Vector3.t) :
  positionOf (Matrix4.compose p q s) = p.
Proof. destruct p; reflexivity. Qed.

Lemma compose_affine (p : Vector3.t) (q : Quaternion.t) (s : Vector3.t) :
  affine (Matrix4.compose p q s).
Proof. unfold affine; cbn; auto. Qed.

(** [rotation.set (0, a, 0)] is the rotation by [a] about the vertical axis. *)
Lemma setFromEuler_vertical (a : R) :
  Quaternion.setFromEuler (Euler.mk 0 a 0)
  = Quaternion.mk 0 (sin (a / 2)) 0 (cos (a / 2)).
Proof.
  unfold Quaternion.setFromEuler. cbn [Euler.x Euler.y Euler.z].
  replace (0 / 2) with 0 by field.
  rewrite sin_0, cos_0. f_equal; ring.
Qed.

Lemma setFromEuler_vertical_axisAngle (a : R) :
  Quaternion.setFromEuler (Euler.mk 0 a 0)
  = Quaternion.setFromAxisAngle (Vector3.mk 0 1 0) a.
Proof.
  rewrite setFromEuler_vertical. unfold Quaternion.setFromAxisAngle.
  cbn [Vector3.x Vector3.y Vector3.z]. f_equal; ring.
Qed.

Lemma sqrt_sq_abs (a : R) : sqrt (a * a) = Rabs a.
Proof. apply (sqrt_Rsqr_abs a). Qed.

(** Scale read back from a matrix composed with a rotation about the vertical
    axis. *)
Lemma scaleOf_compose_vertical (p : Vector3.t) (b c : R) (s : Vector3.t) :
  b * b + c * c = 1 ->
  0 <= Vector3.y s ->
  0 <= Vector3.z s ->
  (Vector3.x s < 0 -> 0 < Vector3.y s * Vector3.z s) ->
  scaleOf (Matrix4.compose p (Quaternion.mk 0 b 0 c) s) = s.
Proof.
  intros Hq Hy Hz Hx. destruct s as [sx sy sz].
  cbn [Vector3.x Vector3.y Vector3.z] in *.
  unfold scaleOf, Matrix4.decompose, Matrix4.compose, Matrix4.determinant,
    Vector3.length.
  project_fields.
  match goal with
  | |- context [JS.ltb ?d 0] =>
      replace d with (sx * sy * sz)
        by (transitivity
              (sx * sy * sz
               * (1 + (b * b + c * c - 1) * (4 * b * b))); [rewrite Hq |]; ring)
  end.
  match goal with
  | |- context [Vector3.mk (if _ then - sqrt ?e else _) _ _] =>
      replace e with (sx * sx)
        by (transitivity
              (sx * sx * (1 + (b * b + c * c - 1) * (4 * b * b)));
            [rewrite Hq |]; ring)
  end.
  match goal with
  | |- context [Vector3.mk _ (sqrt ?e) _] =>
      replace e with (sy * sy) by ring
  end.
  match goal with
  | |- context [Vector3.mk _ _ (sqrt ?e)] =>
      replace e with (sz * sz)
        by (transitivity
              (sz * sz * (1 + (b * b + c * c - 1) * (4 * b * b)));
            [rewrite Hq |]; ring)
  end.
  rewrite !sqrt_sq_abs.
  rewrite (Rabs_pos_eq sy) by exact Hy.
  rewrite (Rabs_pos_eq sz) by exact Hz.
  unfold JS.ltb. destruct (Rlt_dec (sx * sy * sz) 0) as [Hneg | Hpos].
  - assert (Hsx : sx < 0).
    { destruct (Rlt_dec sx 0) as [H | H]; [exact H | exfalso].
      assert (0 <= sx * sy) by (apply Rmult_le_pos; lra).
      assert (0 <= sx * sy * sz) by (apply Rmult_le_pos; lra).
      lra. }
    rewrite (Rabs_left sx) by exact Hsx.
    f_equal. ring.
  - assert (Hsx : 0 <= sx).
    { destruct (Rle_dec 0 sx) as [H | H]; [exact H | exfalso].
      assert (H' : sx < 0) by lra. specialize (Hx H'). nra. }
    rewrite (Rabs_pos_eq sx) by exact Hsx. reflexivity.
Qed.

Lemma scaleOf_yz_nonneg (m : Matrix4.t) :
  0 <= Vector3.y (scaleOf m) /\ 0 <= Vector3.z (scaleOf m).
Proof. split; apply sqrt_pos. Qed.

Lemma scaleOf_affine_sign (m : Matrix4.t) :
  affine m ->
  Vector3.x (scaleOf m) < 0 ->
  0 < Vector3.y (scaleOf m) * Vector3.z (scaleOf m).
Proof.
  intros (H3 & H7 & H11 & H15) Hx.
  unfold scaleOf, Matrix4.decompose in *.
  cbn [snd Vector3.x Vector3.y Vector3.z] in *.
  unfold JS.ltb in Hx.
  destruct (Rlt_dec (Matrix4.determinant m) 0) as [Hdet | Hdet].
  2:{ pose proof (sqrt_pos
        (Vector3.x (Vector3.mk (Matrix4.te0 m) (Matrix4.te1 m) (Matrix4.te2 m))
         * Vector3.x (Vector3.mk (Matrix4.te0 m) (Matrix4.te1 m) (Matrix4.te2 m))
         + Vector3.y (Vector3.mk (Matrix4.te0 m) (Matrix4.te1 m) (Matrix4.te2 m))
         * Vector3.y (Vector3.mk (Matrix4.te0 m) (Matrix4.te1 m) (Matrix4.te2 m))
         + Vector3.z (Vector3.mk (Matrix4.te0 m) (Matrix4.te1 m) (Matrix4.te2 m))
         * Vector3.z (Vector3.mk (Matrix4.te0 m) (Matrix4.te1 m) (Matrix4.te2 m)))).
      unfold Vector3.length in Hx. lra. }
  unfold Matrix4.determinant in Hdet. rewrite H3, H7, H11, H15 in Hdet.
  unfold Vector3.length. cbn [Vector3.x Vector3.y Vector3.z].
  set (A := Matrix4.te4 m * Matrix4.te4 m + Matrix4.te5 m * Matrix4.te5 m
            + Matrix4.te6 m * Matrix4.te6 m).
  set (B := Matrix4.te8 m * Matrix4.te8 m + Matrix4.te9 m * Matrix4.te9 m
            + Matrix4.te10 m * Matrix4.te10 m).
  assert (HA : 0 < A).
  { destruct (Rlt_dec 0 A) as [H | H]; [exact H | exfalso].
    assert (HA0 : A = 0) by (unfold A in *; nra).
    assert (Matrix4.te4 m = 0) by (unfold A in HA0; nra).
    assert (Matrix4.te5 m = 0) by (unfold A in HA0; nra).
    assert (Matrix4.te6 m = 0) by (unfold A in HA0; nra).
    nra. }
  assert (HB : 0 < B).
  { destruct (Rlt_dec 0 B) as [H | H]; [exact H | exfalso].
    assert (HB0 : B = 0) by (unfold B in *; nra).
    assert (Matrix4.te8 m = 0) by (unfold B in HB0; nra).
    assert (Matrix4.te9 m = 0) by (unfold B in HB0; nra).
    assert (Matrix4.te10 m = 0) by (unfold B in HB0; nra).
    nra. }
  apply Rmult_lt_0_compat; apply sqrt_lt_R0; assumption.
Qed.

(** One ornament frame keeps the scale a slot reads back as. *)
Lemma ornamentStep_scaleOf (isTree : bool) (time delta : R)
    (data : Ornament.t) (i : nat) (m : Matrix4.t) :
  affine m ->
  scaleOf (ornamentStep isTree time delta data i m) = scaleOf m.
Proof.
  intros Haff. unfold ornamentStep. rewrite setFromEuler_vertical.
  destruct (scaleOf_yz_nonneg m) as [Hy Hz].
  apply scaleOf_compose_vertical.
  - apply sin2_cos2'.
  - exact Hy.
  - exact Hz.
  - apply scaleOf_affine_sign; exact Haff.
Qed.

(** ** Unit orientations *)

Lemma quaternion_length_one (q : Quaternion.t) :
  Quaternion.x q * Quaternion.x q + Quaternion.y q * Quaternion.y q
  + Quaternion.z q * Quaternion.z q + Quaternion.w q * Quaternion.w q = 1 ->
  Quaternion.length q = 1.
Proof. intros H. unfold Quaternion.length. rewrite H. apply sqrt_1. Qed.

Lemma setFromEuler_sq (e : Euler.t) :
  let q := Quaternion.setFromEuler e in
  Quaternion.x q * Quaternion.x q + Quaternion.y q * Quaternion.y q
  + Quaternion.z q * Quaternion.z q + Quaternion.w q * Quaternion.w q = 1.
Proof.
  cbv zeta. unfold Quaternion.setFromEuler.
  cbn [Quaternion.x Quaternion.y Quaternion.z Quaternion.w].
  set (c1 := cos (Euler.x e / 2)). set (s1 := sin (Euler.x e / 2)).
  set (c2 := cos (Euler.y e / 2)). set (s2 := sin (Euler.y e / 2)).
  set (c3 := cos (Euler.z e / 2)). set (s3 := sin (Euler.z e / 2)).
  assert (H1 : s1 * s1 + c1 * c1 = 1) by apply sin2_cos2'.
  assert (H2 : s2 * s2 + c2 * c2 = 1) by apply sin2_cos2'.
  assert (H3 : s3 * s3 + c3 * c3 = 1) by apply sin2_cos2'.
  transitivity ((s1 * s1 + c1 * c1) * (s2 * s2 + c2 * c2)
                * (s3 * s3 + c3 * c3)); [ring |].
  rewrite H1, H2, H3. ring.
Qed.

Lemma multiply_sq (a b : Quaternion.t) :
  let q := Quaternion.multiply a b in
  Quaternion.x q * Quaternion.x q + Quaternion.y q * Quaternion.y q
  + Quaternion.z q * Quaternion.z q + Quaternion.w q * Quaternion.w q
  = (Quaternion.x a * Quaternion.x a + Quaternion.y a * Quaternion.y a
     + Quaternion.z a * Quaternion.z a + Quaternion.w a * Quaternion.w a)
    * (Quaternion.x b * Quaternion.x b + Quaternion.y b * Quaternion.y b
       + Quaternion.z b * Quaternion.z b + Quaternion.w b * Quaternion.w b).
Proof.
  cbv zeta. unfold Quaternion.multiply.
  cbn [Quaternion.x Quaternion.y Quaternion.z Quaternion.w]. ring.
Qed.

Lemma normSq_nonneg (q : Quaternion.t) : 0 <= normSq q.
Proof.
  unfold normSq.
  pose proof (Rle_0_sqr (Quaternion.x q)). pose proof (Rle_0_sqr (Quaternion.y q)).
  pose proof (Rle_0_sqr (Quaternion.z q)). pose proof (Rle_0_sqr (Quaternion.w q)).
  unfold Rsqr in *. lra.
Qed.

(** A quaternion has length 1 exactly when its squared length is 1. *)
Lemma length_normSq (q : Quaternion.t) :
  Quaternion.length q = 1 <-> normSq q = 1.
Proof.
  change (Quaternion.length q) with (sqrt (normSq q)).
  split; intros H.
  - rewrite <- (sqrt_sqrt (normSq q)) by apply normSq_nonneg.
    rewrite H. ring.
  - rewrite H. apply sqrt_1.
Qed.

Lemma needleTargetQuat_normSq (isTree : bool) (time : R) (data : Needle.t) :
  normSq (needleTargetQuat isTree time data) = 1.
Proof.
  unfold normSq, needleTargetQuat. destruct isTree.
  - apply setFromEuler_sq.
  - rewrite multiply_sq.
    rewrite (setFromEuler_sq (Needle.scatterRot data)).
    unfold Quaternion.setFromAxisAngle.
    cbn [Quaternion.x Quaternion.y Quaternion.z Quaternion.w
         Vector3.x Vector3.y Vector3.z].
    pose proof (sin2_cos2' (time * 0.1 / 2)) as H.
    rewrite Rmult_0_l, Rmult_1_l. lra.
Qed.

(** The two shapes of the branches of [setFromRotationMatrix]. *)
Lemma rotation_branch_trace (a b c r : R) :
  r <> 0 ->
  a * a + b * b + c * c = 4 * (r * r) - r * r * (r * r) ->
  a * (0.5 / r) * (a * (0.5 / r)) + b * (0.5 / r) * (b * (0.5 / r))
  + c * (0.5 / r) * (c * (0.5 / r))
  + 0.25 / (0.5 / r) * (0.25 / (0.5 / r)) = 1.
Proof.
  intros Hr H.
  replace 0.5 with (1 / 2) by lra. replace 0.25 with (1 / 4) by lra.
  transitivity ((a * a + b * b + c * c) * (1 / (4 * (r * r)))
                + r * r / 4); [field; exact Hr |].
  rewrite H. field. exact Hr.
Qed.

Lemma rotation_branch_diag (a b c r : R) :
  r <> 0 ->
  a * a + b * b + c * c = 4 * (r * r) - r * r * (r * r) ->
  0.25 * (2 * r) * (0.25 * (2 * r))
  + a / (2 * r) * (a / (2 * r)) + b / (2 * r) * (b / (2 * r))
  + c / (2 * r) * (c / (2 * r)) = 1.
Proof.
  intros Hr H.
  replace 0.25 with (1 / 4) by lra.
  transitivity ((a * a + b * b + c * c) * (1 / (4 * (r * r)))
                + r * r / 4); [field; exact Hr |].
  rewrite H. field. exact Hr.
Qed.

(** The last two branches of [setFromRotationMatrix], reached in two ways. *)
Ltac rotation_tail x y z w :=
  destruct (Rlt_dec _ _) as [H32 | H32];
  [ set (E := 1 + (1 - 2 * (x * x + z * z)) - (1 - 2 * (y * y + z * z))
              - (1 - 2 * (x * x + y * y)));
    assert (HE : E = 4 * (y * y)) by (unfold E; lra);
    assert (HEpos : 0 < E) by lra;
    assert (Hrr : sqrt E * sqrt E = E) by (apply sqrt_sqrt; lra);
    assert (Hr : sqrt E <> 0) by (pose proof (sqrt_lt_R0 E HEpos); lra);
    unfold normSq; cbn [Quaternion.x Quaternion.y Quaternion.z Quaternion.w];
    etransitivity;
    [| apply (rotation_branch_diag
                (2 * (x * y - w * z) + 2 * (x * y + w * z))
                (2 * (y * z - w * x) + 2 * (y * z + w * x))
                (2 * (x * z + w * y) - 2 * (x * z - w * y))
                (sqrt E) Hr);
       rewrite Hrr, HE;
       transitivity (16 * (y * y) * (x * x + z * z + w * w)); [ring |];
       replace (x * x + z * z + w * w) with (1 - y * y) by lra; ring ];
    unfold Rdiv; ring
  | set (E := 1 + (1 - 2 * (x * x + y * y)) - (1 - 2 * (y * y + z * z))
              - (1 - 2 * (x * x + z * z)));
    assert (HE : E = 4 * (z * z)) by (unfold E; lra);
    assert (HEpos : 0 < E) by lra;
    assert (Hrr : sqrt E * sqrt E = E) by (apply sqrt_sqrt; lra);
    assert (Hr : sqrt E <> 0) by (pose proof (sqrt_lt_R0 E HEpos); lra);
    unfold normSq; cbn [Quaternion.x Quaternion.y Quaternion.z Quaternion.w];
    etransitivity;
    [| apply (rotation_branch_diag
                (2 * (x * z + w * y) + 2 * (x * z - w * y))
                (2 * (y * z - w * x) + 2 * (y * z + w * x))
                (2 * (x * y + w * z) - 2 * (x * y - w * z))
                (sqrt E) Hr);
       rewrite Hrr, HE;
       transitivity (16 * (z * z) * (x * x + y * y + w * w)); [ring |];
       replace (x * x + y * y + w * w) with (1 - z * z) by lra; ring ];
    unfold Rdiv; ring ].

(** [setFromRotationMatrix] of the rotation matrix of a unit quaternion is a
    unit quaternion. *)
Lemma toQuaternion_rotation (m : Matrix4.t) (x y z w : R) :
  x * x + y * y + z * z + w * w = 1 ->
  Matrix4.te0 m = 1 - 2 * (y * y + z * z) ->
  Matrix4.te1 m = 2 * (x * y + w * z) ->
  Matrix4.te2 m = 2 * (x * z - w * y) ->
  Matrix4.te4 m = 2 * (x * y - w * z) ->
  Matrix4.te5 m = 1 - 2 * (x * x + z * z) ->
  Matrix4.te6 m = 2 * (y * z + w * x) ->
  Matrix4.te8 m = 2 * (x * z + w * y) ->
  Matrix4.te9 m = 2 * (y * z - w * x) ->
  Matrix4.te10 m = 1 - 2 * (x * x + y * y) ->
  normSq (Matrix4.toQuaternion m) = 1.
Proof.
  intros HN H0 H1 H2 H4 H5 H6 H8 H9 H10.
  assert (Hxx : 0 <= x * x) by apply Rle_0_sqr.
  assert (Hyy : 0 <= y * y) by apply Rle_0_sqr.
  assert (Hzz : 0 <= z * z) by apply Rle_0_sqr.
  assert (Hww : 0 <= w * w) by apply Rle_0_sqr.
  unfold Matrix4.toQuaternion. cbv zeta.
  rewrite H0, H1, H2, H4, H5, H6, H8, H9, H10.
  unfold JS.ltb.
  destruct (Rlt_dec 0 _) as [Htr | Htr].
  - set (E := 1 - 2 * (y * y + z * z) + (1 - 2 * (x * x + z * z))
              + (1 - 2 * (x * x + y * y)) + 1).
    assert (HE : E = 4 * (w * w)) by (unfold E; lra).
    assert (HEpos : 0 < E) by (unfold E; lra).
    assert (Hrr : sqrt E * sqrt E = E) by (apply sqrt_sqrt; lra).
    assert (Hr : sqrt E <> 0).
    { pose proof (sqrt_lt_R0 E HEpos). lra. }
    unfold normSq. cbn [Quaternion.x Quaternion.y Quaternion.z Quaternion.w].
    apply rotation_branch_trace; [exact Hr |].
    rewrite Hrr, HE.
    transitivity (16 * (w * w) * (x * x + y * y + z * z)); [ring |].
    replace (x * x + y * y + z * z) with (1 - w * w) by lra. ring.
  - destruct (Rlt_dec _ _) as [H21 | H21]; cbn [andb];
      [destruct (Rlt_dec _ _) as [H31 | H31] |].
    + (* x is the largest *)
      set (E := 1 + (1 - 2 * (y * y + z * z)) - (1 - 2 * (x * x + z * z))
                - (1 - 2 * (x * x + y * y))).
      assert (HE : E = 4 * (x * x)) by (unfold E; lra).
      assert (HEpos : 0 < E) by lra.
      assert (Hrr : sqrt E * sqrt E = E) by (apply sqrt_sqrt; lra).
      assert (Hr : sqrt E <> 0).
      { pose proof (sqrt_lt_R0 E HEpos). lra. }
      unfold normSq. cbn [Quaternion.x Quaternion.y Quaternion.z Quaternion.w].
      apply rotation_branch_diag; [exact Hr |].
      rewrite Hrr, HE.
      transitivity (16 * (x * x) * (y * y + z * z + w * w)); [ring |].
      replace (y * y + z * z + w * w) with (1 - x * x) by lra. ring.
    + rotation_tail x y z w.
    + rotation_tail x y z w.
Qed.

(** A matrix composed from a unit quaternion and positive scales reads back
    those scales and a unit orientation. *)
Lemma decompose_compose_unit (p : Vector3.t) (q : Quaternion.t)
    (s : Vector3.t) :
  normSq q = 1 ->
  0 < Vector3.x s -> 0 < Vector3.y s -> 0 < Vector3.z s ->
  scaleOf (Matrix4.compose p q s) = s
  /\ normSq (quaternionOf (Matrix4.compose p q s)) = 1.
Proof.
  intros HN Hsx Hsy Hsz.
  destruct s as [sx sy sz]. destruct q as [x y z w]. destruct p as [px py pz].
  unfold normSq in HN.
  cbn [Vector3.x Vector3.y Vector3.z
       Quaternion.x Quaternion.y Quaternion.z Quaternion.w] in *.
  unfold scaleOf, quaternionOf, Matrix4.decompose, Matrix4.compose,
    Matrix4.determinant, Vector3.length.
  project_fields.
  set (N := x * x + y * y + z * z + w * w) in *.
  match goal with
  | |- context [JS.ltb ?d 0] =>
      replace d with (sx * sy * sz)
        by (transitivity
              (sx * sy * sz
               * (1 + (N - 1) * (4 * (x * x + y * y + z * z))));
            [rewrite HN | unfold N]; ring)
  end.
  match goal with
  | |- context [Vector3.mk (if _ then - sqrt ?e else _) _ _] =>
      replace e with (sx * sx)
        by (transitivity
              (sx * sx * (1 + (N - 1) * (4 * (y * y + z * z))));
            [rewrite HN | unfold N]; ring)
  end.
  match goal with
  | |- context [Vector3.mk _ (sqrt ?e) _] =>
      replace e with (sy * sy)
        by (transitivity
              (sy * sy * (1 + (N - 1) * (4 * (x * x + z * z))));
            [rewrite HN | unfold N]; ring)
  end.
  match goal with
  | |- context [Vector3.mk _ _ (sqrt ?e)] =>
      replace e with (sz * sz)
        by (transitivity
              (sz * sz * (1 + (N - 1) * (4 * (x * x + y * y))));
            [rewrite HN | unfold N]; ring)
  end.
  rewrite !sqrt_sq_abs.
  rewrite (Rabs_pos_eq sx) by lra.
  rewrite (Rabs_pos_eq sy) by lra.
  rewrite (Rabs_pos_eq sz) by lra.
  assert (Hdet : 0 < sx * sy * sz)
    by (repeat apply Rmult_lt_0_compat; assumption).
  unfold JS.ltb. destruct (Rlt_dec (sx * sy * sz) 0) as [Hneg | _]; [lra |].
  split; [reflexivity |].
  apply (toQuaternion_rotation _ x y z w); [exact HN | ..];
    project_fields; field; lra.
Qed.

Lemma normalize_normSq (q : Quaternion.t) :
  normSq (Quaternion.normalize q) = 1.
Proof.
  unfold Quaternion.normalize.
  change (Quaternion.length q) with (sqrt (normSq q)).
  unfold JS.eqb. destruct (Req_dec_T (sqrt (normSq q)) 0) as [Hz | Hnz].
  - unfold normSq. cbn [Quaternion.x Quaternion.y Quaternion.z Quaternion.w].
    ring.
  - assert (Hll : sqrt (normSq q) * sqrt (normSq q) = normSq q)
      by (apply sqrt_sqrt; apply normSq_nonneg).
    set (l := sqrt (normSq q)) in *.
    unfold normSq at 1.
    cbn [Quaternion.x Quaternion.y Quaternion.z Quaternion.w].
    transitivity (normSq q * (1 / l * (1 / l))); [unfold normSq; ring |].
    rewrite <- Hll. field. exact Hnz.
Qed.

(** [Math.atan2 (s, c)] for a point of the unit circle's upper right
    quarter is its angle. *)
Lemma atan2_unit (s c : R) :
  0 < s -> 0 <= c -> s * s + c * c = 1 ->
  cos (JS.atan2 s c) = c /\ sin (JS.atan2 s c) = s.
Proof.
  intros Hs Hc H1. unfold JS.atan2.
  destruct (Rlt_dec 0 c) as [Hpos | Hzero].
  - rewrite cos_atan, sin_atan.
    assert (Hsq : 1 + (s / c)² = (1 / c) * (1 / c)).
    { unfold Rsqr.
      transitivity ((s * s + c * c) / (c * c)); [field; lra |].
      rewrite H1. field. lra. }
    rewrite Hsq, sqrt_sq_abs, Rabs_pos_eq
      by (apply Rlt_le, Rdiv_lt_0_compat; lra).
    split; field; lra.
  - assert (Hc0 : c = 0) by lra. subst c.
    destruct (Rlt_dec 0 0) as [H | _]; [lra |].
    destruct (Rlt_dec 0 s) as [_ | H]; [| lra].
    rewrite cos_PI2, sin_PI2. split; [reflexivity |].
    assert (Hs1 : (s - 1) * (s + 1) = 0) by (ring_simplify; lra).
    apply Rmult_integral in Hs1. destruct Hs1; lra.
Qed.

Lemma slerp_angles (a b : R) :
  sin a * sin a + sin b * sin b + 2 * (sin a * sin b) * cos (a + b)
  = sin (a + b) * sin (a + b).
Proof.
  rewrite cos_plus, sin_plus.
  pose proof (sin2_cos2' a) as Ha. pose proof (sin2_cos2' b) as Hb.
  set (sa := sin a) in *. set (ca := cos a) in *.
  set (sb := sin b) in *. set (cb := cos b) in *.
  assert (E : sa * sa + sb * sb + 2 * (sa * sb) * (ca * cb - sa * sb)
              - (sa * cb + ca * sb) * (sa * cb + ca * sb)
              = sa * sa * (1 - (sb * sb + cb * cb))
                + sb * sb * (1 - (sa * sa + ca * ca))) by ring.
  rewrite Ha, Hb in E. lra.
Qed.

(** [slerp] between unit quaternions is a unit quaternion, for every blend
    factor. *)
Lemma slerp_normSq (q qb : Quaternion.t) (t : R) :
  normSq q = 1 -> normSq qb = 1 -> normSq (Quaternion.slerp q qb t) = 1.
Proof.
  intros Hq Hqb. unfold Quaternion.slerp.
  destruct (JS.eqb t 0); [exact Hq |].
  destruct (JS.eqb t 1); [exact Hqb |].
  cbv zeta.
  set (c0 := Quaternion.w q * Quaternion.w qb + Quaternion.x q * Quaternion.x qb
             + Quaternion.y q * Quaternion.y qb
             + Quaternion.z q * Quaternion.z qb).
  set (th := if JS.ltb c0 0
             then Quaternion.mk (- Quaternion.x qb) (- Quaternion.y qb)
                                (- Quaternion.z qb) (- Quaternion.w qb)
             else qb).
  set (c := if JS.ltb c0 0 then - c0 else c0).
  assert (Hth : normSq th = 1).
  { unfold th. destruct (JS.ltb c0 0); [| exact Hqb].
    unfold normSq in *.
    cbn [Quaternion.x Quaternion.y Quaternion.z Quaternion.w]. lra. }
  assert (Hdot : Quaternion.w q * Quaternion.w th
                 + Quaternion.x q * Quaternion.x th
                 + Quaternion.y q * Quaternion.y th
                 + Quaternion.z q * Quaternion.z th = c).
  { unfold th, c, JS.ltb. destruct (Rlt_dec c0 0);
      cbn [Quaternion.x Quaternion.y Quaternion.z Quaternion.w];
      unfold c0; ring. }
  assert (Hc0 : 0 <= c).
  { unfold c, JS.ltb. destruct (Rlt_dec c0 0); lra. }
  clearbody th c. clear c0.
  unfold JS.leb.
  destruct (Rle_dec 1 c) as [_ | Hlt]; [exact Hq |].
  destruct (Rle_dec (1 - c * c) JS.EPSILON) as [_ | Hbig].
  - apply normalize_normSq.
  - assert (Heps : 0 < JS.EPSILON).
    { unfold JS.EPSILON. apply Rinv_0_lt_compat. apply pow_lt. lra. }
    assert (Hsq : 0 < 1 - c * c) by lra.
    set (s := sqrt (1 - c * c)) in *.
    assert (Hs : 0 < s) by (apply sqrt_lt_R0; exact Hsq).
    assert (Hss : s * s = 1 - c * c) by (apply sqrt_sqrt; lra).
    destruct (atan2_unit s c Hs Hc0) as [Hcos Hsin]; [lra |].
    set (h := JS.atan2 s c) in *.
    pose proof (slerp_angles ((1 - t) * h) (t * h)) as Hid.
    replace ((1 - t) * h + t * h) with h in Hid by ring.
    rewrite Hcos, Hsin in Hid.
    set (sa := sin ((1 - t) * h)) in *. set (sb := sin (t * h)) in *.
    unfold normSq in *.
    cbn [Quaternion.x Quaternion.y Quaternion.z Quaternion.w].
    set (A := sa / s). set (B := sb / s).
    transitivity
      (A * A * (Quaternion.x q * Quaternion.x q + Quaternion.y q * Quaternion.y q
                + Quaternion.z q * Quaternion.z q
                + Quaternion.w q * Quaternion.w q)
       + B * B * (Quaternion.x th * Quaternion.x th
                  + Quaternion.y th * Quaternion.y th
                  + Quaternion.z th * Quaternion.z th
                  + Quaternion.w th * Quaternion.w th)
       + 2 * (A * B)
         * (Quaternion.w q * Quaternion.w th + Quaternion.x q * Quaternion.x th
            + Quaternion.y q * Quaternion.y th
            + Quaternion.z q * Quaternion.z th)); [ring |].
    rewrite Hq, Hth, Hdot. unfold A, B.
    transitivity ((sa * sa + sb * sb + 2 * (sa * sb) * c) / (s * s));
      [field; lra |].
    rewrite Hid. field. lra.
Qed.

(** What one frame makes of a needle slot that reads back a unit
    orientation: the scale of the mode, and again a unit orientation. *)
Lemma needleStep_oriented (isTree : bool) (time delta : R) (data : Needle.t)
    (i : nat) (m : Matrix4.t) :
  Quaternion.length (quaternionOf m) = 1 ->
  scaleOf (needleStep isTree time delta data i m)
  = Vector3.setScalar (if isTree then 1 else 0.5)
  /\ Quaternion.length (quaternionOf (needleStep isTree time delta data i m))
     = 1.
Proof.
  intros Hm. apply length_normSq in Hm.
  unfold needleStep.
  destruct (decompose_compose_unit
              (Vector3.lerp (positionOf m)
                            (needleTargetPos isTree time data i)
                            (Needle.speed data * 60 * delta))
              (Quaternion.slerp (quaternionOf m)
                                (needleTargetQuat isTree time data)
                                (Needle.speed data * 60 * delta))
              (Vector3.setScalar (if isTree then 1 else 0.5)))
    as [Hs Hq].
  - apply slerp_normSq; [exact Hm | apply needleTargetQuat_normSq].
  - unfold Vector3.setScalar. cbn [Vector3.x]. destruct isTree; lra.
  - unfold Vector3.setScalar. cbn [Vector3.y]. destruct isTree; lra.
  - unfold Vector3.setScalar. cbn [Vector3.z]. destruct isTree; lra.
  - split; [exact Hs | apply length_normSq; exact Hq].
Qed.

(** The matrix the setup pass writes for a needle reads back a unit
    orientation, and so does the identity matrix of a fresh buffer. *)
Lemma setup_needle_oriented :
  Quaternion.length
    (quaternionOf (Matrix4.compose Vector3.zero Quaternion.identity
                                   (Vector3.mk 0.1 0.4 0.1))) = 1.
Proof.
  apply length_normSq.
  apply decompose_compose_unit;
    [unfold normSq, Quaternion.identity; cbn; ring | cbn; lra ..].
Qed.

Lemma identity_oriented :
  Quaternion.length (quaternionOf Matrix4.identity) = 1.
Proof.
  replace Matrix4.identity
    with (Matrix4.compose Vector3.zero Quaternion.identity
                          (Vector3.mk 1 1 1)).
  - apply length_normSq.
    apply decompose_compose_unit;
      [unfold normSq, Quaternion.identity; cbn; ring | cbn; lra ..].
  - unfold Matrix4.compose, Matrix4.identity, Quaternion.identity,
      Vector3.zero.
    cbn [Quaternion.x Quaternion.y Quaternion.z Quaternion.w
         Vector3.x Vector3.y Vector3.z].
    repeat rewrite ?Rmult_0_l, ?Rplus_0_l, ?Rmult_0_r, ?Rplus_0_r,
      ?Rminus_0_r, ?Rmult_1_l.
    reflexivity.
Qed.

(** ** One frame, one slot *)

Lemma stepMesh_slot {A : Type} (step : A -> nat -> Matrix4.t -> Matrix4.t)
    (arr : list A) (mesh : InstancedMesh.t) (i : nat) (d : A) :
  nth_error arr i = Some d ->
  (i < length (InstancedMesh.instanceMatrix mesh))%nat ->
  InstancedMesh.getMatrixAt i (stepMesh step arr mesh)
  = step d i (InstancedMesh.getMatrixAt i mesh).
Proof.
  intros Hd Hi. unfold InstancedMesh.getMatrixAt, stepMesh.
  cbn [InstancedMesh.instanceMatrix].
  apply applySteps_nth; [lia | rewrite Nat.sub_0_r; exact Hd | exact Hi].
Qed.

Lemma stepMesh_length {A : Type} (step : A -> nat -> Matrix4.t -> Matrix4.t)
    (arr : list A) (mesh : InstancedMesh.t) :
  length (InstancedMesh.instanceMatrix (stepMesh step arr mesh))
  = length (InstancedMesh.instanceMatrix mesh).
Proof. apply applySteps_length. Qed.

Lemma useFrame_needle_slot (needles : list Needle.t)
    (ornaments : list Ornament.t) (mode : TreeMorphState) (time delta : R)
    (s : Scene) (mesh : InstancedMesh.t) (i : nat) (data : Needle.t) :
  needlesMesh s = Some mesh ->
  nth_error needles i = Some data ->
  (i < length (InstancedMesh.instanceMatrix mesh))%nat ->
  exists mesh',
    needlesMesh (useFrame needles ornaments mode time delta s) = Some mesh'
    /\ length (InstancedMesh.instanceMatrix mesh')
       = length (InstancedMesh.instanceMatrix mesh)
    /\ InstancedMesh.getMatrixAt i mesh'
       = needleStep (TreeMorphState_eqb mode TREE_SHAPE) time delta data i
                    (InstancedMesh.getMatrixAt i mesh).
Proof.
  intros Hm Hd Hi.
  destruct (useFrame_refs needles ornaments mode time delta s) as (HN & _ & _).
  rewrite Hm in HN. cbn [option_map] in HN.
  eexists. split; [exact HN |]. split.
  - apply stepMesh_length.
  - apply stepMesh_slot; assumption.
Qed.

Lemma useFrame_ornament_slot (needles : list Needle.t)
    (ornaments : list Ornament.t) (mode : TreeMorphState) (time delta : R)
    (s : Scene) (mesh : InstancedMesh.t) (i : nat) (data : Ornament.t) :
  ornamentsMesh s = Some mesh ->
  nth_error ornaments i = Some data ->
  (i < length (InstancedMesh.instanceMatrix mesh))%nat ->
  exists mesh',
    ornamentsMesh (useFrame needles ornaments mode time delta s) = Some mesh'
    /\ length (InstancedMesh.instanceMatrix mesh')
       = length (InstancedMesh.instanceMatrix mesh)
    /\ InstancedMesh.instanceColor mesh' = InstancedMesh.instanceColor mesh
    /\ InstancedMesh.getMatrixAt i mesh'
       = ornamentStep (TreeMorphState_eqb mode TREE_SHAPE) time delta data i
                      (InstancedMesh.getMatrixAt i mesh).
Proof.
  intros Hm Hd Hi.
  destruct (useFrame_refs needles ornaments mode time delta s) as (_ & HO & _).
  rewrite Hm in HO. cbn [option_map] in HO.
  eexists. split; [exact HO |]. split; [apply stepMesh_length |].
  split; [reflexivity |].
  apply stepMesh_slot; assumption.
Qed.

(** C1, amended. One frame moves every needle's position, read back from the
    instance buffer, toward the frame's target by the factor speed * 60 * dt,
    and every ornament's position toward its target by speed * 50 * dt. *)
Theorem frame_position_lerp (needles : list Needle.t)
    (ornaments : list Ornament.t) (mode : TreeMorphState) (time delta : R)
    (s : Scene) (nmesh omesh : InstancedMesh.t) (i j : nat)
    (nd : Needle.t) (od : Ornament.t) :
  needlesMesh s = Some nmesh ->
  ornamentsMesh s = Some omesh ->
  nth_error needles i = Some nd ->
  nth_error ornaments j = Some od ->
  (i < length (InstancedMesh.instanceMatrix nmesh))%nat ->
  (j < length (InstancedMesh.instanceMatrix omesh))%nat ->
  let isTree := TreeMorphState_eqb mode TREE_SHAPE in
  let s' := useFrame needles ornaments mode time delta s in
  exists nmesh' omesh',
    needlesMesh s' = Some nmesh'
    /\ ornamentsMesh s' = Some omesh'
    /\ positionOf (InstancedMesh.getMatrixAt i nmesh')
       = Vector3.lerp (positionOf (InstancedMesh.getMatrixAt i nmesh))
                      (needleTargetPos isTree time nd i)
                      (Needle.speed nd * 60 * delta)
    /\ positionOf (InstancedMesh.getMatrixAt j omesh')
       = Vector3.lerp (positionOf (InstancedMesh.getMatrixAt j omesh))
                      (ornamentTargetPos isTree time od j)
                      (Ornament.speed od * 50 * delta).
Proof.
  intros Hn Ho Hnd Hod Hi Hj isTree s'.
  destruct (useFrame_needle_slot needles ornaments mode time delta s
              nmesh i nd Hn Hnd Hi) as (nmesh' & Hn' & _ & Hni).
  destruct (useFrame_ornament_slot needles ornaments mode time delta s
              omesh j od Ho Hod Hj) as (omesh' & Ho' & _ & _ & Hoj).
  exists nmesh', omesh'. repeat split; try assumption.
  - rewrite Hni. unfold needleStep. apply positionOf_compose.
  - rewrite Hoj. unfold ornamentStep. apply positionOf_compose.
Qed.

(** Witness of [frame_position_lerp]: one arranged frame of the one-needle,
    one-ornament scene. *)
Lemma frame_position_lerp_witness :
  exists nmesh' omesh',
    needlesMesh (useFrame [oneNeedle] [oneOrnament] TREE_SHAPE 0 (/ 60)
                          smallScene) = Some nmesh'
    /\ ornamentsMesh (useFrame [oneNeedle] [oneOrnament] TREE_SHAPE 0 (/ 60)
                               smallScene) = Some omesh'
    /\ positionOf (InstancedMesh.getMatrixAt 0 nmesh')
       = Vector3.lerp
           (positionOf (InstancedMesh.getMatrixAt 0 (newInstancedMesh 1)))
           (needleTargetPos true 0 oneNeedle 0)
           (Needle.speed oneNeedle * 60 * / 60)
    /\ positionOf (InstancedMesh.getMatrixAt 0 omesh')
       = Vector3.lerp
           (positionOf (InstancedMesh.getMatrixAt 0 (newInstancedMesh 1)))
           (ornamentTargetPos true 0 oneOrnament 0)
           (Ornament.speed oneOrnament * 50 * / 60).
Proof.
  apply (frame_position_lerp [oneNeedle] [oneOrnament] TREE_SHAPE 0 (/ 60)
           smallScene (newInstancedMesh 1) (newInstancedMesh 1) 0 0
           oneNeedle oneOrnament); try reflexivity; cbn; lia.
Defined.

(** C2, amended. One frame writes every needle's transform with the
    orientation slerp (orientation read back, target, speed * 60 * dt), the
    target being the arranged orientation in mode TREE_SHAPE and otherwise the
    scattered orientation turned about the vertical axis by 0.1 * t.  An
    ornament's orientation is not interpolated: in both modes the frame sets it
    to the rotation about the vertical axis by 0.5 * t + j. *)
Theorem frame_orientation (needles : list Needle.t)
    (ornaments : list Ornament.t) (mode : TreeMorphState) (time delta : R)
    (s : Scene) (nmesh omesh : InstancedMesh.t) (i j : nat)
    (nd : Needle.t) (od : Ornament.t) :
  needlesMesh s = Some nmesh ->
  ornamentsMesh s = Some omesh ->
  nth_error needles i = Some nd ->
  nth_error ornaments j = Some od ->
  (i < length (InstancedMesh.instanceMatrix nmesh))%nat ->
  (j < length (InstancedMesh.instanceMatrix omesh))%nat ->
  let s' := useFrame needles ornaments mode time delta s in
  let target :=
    match mode with
    | TREE_SHAPE => Quaternion.setFromEuler (Needle.treeRot nd)
    | SCATTERED =>
        Quaternion.multiply
          (Quaternion.setFromEuler (Needle.scatterRot nd))
          (Quaternion.setFromAxisAngle (Vector3.mk 0 1 0) (time * 0.1))
    end in
  exists nmesh' omesh',
    needlesMesh s' = Some nmesh'
    /\ ornamentsMesh s' = Some omesh'
    /\ InstancedMesh.getMatrixAt i nmesh'
       = Matrix4.compose
           (positionOf (InstancedMesh.getMatrixAt i nmesh'))
           (Quaternion.slerp
              (quaternionOf (InstancedMesh.getMatrixAt i nmesh)) target
              (Needle.speed nd * 60 * delta))
           (Vector3.setScalar
              (match mode with TREE_SHAPE => 1 | SCATTERED => 0.5 end))
    /\ InstancedMesh.getMatrixAt j omesh'
       = Matrix4.compose
           (positionOf (InstancedMesh.getMatrixAt j omesh'))
           (Quaternion.setFromAxisAngle (Vector3.mk 0 1 0)
                                        (time * 0.5 + INR j))
           (scaleOf (InstancedMesh.getMatrixAt j omesh)).
Proof.
  intros Hn Ho Hnd Hod Hi Hj s' target.
  destruct (useFrame_needle_slot needles ornaments mode time delta s
              nmesh i nd Hn Hnd Hi) as (nmesh' & Hn' & _ & Hni).
  destruct (useFrame_ornament_slot needles ornaments mode time delta s
              omesh j od Ho Hod Hj) as (omesh' & Ho' & _ & _ & Hoj).
  exists nmesh', omesh'. repeat split; try assumption.
  - rewrite Hni at 1. rewrite Hni. unfold needleStep at 2.
    rewrite positionOf_compose. unfold needleStep, needleTargetQuat, target.
    destruct mode; reflexivity.
  - rewrite Hoj at 1. rewrite Hoj. unfold ornamentStep at 2.
    rewrite positionOf_compose. unfold ornamentStep.
    rewrite setFromEuler_vertical_axisAngle. reflexivity.
Qed.

(** Witness of [frame_orientation]: one scattered frame of the one-needle,
    one-ornament scene. *)
Lemma frame_orientation_witness :
  exists nmesh' omesh',
    needlesMesh (useFrame [oneNeedle] [oneOrnament] SCATTERED 1 (/ 60)
                          smallScene) = Some nmesh'
    /\ ornamentsMesh (useFrame [oneNeedle] [oneOrnament] SCATTERED 1 (/ 60)
                               smallScene) = Some omesh'
    /\ InstancedMesh.getMatrixAt 0 nmesh'
       = Matrix4.compose
           (positionOf (InstancedMesh.getMatrixAt 0 nmesh'))
           (Quaternion.slerp
              (quaternionOf (InstancedMesh.getMatrixAt 0 (newInstancedMesh 1)))
              (Quaternion.multiply
                 (Quaternion.setFromEuler (Needle.scatterRot oneNeedle))
                 (Quaternion.setFromAxisAngle (Vector3.mk 0 1 0) (1 * 0.1)))
              (Needle.speed oneNeedle * 60 * / 60))
           (Vector3.setScalar 0.5)
    /\ InstancedMesh.getMatrixAt 0 omesh'
       = Matrix4.compose
           (positionOf (InstancedMesh.getMatrixAt 0 omesh'))
           (Quaternion.setFromAxisAngle (Vector3.mk 0 1 0) (1 * 0.5 + INR 0))
           (scaleOf (InstancedMesh.getMatrixAt 0 (newInstancedMesh 1))).
Proof.
  apply (frame_orientation [oneNeedle] [oneOrnament] SCATTERED 1 (/ 60)
           smallScene (newInstancedMesh 1) (newInstancedMesh 1) 0 0
           oneNeedle oneOrnament); try reflexivity; cbn; lia.
Defined.

(** C4. One frame sets every needle's scale to the constant of the mode, with
    no blending: a needle slot that reads back a unit orientation (as every
    slot does from the first render on) reads back, after the frame, the
    uniform scale 1 in mode TREE_SHAPE and 0.5 otherwise, whatever scale it
    held before, and again a unit orientation.  The frame recomposes every
    ornament's transform with the scale it decomposed from the slot, and that
    slot reads back the same scale after the frame. *)
Theorem frame_scale (needles : list Needle.t)
    (ornaments : list Ornament.t) (mode : TreeMorphState) (time delta : R)
    (s : Scene) (nmesh omesh : InstancedMesh.t) (i j : nat)
    (nd : Needle.t) (od : Ornament.t) :
  needlesMesh s = Some nmesh ->
  ornamentsMesh s = Some omesh ->
  nth_error needles i = Some nd ->
  nth_error ornaments j = Some od ->
  (i < length (InstancedMesh.instanceMatrix nmesh))%nat ->
  (j < length (InstancedMesh.instanceMatrix omesh))%nat ->
  Quaternion.length (quaternionOf (InstancedMesh.getMatrixAt i nmesh)) = 1 ->
  affine (InstancedMesh.getMatrixAt j omesh) ->
  let s' := useFrame needles ornaments mode time delta s in
  exists nmesh' omesh' p' q',
    needlesMesh s' = Some nmesh'
    /\ ornamentsMesh s' = Some omesh'
    /\ scaleOf (InstancedMesh.getMatrixAt i nmesh')
       = Vector3.setScalar
           (match mode with TREE_SHAPE => 1 | SCATTERED => 0.5 end)
    /\ Quaternion.length (quaternionOf (InstancedMesh.getMatrixAt i nmesh'))
       = 1
    /\ InstancedMesh.getMatrixAt j omesh'
       = Matrix4.compose p' q' (scaleOf (InstancedMesh.getMatrixAt j omesh))
    /\ scaleOf (InstancedMesh.getMatrixAt j omesh')
       = scaleOf (InstancedMesh.getMatrixAt j omesh)
    /\ affine (InstancedMesh.getMatrixAt j omesh').
Proof.
  intros Hn Ho Hnd Hod Hi Hj Hunit Haff s'.
  destruct (useFrame_needle_slot needles ornaments mode time delta s
              nmesh i nd Hn Hnd Hi) as (nmesh' & Hn' & _ & Hni).
  destruct (useFrame_ornament_slot needles ornaments mode time delta s
              omesh j od Ho Hod Hj) as (omesh' & Ho' & _ & _ & Hoj).
  destruct (needleStep_oriented (TreeMorphState_eqb mode TREE_SHAPE) time
              delta nd i _ Hunit) as [Hscale Hunit'].
  exists nmesh', omesh'.
  do 2 eexists.
  split; [exact Hn' |]. split; [exact Ho' |].
  split.
  { rewrite Hni, Hscale. destruct mode; reflexivity. }
  split.
  { rewrite Hni. exact Hunit'. }
  split.
  { rewrite Hoj. unfold ornamentStep. reflexivity. }
  split.
  { rewrite Hoj. apply ornamentStep_scaleOf. exact Haff. }
  rewrite Hoj. apply compose_affine.
Qed.

(** Witness of [frame_scale]: one scattered frame of the one-needle,
    one-ornament scene, whose slots hold the identity matrix. *)
Lemma frame_scale_witness :
  exists nmesh' omesh' p' q',
    needlesMesh (useFrame [oneNeedle] [oneOrnament] SCATTERED 1 (/ 60)
                          smallScene) = Some nmesh'
    /\ ornamentsMesh (useFrame [oneNeedle] [oneOrnament] SCATTERED 1 (/ 60)
                               smallScene) = Some omesh'
    /\ scaleOf (InstancedMesh.getMatrixAt 0 nmesh') = Vector3.setScalar 0.5
    /\ Quaternion.length (quaternionOf (InstancedMesh.getMatrixAt 0 nmesh'))
       = 1
    /\ InstancedMesh.getMatrixAt 0 omesh'
       = Matrix4.compose p' q'
           (scaleOf (InstancedMesh.getMatrixAt 0 (newInstancedMesh 1)))
    /\ scaleOf (InstancedMesh.getMatrixAt 0 omesh')
       = scaleOf (InstancedMesh.getMatrixAt 0 (newInstancedMesh 1))
    /\ affine (InstancedMesh.getMatrixAt 0 omesh').
Proof.
  apply (frame_scale [oneNeedle] [oneOrnament] SCATTERED 1 (/ 60)
           smallScene (newInstancedMesh 1) (newInstancedMesh 1) 0 0
           oneNeedle oneOrnament eq_refl eq_refl eq_refl eq_refl
           (Nat.lt_0_succ 0) (Nat.lt_0_succ 0) identity_oriented).
  unfold affine. cbn. repeat split; reflexivity.
Defined.

(** C9. The frame callback takes no random draw (it has no access to the
    stream), and what it writes depends on the buffers, the star, the mode,
    t, dt and the datasets only: two scenes that agree on the three refs,
    whatever their scratch objects hold, agree on the three refs after the
    frame. *)
Theorem useFrame_deterministic (needles : list Needle.t)
    (ornaments : list Ornament.t) (mode : TreeMorphState) (time delta : R)
    (s1 s2 : Scene) :
  needlesMesh s1 = needlesMesh s2 ->
  ornamentsMesh s1 = ornamentsMesh s2 ->
  starMesh s1 = starMesh s2 ->
  let s1' := useFrame needles ornaments mode time delta s1 in
  let s2' := useFrame needles ornaments mode time delta s2 in
  needlesMesh s1' = needlesMesh s2'
  /\ ornamentsMesh s1' = ornamentsMesh s2'
  /\ starMesh s1' = starMesh s2'.
Proof.
  intros Hn Ho Hs s1' s2'.
  destruct (useFrame_refs needles ornaments mode time delta s1)
    as (N1 & O1 & S1).
  destruct (useFrame_refs needles ornaments mode time delta s2)
    as (N2 & O2 & S2).
  unfold s1', s2'. rewrite N1, N2, O1, O2, S1, S2, Hn, Ho, Hs.
  repeat split; reflexivity.
Qed.

(** Witness of [useFrame_deterministic]: two scenes with the same refs and
    different scratch contents. *)
Lemma useFrame_deterministic_witness :
  needlesMesh (useFrame [oneNeedle] [oneOrnament] SCATTERED 1 (/ 60)
                        smallScene)
  = needlesMesh (useFrame [oneNeedle] [oneOrnament] SCATTERED 1 (/ 60)
                          smallSceneUsed)
  /\ ornamentsMesh (useFrame [oneNeedle] [oneOrnament] SCATTERED 1 (/ 60)
                             smallScene)
     = ornamentsMesh (useFrame [oneNeedle] [oneOrnament] SCATTERED 1 (/ 60)
                               smallSceneUsed)
  /\ starMesh (useFrame [oneNeedle] [oneOrnament] SCATTERED 1 (/ 60)
                        smallScene)
     = starMesh (useFrame [oneNeedle] [oneOrnament] SCATTERED 1 (/ 60)
                          smallSceneUsed).
Proof.
  apply (useFrame_deterministic [oneNeedle] [oneOrnament] SCATTERED 1 (/ 60)
           smallScene smallSceneUsed); reflexivity.
Defined.

(** ** Datasets *)

Lemma Some_inj {A : Type} (a b : A) : Some a = Some b -> a = b.
Proof. intros H. injection H as H. exact H. Qed.

Lemma advance_0 (g : RNG) : advance g 0 = g.
Proof. destruct g; reflexivity. Qed.

Lemma advance_advance (g : RNG) (a b : nat) :
  advance (advance g a) b = advance g (a + b).
Proof. unfold advance. cbn [draws cursor]. f_equal. lia. Qed.

Lemma pushLoop_S {A : Type} (gen : Rand A) (n : nat) (g : RNG) :
  pushLoop (S n) gen g
  = (fst (gen g) :: fst (pushLoop n gen (snd (gen g))),
     snd (pushLoop n gen (snd (gen g)))).
Proof.
  cbn [pushLoop]. unfold bind, ret.
  destruct (gen g) as [a g1]. cbn [fst snd].
  destruct (pushLoop n gen g1) as [rest g2]. reflexivity.
Qed.

Lemma pushLoop_spec {A : Type} (gen : Rand A) (c : nat) :
  stride gen c ->
  forall n g,
    snd (pushLoop n gen g) = advance g (n * c)
    /\ length (fst (pushLoop n gen g)) = n
    /\ forall i, (i < n)%nat ->
         nth_error (fst (pushLoop n gen g)) i
         = Some (fst (gen (advance g (i * c)))).
Proof.
  intros Hs. induction n as [| n IH]; intros g.
  - cbn. rewrite advance_0. repeat split; auto. intros i Hi; lia.
  - rewrite pushLoop_S, (Hs g). cbn [fst snd].
    destruct (IH (advance g c)) as (IH1 & IH2 & IH3).
    split; [| split].
    + rewrite IH1, advance_advance. reflexivity.
    + cbn [length]. f_equal. exact IH2.
    + intros [| i] Hi.
      * cbn. rewrite advance_0. reflexivity.
      * cbn [nth_error]. rewrite IH3 by lia.
        rewrite advance_advance. reflexivity.
Qed.

Lemma makeNeedle_stride : stride makeNeedle 13.
Proof. intros g. reflexivity. Qed.

Lemma makeOrnament_stride : stride makeOrnament 8.
Proof. intros g. reflexivity. Qed.

Lemma needlesOf_spec (g : RNG) :
  length (needlesOf g) = PARTICLE_COUNT
  /\ forall i, (i < PARTICLE_COUNT)%nat ->
       nth_error (needlesOf g) i = Some (fst (makeNeedle (advance g (i * 13)))).
Proof.
  destruct (pushLoop_spec makeNeedle 13 makeNeedle_stride PARTICLE_COUNT g)
    as (_ & H2 & H3).
  split; [exact H2 | exact H3].
Qed.

Lemma ornamentsOf_spec (g : RNG) :
  length (ornamentsOf g) = ORNAMENT_COUNT
  /\ forall j, (j < ORNAMENT_COUNT)%nat ->
       nth_error (ornamentsOf g) j
       = Some (fst (makeOrnament
                      (advance g (PARTICLE_COUNT * 13 + j * 8)))).
Proof.
  unfold ornamentsOf, needleData, ornamentData.
  destruct (pushLoop_spec makeNeedle 13 makeNeedle_stride PARTICLE_COUNT g)
    as (H1 & _ & _).
  rewrite H1.
  destruct (pushLoop_spec makeOrnament 8 makeOrnament_stride ORNAMENT_COUNT
              (advance g (PARTICLE_COUNT * 13))) as (_ & H2 & H3).
  split; [exact H2 |].
  intros j Hj. rewrite H3 by exact Hj. rewrite advance_advance. reflexivity.
Qed.

Lemma palette_index (c : R) :
  0 <= c < 1 ->
  exists col,
    JS.index colors (JS.floor (c * INR (length colors))) = Some col
    /\ In col colors.
Proof.
  intros [Hc0 Hc1].
  replace (INR (length colors)) with 3 by (simpl; ring).
  unfold JS.index, JS.floor. rewrite ZfloorZ.
  destruct (Req_dec_T (IZR (Zfloor (c * 3))) (IZR (Zfloor (c * 3))))
    as [_ | Hne]; [| contradiction].
  pose proof (Zfloor_bound (c * 3)) as [Hlo Hhi].
  assert (H0 : (0 <= Zfloor (c * 3))%Z) by (apply Zfloor_lub; lra).
  assert (H3 : (Zfloor (c * 3) < 3)%Z) by (apply lt_IZR; lra).
  destruct (Z_lt_dec (Zfloor (c * 3)) 0) as [Hneg | _]; [lia |].
  assert (Hz : Zfloor (c * 3) = 0%Z \/ Zfloor (c * 3) = 1%Z
               \/ Zfloor (c * 3) = 2%Z) by lia.
  destruct Hz as [-> | [-> | ->]]; cbn; eexists; split;
    try reflexivity; auto.
Qed.

Lemma makeOrnament_color (g : RNG) :
  Ornament.color (fst (makeOrnament g))
  = JS.index colors
      (JS.floor (draws g (5 + cursor g) * INR (length colors))).
Proof. reflexivity. Qed.

Lemma makeOrnament_scale (g : RNG) :
  Ornament.scale (fst (makeOrnament g)) = 0.15 + draws g (6 + cursor g) * 0.25.
Proof. reflexivity. Qed.

Lemma makeNeedle_speed (g : RNG) :
  Needle.speed (fst (makeNeedle g)) = 0.02 + draws g (12 + cursor g) * 0.04.
Proof. reflexivity. Qed.

Lemma makeNeedle_scatterPos (g : RNG) :
  Needle.scatterPos (fst (makeNeedle g)) = fst (randomInSphere SCATTER_RADIUS g).
Proof. reflexivity. Qed.

Lemma makeNeedle_treePos (g : RNG) :
  Needle.treePos (fst (makeNeedle g))
  = fst (randomInCone TREE_HEIGHT TREE_RADIUS_BASE (advance g 3)).
Proof. reflexivity. Qed.

Lemma ornamentsOf_colors (g : RNG) :
  (forall k, 0 <= draws g k < 1) ->
  Forall (fun d => exists col, Ornament.color d = Some col /\ In col colors)
         (ornamentsOf g).
Proof.
  intros Hdraws. apply Forall_forall. intros d Hin.
  destruct (In_nth_error _ _ Hin) as [j Hj].
  destruct (ornamentsOf_spec g) as [Hlen Hnth].
  assert (Hjlt : (j < ORNAMENT_COUNT)%nat).
  { rewrite <- Hlen. apply nth_error_Some. rewrite Hj. discriminate. }
  assert (Hd : d = fst (makeOrnament
                          (advance g (PARTICLE_COUNT * 13 + j * 8)))).
  { apply Some_inj. rewrite <- Hj. apply Hnth. exact Hjlt. }
  rewrite Hd, makeOrnament_color. apply palette_index. apply Hdraws.
Qed.

(** ** The setup pass *)

Lemma colorBuffer_setMatrixAt (k : nat) (m : Matrix4.t)
    (mesh : InstancedMesh.t) :
  colorBuffer (InstancedMesh.setMatrixAt k m mesh) = colorBuffer mesh.
Proof.
  unfold colorBuffer, InstancedMesh.setMatrixAt.
  cbn [InstancedMesh.instanceColor InstancedMesh.instanceMatrix].
  rewrite store_length. reflexivity.
Qed.

Lemma setColorAt_color (k : nat) (c : Color.t) (mesh : InstancedMesh.t) :
  InstancedMesh.instanceColor (InstancedMesh.setColorAt k c mesh)
  = Some (JS.store k c (colorBuffer mesh)).
Proof. reflexivity. Qed.

Lemma colorBuffer_setColorAt (k : nat) (c : Color.t)
    (mesh : InstancedMesh.t) :
  colorBuffer (InstancedMesh.setColorAt k c mesh)
  = JS.store k c (colorBuffer mesh).
Proof. reflexivity. Qed.

Lemma applySteps_cons {A B : Type} (dflt : B) (step : A -> nat -> B -> B)
    (d : A) (rest : list A) (k : nat) (buf : list B) :
  applySteps dflt step (d :: rest) k buf
  = applySteps dflt step rest (S k)
               (JS.store k (step d k (nth k buf dflt)) buf).
Proof. reflexivity. Qed.

Lemma setupOrnament_step (d : Ornament.t) (k : nat) (mesh : InstancedMesh.t)
    (dm : Object3D.t) (col : Color.t) :
  Ornament.color d = Some col ->
  exists dm',
    setupOrnament d k (mesh, dm)
    = Done (InstancedMesh.setColorAt k col
              (InstancedMesh.setMatrixAt k
                 (setupOrnamentMatrix (Object3D.position dm)
                                      (Object3D.quaternion dm) d k
                                      (InstancedMesh.getMatrixAt k mesh))
                 mesh), dm')
    /\ Object3D.position dm' = Object3D.position dm
    /\ Object3D.quaternion dm' = Object3D.quaternion dm.
Proof.
  intros Hcol. unfold setupOrnament. rewrite Hcol.
  eexists. split; [reflexivity |]. split; reflexivity.
Qed.

Lemma setupOrnaments_spec (ornaments : list Ornament.t) :
  forall (k : nat) (mesh : InstancedMesh.t) (dm : Object3D.t),
    Forall (fun d => exists col, Ornament.color d = Some col /\ In col colors)
           ornaments ->
    exists dm',
      forEachE_from setupOrnament ornaments k (mesh, dm)
      = Done
          (InstancedMesh.mk
             (applySteps Matrix4.zero
                (setupOrnamentMatrix (Object3D.position dm)
                                     (Object3D.quaternion dm))
                ornaments k (InstancedMesh.instanceMatrix mesh))
             (match ornaments with
              | [] => InstancedMesh.instanceColor mesh
              | _ :: _ =>
                  Some (applySteps InstancedMesh.white setupOrnamentColor
                                   ornaments k (colorBuffer mesh))
              end), dm')
      /\ Object3D.position dm' = Object3D.position dm
      /\ Object3D.quaternion dm' = Object3D.quaternion dm.
Proof.
  induction ornaments as [| d rest IH]; intros k mesh dm Hall.
  - exists dm. cbn. destruct mesh. auto.
  - inversion Hall as [| d' rest' (col & Hcol & _) Hrest]; subst.
    destruct (setupOrnament_step d k mesh dm col Hcol)
      as (dm1 & Estep & Hp1 & Hq1).
    cbn [forEachE_from]. rewrite Estep.
    match goal with
    | |- context [forEachE_from _ rest (S k) (?m1, dm1)] =>
        destruct (IH (S k) m1 dm1 Hrest) as (dm' & E & Hp & Hq)
    end.
    rewrite E. exists dm'.
    split; [| split; congruence].
    rewrite Hp1, Hq1.
    apply f_equal. apply (f_equal (fun m => (m, dm'))).
    assert (Hstep : setupOrnamentColor d k
                      (nth k (colorBuffer mesh) InstancedMesh.white) = col)
      by (unfold setupOrnamentColor; rewrite Hcol; reflexivity).
    f_equal.
    rewrite (applySteps_cons InstancedMesh.white setupOrnamentColor d rest k).
    rewrite Hstep, colorBuffer_setColorAt, colorBuffer_setMatrixAt.
    destruct rest as [| d2 rest2].
    + rewrite setColorAt_color, colorBuffer_setMatrixAt. reflexivity.
    + reflexivity.
Qed.

Lemma setupNeedles_spec (needles : list Needle.t) (mesh : InstancedMesh.t)
    (dm : Object3D.t) :
  fst (JS.forEach setupNeedle needles (mesh, dm))
  = stepMesh (setupNeedleMatrix (Object3D.position dm)
                                (Object3D.quaternion dm)) needles mesh.
Proof.
  unfold JS.forEach, stepMesh.
  apply (forEach_from_steps
           (fun x => Object3D.position x = Object3D.position dm
                     /\ Object3D.quaternion x = Object3D.quaternion dm)).
  - intros d i m sc [Hp Hq]. unfold setupNeedle, setupNeedleMatrix.
    cbn. rewrite Hp, Hq. auto.
  - auto.
Qed.

(** The refs after the setup pass, when both instanced meshes are attached,
    there is at least one ornament, and every ornament has a colour. *)
Lemma useLayoutEffect_spec (needles : list Needle.t)
    (ornaments : list Ornament.t) (s : Scene) (nm om : InstancedMesh.t) :
  needlesMesh s = Some nm ->
  ornamentsMesh s = Some om ->
  ornaments <> [] ->
  Forall (fun d => exists col, Ornament.color d = Some col /\ In col colors)
         ornaments ->
  let p := Object3D.position (dummy (scratch s)) in
  let q := Object3D.quaternion (dummy (scratch s)) in
  exists s',
    useLayoutEffect needles ornaments s = Done s'
    /\ needlesMesh s' = Some (stepMesh (setupNeedleMatrix p q) needles nm)
    /\ ornamentsMesh s'
       = Some (InstancedMesh.mk
                 (applySteps Matrix4.zero (setupOrnamentMatrix p q)
                             ornaments 0 (InstancedMesh.instanceMatrix om))
                 (Some (applySteps InstancedMesh.white setupOrnamentColor
                                   ornaments 0 (colorBuffer om))))
    /\ starMesh s' = starMesh s.
Proof.
  intros Hn Ho Hne Hall p q.
  unfold useLayoutEffect. rewrite Ho.
  destruct (setupOrnaments_spec ornaments 0 om (dummy (scratch s)) Hall)
    as (dm' & E & Hp & Hq).
  rewrite E.
  destruct ornaments as [| d rest]; [contradiction |].
  cbn [InstancedMesh.instanceColor needlesMesh ornamentsMesh starMesh scratch
       dummy tempVec].
  rewrite Hn.
  pose proof (setupNeedles_spec needles nm dm') as HN.
  destruct (JS.forEach setupNeedle needles (nm, dm')) as [nm' dm''].
  cbn [fst] in HN. subst nm'.
  eexists. split; [reflexivity |].
  cbn [needlesMesh ornamentsMesh starMesh].
  rewrite Hp, Hq. repeat split; reflexivity.
Qed.

Lemma colorBuffer_new (n : nat) :
  colorBuffer (newInstancedMesh n) = repeat InstancedMesh.white n.
Proof.
  unfold colorBuffer, newInstancedMesh.
  cbn [InstancedMesh.instanceColor InstancedMesh.instanceMatrix].
  rewrite repeat_length. reflexivity.
Qed.

Lemma ornamentsOf_nonempty (g : RNG) : ornamentsOf g <> [].
Proof.
  destruct (ornamentsOf_spec g) as [Hlen _].
  intros Hnil. rewrite Hnil in Hlen. discriminate Hlen.
Qed.

Lemma initialScene_refs :
  needlesMesh initialScene = Some (newInstancedMesh PARTICLE_COUNT)
  /\ ornamentsMesh initialScene = Some (newInstancedMesh ORNAMENT_COUNT)
  /\ Object3D.position (dummy (scratch initialScene)) = Vector3.zero
  /\ Object3D.quaternion (dummy (scratch initialScene)) = Quaternion.identity.
Proof. repeat split; reflexivity. Qed.

Lemma mount_unfold (g : RNG) :
  mount g
  = match useLayoutEffect (needlesOf g) (ornamentsOf g) initialScene with
    | Done s => Done (needlesOf g, ornamentsOf g, s)
    | Throws => Throws
    end.
Proof.
  unfold mount, needlesOf, ornamentsOf.
  destruct (needleData g) as [needles g1]. cbn [fst snd].
  destruct (ornamentData g1) as [ornaments g2]. cbn [fst].
  reflexivity.
Qed.

Lemma instanceMatrix_new (n : nat) :
  InstancedMesh.instanceMatrix (newInstancedMesh n) = repeat Matrix4.identity n.
Proof. reflexivity. Qed.

(** The first render, for draws in [0, 1): it does not throw, and the refs
    hold what the setup pass wrote on the fresh scratch object. *)
Lemma mount_spec (g : RNG) :
  (forall k, 0 <= draws g k < 1) ->
  exists s0,
    mount g = Done (needlesOf g, ornamentsOf g, s0)
    /\ needlesMesh s0
       = Some (stepMesh (setupNeedleMatrix Vector3.zero Quaternion.identity)
                        (needlesOf g) (newInstancedMesh PARTICLE_COUNT))
    /\ ornamentsMesh s0
       = Some (InstancedMesh.mk
                 (applySteps Matrix4.zero
                    (setupOrnamentMatrix Vector3.zero Quaternion.identity)
                    (ornamentsOf g) 0
                    (repeat Matrix4.identity ORNAMENT_COUNT))
                 (Some (applySteps InstancedMesh.white setupOrnamentColor
                          (ornamentsOf g) 0
                          (repeat InstancedMesh.white ORNAMENT_COUNT)))).
Proof.
  intros Hdraws.
  destruct initialScene_refs as (Hn & Ho & Hp & Hq).
  destruct (useLayoutEffect_spec (needlesOf g) (ornamentsOf g) initialScene
              (newInstancedMesh PARTICLE_COUNT)
              (newInstancedMesh ORNAMENT_COUNT) Hn Ho
              (ornamentsOf_nonempty g) (ornamentsOf_colors g Hdraws))
    as (s0 & E & HN & HO & _).
  rewrite Hp, Hq in HN, HO.
  rewrite colorBuffer_new, instanceMatrix_new in HO.
  exists s0. split; [| split].
  - rewrite mount_unfold, E. reflexivity.
  - exact HN.
  - exact HO.
Qed.

(** ** Sequences of frames *)

Lemma runFrames_cons (needles : list Needle.t) (ornaments : list Ornament.t)
    (f : Frame) (frames : list Frame) (s : Scene) :
  runFrames needles ornaments (f :: frames) s
  = runFrames needles ornaments frames
      (useFrame needles ornaments (treeState f) (time f) (delta f) s).
Proof. reflexivity. Qed.

Lemma runFrames_snoc (needles : list Needle.t) (ornaments : list Ornament.t)
    (f : Frame) (frames : list Frame) (s : Scene) :
  runFrames needles ornaments (frames ++ [f]) s
  = useFrame needles ornaments (treeState f) (time f) (delta f)
      (runFrames needles ornaments frames s).
Proof. unfold runFrames. rewrite fold_left_app. reflexivity. Qed.

Lemma runFrames_app (needles : list Needle.t) (ornaments : list Ornament.t)
    (fs1 fs2 : list Frame) (s : Scene) :
  runFrames needles ornaments (fs1 ++ fs2) s
  = runFrames needles ornaments fs2 (runFrames needles ornaments fs1 s).
Proof. unfold runFrames. apply fold_left_app. Qed.

(** Frames never touch the colour buffer nor resize the ornament buffer. *)
Lemma runFrames_ornamentsMesh (needles : list Needle.t)
    (ornaments : list Ornament.t) (frames : list Frame) :
  forall (s : Scene) (mesh : InstancedMesh.t),
    ornamentsMesh s = Some mesh ->
    exists mesh',
      ornamentsMesh (runFrames needles ornaments frames s) = Some mesh'
      /\ length (InstancedMesh.instanceMatrix mesh')
         = length (InstancedMesh.instanceMatrix mesh)
      /\ InstancedMesh.instanceColor mesh' = InstancedMesh.instanceColor mesh.
Proof.
  induction frames as [| f frames IH]; intros s mesh Hm.
  - exists mesh. auto.
  - rewrite runFrames_cons.
    destruct (useFrame_refs needles ornaments (treeState f) (time f)
                (delta f) s) as (_ & HO & _).
    rewrite Hm in HO. cbn [option_map] in HO.
    destruct (IH _ _ HO) as (mesh' & E & Hlen & Hcol).
    exists mesh'. split; [exact E |]. split.
    + rewrite Hlen. apply stepMesh_length.
    + rewrite Hcol. reflexivity.
Qed.

(** A needle's slot after a sequence of frames: its position follows
    [needleTrack]. *)
Lemma runFrames_needle_position (needles : list Needle.t)
    (ornaments : list Ornament.t) (i : nat) (data : Needle.t)
    (frames : list Frame) :
  nth_error needles i = Some data ->
  forall (s : Scene) (mesh : InstancedMesh.t),
    needlesMesh s = Some mesh ->
    (i < length (InstancedMesh.instanceMatrix mesh))%nat ->
    exists mesh',
      needlesMesh (runFrames needles ornaments frames s) = Some mesh'
      /\ length (InstancedMesh.instanceMatrix mesh')
         = length (InstancedMesh.instanceMatrix mesh)
      /\ positionOf (InstancedMesh.getMatrixAt i mesh')
         = needleTrack data i frames
             (positionOf (InstancedMesh.getMatrixAt i mesh)).
Proof.
  intros Hd. induction frames as [| f frames IH]; intros s mesh Hm Hi.
  - exists mesh. auto.
  - rewrite runFrames_cons.
    destruct (useFrame_needle_slot needles ornaments (treeState f) (time f)
                (delta f) s mesh i data Hm Hd Hi) as (m1 & E1 & Hlen1 & Hs1).
    assert (Hi1 : (i < length (InstancedMesh.instanceMatrix m1))%nat)
      by (rewrite Hlen1; exact Hi).
    destruct (IH _ _ E1 Hi1) as (mesh' & E & Hlen & Hpos).
    exists mesh'. split; [exact E |]. split; [congruence |].
    rewrite Hpos, Hs1. unfold needleStep at 1. rewrite positionOf_compose.
    reflexivity.
Qed.

Lemma mode_scale (mode : TreeMorphState) :
  (if TreeMorphState_eqb mode TREE_SHAPE then 1 else 0.5)
  = match mode with TREE_SHAPE => 1 | SCATTERED => 0.5 end.
Proof. destruct mode; reflexivity. Qed.

(** Frames keep a needle's slot reading back a unit orientation. *)
Lemma runFrames_needle_oriented (needles : list Needle.t)
    (ornaments : list Ornament.t) (i : nat) (data : Needle.t)
    (frames : list Frame) :
  nth_error needles i = Some data ->
  forall (s : Scene) (mesh : InstancedMesh.t),
    needlesMesh s = Some mesh ->
    (i < length (InstancedMesh.instanceMatrix mesh))%nat ->
    Quaternion.length (quaternionOf (InstancedMesh.getMatrixAt i mesh)) = 1 ->
    exists mesh',
      needlesMesh (runFrames needles ornaments frames s) = Some mesh'
      /\ length (InstancedMesh.instanceMatrix mesh')
         = length (InstancedMesh.instanceMatrix mesh)
      /\ Quaternion.length (quaternionOf (InstancedMesh.getMatrixAt i mesh'))
         = 1.
Proof.
  intros Hd. induction frames as [| f frames IH]; intros s mesh Hm Hi Hunit.
  - exists mesh. auto.
  - rewrite runFrames_cons.
    destruct (useFrame_needle_slot needles ornaments (treeState f) (time f)
                (delta f) s mesh i data Hm Hd Hi) as (m1 & E1 & Hlen1 & Hs1).
    destruct (needleStep_oriented
                (TreeMorphState_eqb (treeState f) TREE_SHAPE) (time f)
                (delta f) data i _ Hunit) as [_ Hunit1].
    rewrite <- Hs1 in Hunit1.
    assert (Hi1 : (i < length (InstancedMesh.instanceMatrix m1))%nat)
      by (rewrite Hlen1; exact Hi).
    destruct (IH _ _ E1 Hi1 Hunit1) as (mesh' & E & Hlen & Hunit').
    exists mesh'. split; [exact E |]. split; [congruence | exact Hunit'].
Qed.

(** After at least one frame, a needle's slot that read back a unit
    orientation before the frames reads back the uniform scale of the last
    frame's mode. *)
Lemma runFrames_needle_scale (needles : list Needle.t)
    (ornaments : list Ornament.t) (i : nat) (data : Needle.t)
    (frames : list Frame) (f : Frame) (s : Scene) (mesh : InstancedMesh.t) :
  nth_error needles i = Some data ->
  needlesMesh s = Some mesh ->
  (i < length (InstancedMesh.instanceMatrix mesh))%nat ->
  Quaternion.length (quaternionOf (InstancedMesh.getMatrixAt i mesh)) = 1 ->
  exists mesh',
    needlesMesh (runFrames needles ornaments (frames ++ [f]) s) = Some mesh'
    /\ scaleOf (InstancedMesh.getMatrixAt i mesh')
       = Vector3.setScalar
           (match treeState f with TREE_SHAPE => 1 | SCATTERED => 0.5 end).
Proof.
  intros Hd Hm Hi Hunit.
  destruct (runFrames_needle_oriented needles ornaments i data frames Hd
              s mesh Hm Hi Hunit) as (m1 & E1 & Hlen1 & Hunit1).
  assert (Hi1 : (i < length (InstancedMesh.instanceMatrix m1))%nat)
    by (rewrite Hlen1; exact Hi).
  rewrite runFrames_snoc.
  destruct (useFrame_needle_slot needles ornaments (treeState f) (time f)
              (delta f) _ m1 i data E1 Hd Hi1) as (m2 & E2 & _ & Hs2).
  destruct (needleStep_oriented
              (TreeMorphState_eqb (treeState f) TREE_SHAPE) (time f)
              (delta f) data i _ Hunit1) as [Hscale _].
  exists m2. split; [exact E2 |].
  rewrite Hs2, Hscale, mode_scale. reflexivity.
Qed.

(** ** Colours *)

Lemma colors_NoDup : NoDup colors.
Proof.
  unfold colors.
  repeat constructor; cbn; intros H;
    repeat (destruct H as [H | H]; [discriminate H |]); exact H.
Qed.

(** C8. For draws in [0, 1) the first render succeeds; every ornament's colour
    is one of the 3 palette values and is what the setup pass stores in the
    colour buffer; and after any sequence of frames, whatever their modes, the
    colour buffer is the one the setup pass left. *)
Theorem ornament_colors_fixed (g : RNG) (frames : list Frame) :
  (forall k, 0 <= draws g k < 1) ->
  length colors = 3%nat
  /\ NoDup colors
  /\ exists needles ornaments s0 omesh buf,
      mount g = Done (needles, ornaments, s0)
      /\ ornamentsMesh s0 = Some omesh
      /\ InstancedMesh.instanceColor omesh = Some buf
      /\ (forall j, (j < ORNAMENT_COUNT)%nat ->
          exists od col,
            nth_error ornaments j = Some od
            /\ Ornament.color od = Some col
            /\ In col colors
            /\ nth_error buf j = Some col)
      /\ exists omesh',
          ornamentsMesh (runFrames needles ornaments frames s0) = Some omesh'
          /\ InstancedMesh.instanceColor omesh' = Some buf.
Proof.
  intros Hdraws.
  split; [reflexivity |]. split; [exact colors_NoDup |].
  destruct (mount_spec g Hdraws) as (s0 & Hmount & _ & HO).
  exists (needlesOf g), (ornamentsOf g), s0.
  eexists. eexists.
  split; [exact Hmount |]. split; [exact HO |].
  split; [reflexivity |]. split.
  - intros j Hj.
    destruct (ornamentsOf_spec g) as [Hlen Hnth].
    pose proof (ornamentsOf_colors g Hdraws) as Hall.
    rewrite Forall_forall in Hall.
    specialize (Hnth j Hj).
    destruct (Hall _ (nth_error_In _ _ Hnth)) as (col & Hcol & Hin).
    eexists. exists col.
    split; [exact Hnth |]. split; [exact Hcol |]. split; [exact Hin |].
    rewrite (nth_error_nth' _ InstancedMesh.white)
      by (rewrite applySteps_length, repeat_length; exact Hj).
    f_equal.
    rewrite (applySteps_nth InstancedMesh.white setupOrnamentColor
               (ornamentsOf g) 0 j _
               (fst (makeOrnament (advance g (PARTICLE_COUNT * 13 + j * 8))))
               (Nat.le_0_l j));
      [| rewrite Nat.sub_0_r; exact Hnth | rewrite repeat_length; exact Hj].
    unfold setupOrnamentColor. rewrite Hcol. reflexivity.
  - destruct (runFrames_ornamentsMesh (needlesOf g) (ornamentsOf g) frames
                s0 _ HO) as (mesh' & E & _ & Hcol).
    exists mesh'. split; [exact E | exact Hcol].
Qed.

(** Witness of [ornament_colors_fixed]: every draw 0, a thousand scattered
    frames then a thousand arranged ones. *)
Lemma ornament_colors_fixed_witness :
  exists needles ornaments s0 omesh buf,
    mount zeroStream = Done (needles, ornaments, s0)
    /\ ornamentsMesh s0 = Some omesh
    /\ InstancedMesh.instanceColor omesh = Some buf
    /\ (forall j, (j < ORNAMENT_COUNT)%nat ->
        exists od col,
          nth_error ornaments j = Some od
          /\ Ornament.color od = Some col
          /\ In col colors
          /\ nth_error buf j = Some col)
    /\ exists omesh',
        ornamentsMesh
          (runFrames needles ornaments
             (steadyFrames SCATTERED 1000 0
              ++ steadyFrames TREE_SHAPE 1000 (1000 / 60)) s0) = Some omesh'
        /\ InstancedMesh.instanceColor omesh' = Some buf.
Proof.
  apply (ornament_colors_fixed zeroStream
           (steadyFrames SCATTERED 1000 0
            ++ steadyFrames TREE_SHAPE 1000 (1000 / 60))).
  intros k. simpl. lra.
Defined.

(** ** Needle scale: setup against frames *)

Lemma scaleOf_setup_needle (p : Vector3.t) :
  scaleOf (Matrix4.compose p Quaternion.identity (Vector3.mk 0.1 0.4 0.1))
  = Vector3.mk 0.1 0.4 0.1.
Proof.
  apply scaleOf_compose_vertical; cbn [Vector3.x Vector3.y Vector3.z]; lra.
Qed.

(** C10. The setup pass writes every needle's transform with the scale
    (0.1, 0.4, 0.1), and that is the scale the slot reads back as.  After any
    non-empty sequence of frames the needle's slot reads back the uniform
    scale of the last frame's mode (1 for TREE_SHAPE, else 0.5): its scale is
    one of the two constants, it is not the scale the setup pass wrote, and
    the slot no longer holds the setup matrix. *)
Theorem needle_setup_scale_overwritten (g : RNG) (frames : list Frame)
    (f : Frame) (i : nat) :
  (forall k, 0 <= draws g k < 1) ->
  (i < PARTICLE_COUNT)%nat ->
  exists needles ornaments s0 nmesh0 nmesh',
    mount g = Done (needles, ornaments, s0)
    /\ needlesMesh s0 = Some nmesh0
    /\ InstancedMesh.getMatrixAt i nmesh0
       = Matrix4.compose Vector3.zero Quaternion.identity
                         (Vector3.mk 0.1 0.4 0.1)
    /\ scaleOf (InstancedMesh.getMatrixAt i nmesh0) = Vector3.mk 0.1 0.4 0.1
    /\ needlesMesh (runFrames needles ornaments (frames ++ [f]) s0)
       = Some nmesh'
    /\ scaleOf (InstancedMesh.getMatrixAt i nmesh')
       = Vector3.setScalar
           (match treeState f with TREE_SHAPE => 1 | SCATTERED => 0.5 end)
    /\ scaleOf (InstancedMesh.getMatrixAt i nmesh')
       <> scaleOf (InstancedMesh.getMatrixAt i nmesh0)
    /\ InstancedMesh.getMatrixAt i nmesh'
       <> InstancedMesh.getMatrixAt i nmesh0.
Proof.
  intros Hdraws Hi.
  destruct (mount_spec g Hdraws) as (s0 & Hmount & HN & _).
  destruct (needlesOf_spec g) as [Hlen Hnth].
  specialize (Hnth i Hi).
  assert (Hi0 : (i < length (InstancedMesh.instanceMatrix
                               (newInstancedMesh PARTICLE_COUNT)))%nat)
    by (rewrite instanceMatrix_new, repeat_length; exact Hi).
  pose proof (stepMesh_slot
                (setupNeedleMatrix Vector3.zero Quaternion.identity)
                (needlesOf g) (newInstancedMesh PARTICLE_COUNT) i _
                Hnth Hi0) as Hslot.
  unfold setupNeedleMatrix in Hslot at 2.
  assert (Hi1 : (i < length (InstancedMesh.instanceMatrix
                   (stepMesh
                      (setupNeedleMatrix Vector3.zero Quaternion.identity)
                      (needlesOf g)
                      (newInstancedMesh PARTICLE_COUNT))))%nat)
    by (rewrite stepMesh_length; exact Hi0).
  assert (Hunit : Quaternion.length
                    (quaternionOf
                       (InstancedMesh.getMatrixAt i
                          (stepMesh
                             (setupNeedleMatrix Vector3.zero
                                                Quaternion.identity)
                             (needlesOf g)
                             (newInstancedMesh PARTICLE_COUNT)))) = 1)
    by (rewrite Hslot; apply setup_needle_oriented).
  destruct (runFrames_needle_scale (needlesOf g) (ornamentsOf g) i _ frames f
              s0 _ Hnth HN Hi1 Hunit) as (nmesh' & E & Hscale).
  assert (Hneq : scaleOf (InstancedMesh.getMatrixAt i nmesh')
                 <> scaleOf
                      (InstancedMesh.getMatrixAt i
                         (stepMesh
                            (setupNeedleMatrix Vector3.zero
                                               Quaternion.identity)
                            (needlesOf g)
                            (newInstancedMesh PARTICLE_COUNT)))).
  { rewrite Hscale, Hslot, scaleOf_setup_needle. intros Heq.
    pose proof (f_equal Vector3.x Heq) as Hx.
    pose proof (f_equal Vector3.y Heq) as Hy.
    unfold Vector3.setScalar in Hx, Hy. cbn [Vector3.x Vector3.y] in Hx, Hy.
    lra. }
  exists (needlesOf g), (ornamentsOf g), s0.
  eexists. exists nmesh'.
  split; [exact Hmount |]. split; [exact HN |].
  split; [exact Hslot |].
  split; [rewrite Hslot; apply scaleOf_setup_needle |].
  split; [exact E |]. split; [exact Hscale |].
  split; [exact Hneq |].
  intros Heq. apply Hneq. rewrite Heq. reflexivity.
Qed.

(** Witness of [needle_setup_scale_overwritten]: every draw 0, the first
    needle, one scattered frame. *)
Lemma needle_setup_scale_overwritten_witness :
  exists needles ornaments s0 nmesh0 nmesh',
    mount zeroStream = Done (needles, ornaments, s0)
    /\ needlesMesh s0 = Some nmesh0
    /\ InstancedMesh.getMatrixAt 0 nmesh0
       = Matrix4.compose Vector3.zero Quaternion.identity
                         (Vector3.mk 0.1 0.4 0.1)
    /\ scaleOf (InstancedMesh.getMatrixAt 0 nmesh0) = Vector3.mk 0.1 0.4 0.1
    /\ needlesMesh (runFrames needles ornaments
                              ([] ++ [mkFrame SCATTERED 0 (/ 60)]) s0)
       = Some nmesh'
    /\ scaleOf (InstancedMesh.getMatrixAt 0 nmesh') = Vector3.setScalar 0.5
    /\ scaleOf (InstancedMesh.getMatrixAt 0 nmesh')
       <> scaleOf (InstancedMesh.getMatrixAt 0 nmesh0)
    /\ InstancedMesh.getMatrixAt 0 nmesh'
       <> InstancedMesh.getMatrixAt 0 nmesh0.
Proof.
  apply (needle_setup_scale_overwritten zeroStream []
           (mkFrame SCATTERED 0 (/ 60)) 0).
  - intros k. simpl. lra.
  - unfold PARTICLE_COUNT. lia.
Defined.

(** ** Blending toward the arranged position *)

Lemma frac_pow (a b : Z) (n : nat) :
  (IZR a / IZR b) ^ n = IZR (a ^ Z.of_nat n) / IZR (b ^ Z.of_nat n).
Proof.
  unfold Rdiv. rewrite Rpow_mult_distr, pow_inv, !pow_IZR. reflexivity.
Qed.

Lemma frac_le (a b c d : Z) :
  (0 < b)%Z -> (0 < d)%Z -> (a * d <= c * b)%Z ->
  IZR a / IZR b <= IZR c / IZR d.
Proof.
  intros Hb Hd H.
  apply IZR_lt in Hb. apply IZR_lt in Hd. apply IZR_le in H.
  rewrite !mult_IZR in H.
  apply (Rmult_le_reg_r (IZR b * IZR d)); [nra |].
  replace (IZR a / IZR b * (IZR b * IZR d)) with (IZR a * IZR d)
    by (field; lra).
  replace (IZR c / IZR d * (IZR b * IZR d)) with (IZR c * IZR b)
    by (field; lra).
  exact H.
Qed.

Lemma frac_lt (a b c d : Z) :
  (0 < b)%Z -> (0 < d)%Z -> (a * d < c * b)%Z ->
  IZR a / IZR b < IZR c / IZR d.
Proof.
  intros Hb Hd H.
  apply IZR_lt in Hb. apply IZR_lt in Hd. apply IZR_lt in H.
  rewrite !mult_IZR in H.
  apply (Rmult_lt_reg_r (IZR b * IZR d)); [nra |].
  replace (IZR a / IZR b * (IZR b * IZR d)) with (IZR a * IZR d)
    by (field; lra).
  replace (IZR c / IZR d * (IZR b * IZR d)) with (IZR c * IZR b)
    by (field; lra).
  exact H.
Qed.

(** 0.98 ^ 180 lies between 0.01 and 0.0264. *)
Lemma pow_49_50_180 : 1 / 100 < (49 / 50) ^ 180 <= 264 / 10000.
Proof.
  rewrite frac_pow. split.
  - apply frac_lt; vm_compute; reflexivity.
  - apply frac_le; vm_compute; try reflexivity; discriminate.
Qed.

Lemma needleTrack_cons (data : Needle.t) (i : nat) (f : Frame)
    (frames : list Frame) (p : Vector3.t) :
  needleTrack data i (f :: frames) p
  = needleTrack data i frames
      (Vector3.lerp p
         (needleTargetPos (TreeMorphState_eqb (treeState f) TREE_SHAPE)
                          (time f) data i)
         (Needle.speed data * 60 * delta f)).
Proof. reflexivity. Qed.

Lemma needleTrack_app (data : Needle.t) (i : nat) (fs1 fs2 : list Frame)
    (p : Vector3.t) :
  needleTrack data i (fs1 ++ fs2) p
  = needleTrack data i fs2 (needleTrack data i fs1 p).
Proof. unfold needleTrack. apply fold_left_app. Qed.

(** At 60 frames per second every arranged frame shrinks a needle's offset
    from its arranged position by the factor 1 - speed. *)
Lemma needleTrack_arranged_steady (data : Needle.t) (i : nat)
    (frames : list Frame) :
  Forall (fun f => treeState f = TREE_SHAPE /\ delta f = / 60) frames ->
  forall p,
    let c := (1 - Needle.speed data) ^ length frames in
    let t := Needle.treePos data in
    let p' := needleTrack data i frames p in
    Vector3.x p' - Vector3.x t = c * (Vector3.x p - Vector3.x t)
    /\ Vector3.y p' - Vector3.y t = c * (Vector3.y p - Vector3.y t)
    /\ Vector3.z p' - Vector3.z t = c * (Vector3.z p - Vector3.z t).
Proof.
  induction 1 as [| f frames [Hmode Hdelta] _ IH]; intros p.
  - cbn. repeat split; ring.
  - cbv zeta in *. rewrite needleTrack_cons, Hmode, Hdelta.
    cbn [TreeMorphState_eqb needleTargetPos length].
    replace (Needle.speed data * 60 * / 60) with (Needle.speed data)
      by (field).
    destruct (IH (Vector3.lerp p (Needle.treePos data) (Needle.speed data)))
      as (Hx & Hy & Hz).
    rewrite Hx, Hy, Hz. unfold Vector3.lerp.
    cbn [Vector3.x Vector3.y Vector3.z pow].
    repeat split; ring.
Qed.

Lemma distanceTo_scaled (p p' t : Vector3.t) (c : R) :
  0 <= c ->
  Vector3.x p' - Vector3.x t = c * (Vector3.x p - Vector3.x t) ->
  Vector3.y p' - Vector3.y t = c * (Vector3.y p - Vector3.y t) ->
  Vector3.z p' - Vector3.z t = c * (Vector3.z p - Vector3.z t) ->
  Vector3.distanceTo p' t = c * Vector3.distanceTo p t.
Proof.
  intros Hc Hx Hy Hz. unfold Vector3.distanceTo.
  rewrite Hx, Hy, Hz.
  set (S := (Vector3.x p - Vector3.x t) * (Vector3.x p - Vector3.x t)
            + (Vector3.y p - Vector3.y t) * (Vector3.y p - Vector3.y t)
            + (Vector3.z p - Vector3.z t) * (Vector3.z p - Vector3.z t)).
  replace (c * (Vector3.x p - Vector3.x t) * (c * (Vector3.x p - Vector3.x t))
           + c * (Vector3.y p - Vector3.y t) * (c * (Vector3.y p - Vector3.y t))
           + c * (Vector3.z p - Vector3.z t) * (c * (Vector3.z p - Vector3.z t)))
    with (c * c * S) by (unfold S; ring).
  rewrite sqrt_mult_alt by nra.
  rewrite sqrt_sq_nonneg by exact Hc. reflexivity.
Qed.

Lemma distanceTo_nonneg (p t : Vector3.t) : 0 <= Vector3.distanceTo p t.
Proof. apply sqrt_pos. Qed.

Lemma distanceTo_y_lower (p t : Vector3.t) (d : R) :
  0 <= d ->
  d < Vector3.y t - Vector3.y p ->
  d < Vector3.distanceTo p t.
Proof.
  intros Hd Hlt. unfold Vector3.distanceTo.
  rewrite <- (sqrt_sq_nonneg d Hd) at 1.
  pose proof (Rle_0_sqr (Vector3.x p - Vector3.x t)) as Hx.
  pose proof (Rle_0_sqr (Vector3.z p - Vector3.z t)) as Hz.
  pose proof (Rle_0_sqr (Vector3.y p - Vector3.y t)) as Hy.
  unfold Rsqr in Hx, Hy, Hz.
  assert (Hyy : d * d < (Vector3.y p - Vector3.y t)
                        * (Vector3.y p - Vector3.y t)) by nra.
  apply sqrt_lt_1; [apply Rmult_le_pos; exact Hd | lra | lra].
Qed.

(** While scattered at 60 frames per second, a needle with speed 0.02 whose
    scattered position has height 0 stays within 0.5 of height 0. *)
Lemma needleTrack_scattered_y (data : Needle.t) (i : nat)
    (frames : list Frame) :
  Needle.speed data = 0.02 ->
  Vector3.y (Needle.scatterPos data) = 0 ->
  Forall (fun f => treeState f = SCATTERED /\ delta f = / 60) frames ->
  forall p,
    -0.5 <= Vector3.y p <= 0.5 ->
    -0.5 <= Vector3.y (needleTrack data i frames p) <= 0.5.
Proof.
  intros Hspeed Hscat.
  induction 1 as [| f frames [Hmode Hdelta] _ IH]; intros p Hp.
  - exact Hp.
  - rewrite needleTrack_cons, Hmode, Hdelta, Hspeed. apply IH.
    cbn [TreeMorphState_eqb needleTargetPos].
    unfold Vector3.lerp, Vector3.addScalar.
    cbn [Vector3.x Vector3.y Vector3.z]. rewrite Hscat.
    pose proof (SIN_bound (time f + INR i)) as [Hlo Hhi].
    split; lra.
Qed.

Lemma steadyFrames_Forall (mode : TreeMorphState) (n : nat) (t0 : R) :
  Forall (fun f => treeState f = mode /\ delta f = / 60)
         (steadyFrames mode n t0).
Proof.
  apply Forall_forall. intros f Hin. unfold steadyFrames in Hin.
  apply in_map_iff in Hin. destruct Hin as (k & <- & _). split; reflexivity.
Qed.

Lemma steadyFrames_length (mode : TreeMorphState) (n : nat) (t0 : R) :
  length (steadyFrames mode n t0) = n.
Proof. unfold steadyFrames. rewrite length_map, length_seq. reflexivity. Qed.

(** Every arranged frame scales a needle's offset from its arranged position
    by 1 - speed * 60 * dt. *)
Lemma needleTrack_arranged (data : Needle.t) (i : nat) (frames : list Frame) :
  Forall (fun f => treeState f = TREE_SHAPE) frames ->
  forall p,
    let c := contraction data frames in
    let t := Needle.treePos data in
    let p' := needleTrack data i frames p in
    Vector3.x p' - Vector3.x t = c * (Vector3.x p - Vector3.x t)
    /\ Vector3.y p' - Vector3.y t = c * (Vector3.y p - Vector3.y t)
    /\ Vector3.z p' - Vector3.z t = c * (Vector3.z p - Vector3.z t).
Proof.
  induction 1 as [| f frames Hmode _ IH]; intros p.
  - cbn. repeat split; ring.
  - cbv zeta in *. rewrite needleTrack_cons, Hmode.
    cbn [TreeMorphState_eqb needleTargetPos contraction fold_right].
    fold (contraction data frames).
    destruct (IH (Vector3.lerp p (Needle.treePos data)
                               (Needle.speed data * 60 * delta f)))
      as (Hx & Hy & Hz).
    rewrite Hx, Hy, Hz. unfold Vector3.lerp.
    cbn [Vector3.x Vector3.y Vector3.z].
    repeat split; ring.
Qed.

Lemma exp_le (a b : R) : a <= b -> exp a <= exp b.
Proof.
  intros [Hlt | ->]; [left; apply exp_increasing; exact Hlt | right; reflexivity].
Qed.

Lemma exp_mult_INR (a : R) (n : nat) : exp (a * INR n) = exp a ^ n.
Proof.
  induction n as [| n IH].
  - cbn. rewrite Rmult_0_r. apply exp_0.
  - rewrite S_INR, Rmult_plus_distr_l, Rmult_1_r, exp_plus, IH.
    cbn [pow]. ring.
Qed.

(** exp (- 3.6) is below 0.028. *)
Lemma exp_m36_bound : exp (- (36 / 10)) <= 28 / 1000.
Proof.
  assert (Hlow : 3572 / 100 <= exp (36 / 10)).
  { replace (36 / 10) with (1 / 100 * INR 360)
      by (rewrite INR_IZR_INZ; cbn [Z.of_nat Pos.of_succ_nat Pos.succ]; lra).
    rewrite exp_mult_INR.
    apply Rle_trans with ((101 / 100) ^ 360).
    - rewrite frac_pow.
      apply frac_le; vm_compute; try reflexivity; discriminate.
    - apply pow_incr. pose proof (exp_ineq1_le (1 / 100)). lra. }
  rewrite exp_Ropp.
  apply Rle_trans with (/ (3572 / 100)); [| lra].
  apply Rinv_le_contravar; lra.
Qed.

(** With every blend factor in [0, 1], the contraction is at most
    exp (- speed * 60 * elapsed time). *)
Lemma contraction_bound (data : Needle.t) (frames : list Frame) :
  Forall (fun f => 0 <= Needle.speed data * 60 * delta f <= 1) frames ->
  0 <= contraction data frames
       <= exp (- (Needle.speed data * 60 * elapsed frames)).
Proof.
  induction 1 as [| f frames [Ha0 Ha1] _ IH].
  - cbn. rewrite Rmult_0_r, Ropp_0, exp_0. lra.
  - cbn [contraction elapsed fold_right].
    fold (contraction data frames). fold (elapsed frames).
    destruct IH as [IH0 IH1].
    set (a := Needle.speed data * 60 * delta f) in *.
    replace (- (Needle.speed data * 60 * (delta f + elapsed frames)))
      with (- a + - (Needle.speed data * 60 * elapsed frames))
      by (unfold a; ring).
    rewrite exp_plus.
    pose proof (exp_ineq1_le (- a)) as Hexp.
    pose proof (exp_pos (- (Needle.speed data * 60 * elapsed frames))) as Hpos.
    split.
    + apply Rmult_le_pos; lra.
    + apply Rmult_le_compat; lra.
Qed.

(** From any state of the buffers, arranged frames that span 3 seconds, none
    longer than 5/18 s, bring a needle of speed s in [0.02, 0.06] to
    [contraction] times its distance from its arranged position, at most
    0.028 times that distance, and leave its slot, if it read back a unit
    orientation before, reading back the scale 1. *)
Lemma arranged_frames_contract (needles : list Needle.t)
    (ornaments : list Ornament.t) (s : Scene) (frames : list Frame)
    (nmesh : InstancedMesh.t) (i : nat) (nd : Needle.t) :
  needlesMesh s = Some nmesh ->
  nth_error needles i = Some nd ->
  (i < length (InstancedMesh.instanceMatrix nmesh))%nat ->
  Quaternion.length (quaternionOf (InstancedMesh.getMatrixAt i nmesh)) = 1 ->
  0.02 <= Needle.speed nd <= 0.06 ->
  elapsed frames = 3 ->
  Forall (fun f => treeState f = TREE_SHAPE /\ 0 <= delta f <= 5 / 18)
         frames ->
  let d0 := Vector3.distanceTo (positionOf (InstancedMesh.getMatrixAt i nmesh))
                               (Needle.treePos nd) in
  exists nmesh',
    needlesMesh (runFrames needles ornaments frames s) = Some nmesh'
    /\ Vector3.distanceTo (positionOf (InstancedMesh.getMatrixAt i nmesh'))
                          (Needle.treePos nd)
       = contraction nd frames * d0
    /\ Vector3.distanceTo (positionOf (InstancedMesh.getMatrixAt i nmesh'))
                          (Needle.treePos nd)
       <= 0.028 * d0
    /\ scaleOf (InstancedMesh.getMatrixAt i nmesh') = Vector3.setScalar 1.
Proof.
  intros Hm Hd Hi Hunit Hspeed Hel Hall d0.
  destruct (runFrames_needle_position needles ornaments i nd frames Hd
              s nmesh Hm Hi) as (nmesh' & E & _ & Hpos).
  assert (Hne : frames <> []).
  { intros ->. cbn in Hel. lra. }
  destruct (exists_last Hne) as (front & f & Hsplit).
  assert (Hmodes : Forall (fun f => treeState f = TREE_SHAPE) frames).
  { apply Forall_impl with (2 := Hall). intros f0 [H _]. exact H. }
  assert (Hfactors : Forall (fun f => 0 <= Needle.speed nd * 60 * delta f <= 1)
                            frames).
  { apply Forall_impl with (2 := Hall). intros f0 [_ [H0 H1]]. split; nra. }
  assert (Hf : treeState f = TREE_SHAPE).
  { rewrite Forall_forall in Hmodes.
    apply (Hmodes f). rewrite Hsplit. apply in_or_app. right. left.
    reflexivity. }
  destruct (runFrames_needle_scale needles ornaments i nd front f s nmesh
              Hd Hm Hi Hunit) as (nmesh2 & E2 & Hscale).
  rewrite <- Hsplit, E in E2. apply Some_inj in E2. subst nmesh2.
  rewrite Hf in Hscale.
  destruct (needleTrack_arranged nd i frames Hmodes
              (positionOf (InstancedMesh.getMatrixAt i nmesh)))
    as (Hx & Hy & Hz).
  rewrite <- Hpos in Hx, Hy, Hz.
  destruct (contraction_bound nd frames Hfactors) as [Hc0 Hc1].
  assert (Hdist : Vector3.distanceTo
                    (positionOf (InstancedMesh.getMatrixAt i nmesh'))
                    (Needle.treePos nd)
                  = contraction nd frames * d0)
    by (apply distanceTo_scaled; assumption).
  exists nmesh'.
  split; [exact E |]. split; [exact Hdist |]. split; [| exact Hscale].
  rewrite Hdist.
  assert (Hexp : exp (- (Needle.speed nd * 60 * elapsed frames))
                 <= exp (- (36 / 10)))
    by (apply exp_le; rewrite Hel; lra).
  pose proof exp_m36_bound as Hnum.
  pose proof (distanceTo_nonneg
                (positionOf (InstancedMesh.getMatrixAt i nmesh))
                (Needle.treePos nd)) as Hd0.
  fold d0 in Hd0.
  apply Rmult_le_compat_r; [exact Hd0 | lra].
Qed.

(** Every needle's speed lies in [0.02, 0.06). *)
Lemma makeNeedle_speed_range (g : RNG) :
  (forall k, 0 <= draws g k < 1) ->
  0.02 <= Needle.speed (fst (makeNeedle g)) < 0.06.
Proof.
  intros Hdraws. rewrite makeNeedle_speed.
  pose proof (Hdraws (12 + cursor g)%nat) as [H0 H1]. split; lra.
Qed.

Lemma steady_elapsed (frames : list Frame) :
  Forall (fun f => delta f = / 60) frames ->
  elapsed frames = INR (length frames) / 60.
Proof.
  induction 1 as [| f frames Hd _ IH].
  - cbn. lra.
  - cbn [elapsed fold_right length]. fold (elapsed frames).
    rewrite IH, Hd, S_INR. lra.
Qed.

Lemma steadyFrames_elapsed_180 (mode : TreeMorphState) (t0 : R) :
  elapsed (steadyFrames mode 180 t0) = 3.
Proof.
  rewrite steady_elapsed.
  - rewrite steadyFrames_length, INR_IZR_INZ.
    cbn [Z.of_nat Pos.of_succ_nat Pos.succ]. lra.
  - apply Forall_impl with (2 := steadyFrames_Forall mode 180 t0).
    intros f [_ H]. exact H.
Qed.

(** C3, amended.  After the first render and any sequence of frames (such as
    5 seconds in mode SCATTERED), frames in mode TREE_SHAPE that span 3
    seconds, none longer than 5/18 s (so that no blend factor exceeds 1),
    bring every needle, of speed s in [0.02, 0.06), to the distance from its
    arranged position that it had at the flip times the product of the
    factors 1 - s * 60 * dt of those frames, hence to at most 0.028 times
    that distance; and its scale, as its slot reads back, is then exactly
    the arranged constant 1, with no blending. *)
Theorem arranged_three_seconds (g : RNG) (history frames : list Frame)
    (i : nat) :
  (forall k, 0 <= draws g k < 1) ->
  (i < PARTICLE_COUNT)%nat ->
  elapsed frames = 3 ->
  Forall (fun f => treeState f = TREE_SHAPE /\ 0 <= delta f <= 5 / 18)
         frames ->
  exists needles ornaments s0 nd nmesh nmesh',
    mount g = Done (needles, ornaments, s0)
    /\ nth_error needles i = Some nd
    /\ 0.02 <= Needle.speed nd < 0.06
    /\ needlesMesh (runFrames needles ornaments history s0) = Some nmesh
    /\ needlesMesh (runFrames needles ornaments (history ++ frames) s0)
       = Some nmesh'
    /\ Vector3.distanceTo (positionOf (InstancedMesh.getMatrixAt i nmesh'))
                          (Needle.treePos nd)
       = contraction nd frames
         * Vector3.distanceTo (positionOf (InstancedMesh.getMatrixAt i nmesh))
                              (Needle.treePos nd)
    /\ Vector3.distanceTo (positionOf (InstancedMesh.getMatrixAt i nmesh'))
                          (Needle.treePos nd)
       <= 0.028
          * Vector3.distanceTo (positionOf (InstancedMesh.getMatrixAt i nmesh))
                               (Needle.treePos nd)
    /\ scaleOf (InstancedMesh.getMatrixAt i nmesh') = Vector3.setScalar 1.
Proof.
  intros Hdraws Hi Hel Hall.
  destruct (mount_spec g Hdraws) as (s0 & Hmount & HN & _).
  destruct (needlesOf_spec g) as [_ Hnth].
  specialize (Hnth i Hi).
  set (nd := fst (makeNeedle (advance g (i * 13)))) in *.
  assert (Hspeed : 0.02 <= Needle.speed nd < 0.06).
  { apply makeNeedle_speed_range. intros k. apply Hdraws. }
  assert (Hi0 : (i < length (InstancedMesh.instanceMatrix
                               (newInstancedMesh PARTICLE_COUNT)))%nat)
    by (rewrite instanceMatrix_new, repeat_length; exact Hi).
  assert (Hi1 : (i < length (InstancedMesh.instanceMatrix
                   (stepMesh
                      (setupNeedleMatrix Vector3.zero Quaternion.identity)
                      (needlesOf g)
                      (newInstancedMesh PARTICLE_COUNT))))%nat)
    by (rewrite stepMesh_length; exact Hi0).
  assert (Hunit0 : Quaternion.length
                     (quaternionOf
                        (InstancedMesh.getMatrixAt i
                           (stepMesh
                              (setupNeedleMatrix Vector3.zero
                                                 Quaternion.identity)
                              (needlesOf g)
                              (newInstancedMesh PARTICLE_COUNT)))) = 1).
  { rewrite (stepMesh_slot
               (setupNeedleMatrix Vector3.zero Quaternion.identity)
               (needlesOf g) (newInstancedMesh PARTICLE_COUNT) i nd
               Hnth Hi0).
    apply setup_needle_oriented. }
  destruct (runFrames_needle_oriented (needlesOf g) (ornamentsOf g) i nd
              history Hnth s0 _ HN Hi1 Hunit0)
    as (nmesh & E & Hlen1 & Hunit).
  assert (Hi2 : (i < length (InstancedMesh.instanceMatrix nmesh))%nat)
    by (rewrite Hlen1; exact Hi1).
  assert (Hspeed' : 0.02 <= Needle.speed nd <= 0.06) by lra.
  destruct (arranged_frames_contract (needlesOf g) (ornamentsOf g)
              (runFrames (needlesOf g) (ornamentsOf g) history s0)
              frames nmesh i nd E Hnth Hi2 Hunit Hspeed' Hel Hall)
    as (nmesh' & E' & Hdist & Hbound & Hscale).
  exists (needlesOf g), (ornamentsOf g), s0, nd, nmesh, nmesh'.
  rewrite runFrames_app.
  repeat split; try assumption; apply Hspeed.
Qed.

(** Witness of [arranged_three_seconds]: every draw 0, the first needle,
    5 seconds scattered then 3 seconds arranged at 60 frames per second. *)
Lemma arranged_three_seconds_witness :
  exists needles ornaments s0 nd nmesh nmesh',
    mount zeroStream = Done (needles, ornaments, s0)
    /\ nth_error needles 0 = Some nd
    /\ 0.02 <= Needle.speed nd < 0.06
    /\ needlesMesh (runFrames needles ornaments
                              (steadyFrames SCATTERED 300 0) s0) = Some nmesh
    /\ needlesMesh (runFrames needles ornaments
                              (steadyFrames SCATTERED 300 0
                               ++ steadyFrames TREE_SHAPE 180 5) s0)
       = Some nmesh'
    /\ Vector3.distanceTo (positionOf (InstancedMesh.getMatrixAt 0 nmesh'))
                          (Needle.treePos nd)
       = contraction nd (steadyFrames TREE_SHAPE 180 5)
         * Vector3.distanceTo (positionOf (InstancedMesh.getMatrixAt 0 nmesh))
                              (Needle.treePos nd)
    /\ Vector3.distanceTo (positionOf (InstancedMesh.getMatrixAt 0 nmesh'))
                          (Needle.treePos nd)
       <= 0.028
          * Vector3.distanceTo (positionOf (InstancedMesh.getMatrixAt 0 nmesh))
                               (Needle.treePos nd)
    /\ scaleOf (InstancedMesh.getMatrixAt 0 nmesh') = Vector3.setScalar 1.
Proof.
  apply (arranged_three_seconds zeroStream (steadyFrames SCATTERED 300 0)
           (steadyFrames TREE_SHAPE 180 5) 0).
  - intros k. simpl. lra.
  - unfold PARTICLE_COUNT. lia.
  - apply steadyFrames_elapsed_180.
  - apply Forall_impl with (2 := steadyFrames_Forall TREE_SHAPE 180 5).
    intros f [Hm Hd]. rewrite Hd. split; [exact Hm | lra].
Defined.

Lemma highStream_draws : forall k, 0 <= draws highStream k < 1.
Proof.
  intros k. unfold highStream. cbn [draws].
  destruct (Nat.eqb k 3); lra.
Qed.

Lemma highStream_needle0 :
  Needle.speed (fst (makeNeedle highStream)) = 0.02
  /\ Vector3.y (Needle.scatterPos (fst (makeNeedle highStream))) = 0
  /\ Vector3.y (Needle.treePos (fst (makeNeedle highStream))) = 6.
Proof.
  split; [| split].
  - rewrite makeNeedle_speed. unfold highStream.
    cbn [draws cursor Nat.add Nat.eqb]. lra.
  - rewrite makeNeedle_scatterPos, randomInSphere_value. cbv zeta.
    unfold highStream. cbn [Vector3.y draws cursor Nat.eqb].
    rewrite cbrt_0. ring.
  - rewrite makeNeedle_treePos, randomInCone_value. cbv zeta.
    unfold highStream, advance, TREE_HEIGHT.
    cbn [Vector3.y draws cursor Nat.add Nat.eqb]. lra.
Qed.

(** C3, as stated, fails.  Draws: all 0 except the height draw of the first
    needle's cone sample, 3/4; so the first needle has speed 0.02, scattered
    position at height 0 and arranged position at height 6.  After 300
    scattered frames (5 s at 60 frames per second) and 180 arranged frames
    (3 s) that needle is still more than 0.05 away from its arranged
    position. *)
Lemma three_seconds_counterexample :
  exists needles ornaments s0 nmesh nd,
    mount highStream = Done (needles, ornaments, s0)
    /\ nth_error needles 0 = Some nd
    /\ 0.02 <= Needle.speed nd
    /\ needlesMesh
         (runFrames needles ornaments
            (steadyFrames SCATTERED 300 0 ++ steadyFrames TREE_SHAPE 180 5) s0)
       = Some nmesh
    /\ 0.05 < Vector3.distanceTo
                (positionOf (InstancedMesh.getMatrixAt 0 nmesh))
                (Needle.treePos nd).
Proof.
  destruct (mount_spec highStream highStream_draws) as (s0 & Hmount & HN & _).
  destruct (needlesOf_spec highStream) as [_ Hnth].
  assert (H0 : (0 < PARTICLE_COUNT)%nat) by (unfold PARTICLE_COUNT; lia).
  specialize (Hnth 0%nat H0).
  change (advance highStream (0 * 13)) with highStream in Hnth.
  destruct highStream_needle0 as (Hspeed & Hscat & Htree).
  set (nd := fst (makeNeedle highStream)) in *.
  set (mesh0 := stepMesh (setupNeedleMatrix Vector3.zero Quaternion.identity)
                         (needlesOf highStream)
                         (newInstancedMesh PARTICLE_COUNT)) in *.
  assert (Hi0 : (0 < length (InstancedMesh.instanceMatrix
                               (newInstancedMesh PARTICLE_COUNT)))%nat)
    by (rewrite instanceMatrix_new, repeat_length; exact H0).
  assert (Hi1 : (0 < length (InstancedMesh.instanceMatrix mesh0))%nat)
    by (unfold mesh0; rewrite stepMesh_length; exact Hi0).
  assert (Hp0 : positionOf (InstancedMesh.getMatrixAt 0 mesh0) = Vector3.zero).
  { unfold mesh0.
    rewrite (stepMesh_slot _ _ _ 0%nat nd Hnth Hi0).
    unfold setupNeedleMatrix. apply positionOf_compose. }
  destruct (runFrames_needle_position (needlesOf highStream)
              (ornamentsOf highStream) 0 nd
              (steadyFrames SCATTERED 300 0 ++ steadyFrames TREE_SHAPE 180 5)
              Hnth s0 mesh0 HN Hi1) as (nmesh & E & _ & Hpos).
  exists (needlesOf highStream), (ornamentsOf highStream), s0, nmesh, nd.
  split; [exact Hmount |]. split; [exact Hnth |].
  split; [rewrite Hspeed; lra |]. split; [exact E |].
  rewrite Hpos, Hp0, needleTrack_app.
  set (p1 := needleTrack nd 0 (steadyFrames SCATTERED 300 0) Vector3.zero).
  assert (Hp1 : -0.5 <= Vector3.y p1 <= 0.5).
  { apply (needleTrack_scattered_y nd 0 _ Hspeed Hscat
             (steadyFrames_Forall SCATTERED 300 0)).
    cbn [Vector3.y Vector3.zero]. lra. }
  destruct (needleTrack_arranged_steady nd 0 _
              (steadyFrames_Forall TREE_SHAPE 180 5) p1) as (_ & Hy & _).
  rewrite steadyFrames_length, Hspeed, Htree in Hy.
  replace (1 - 0.02) with (49 / 50) in Hy by lra.
  pose proof pow_49_50_180 as [Hlow _].
  apply distanceTo_y_lower; [lra |].
  rewrite Htree. nra.
Qed.

(** ** Ornaments: the blend factor and the orientation *)

Lemma compose_identity (p : Vector3.t) (sx sy sz : R) :
  Matrix4.compose p Quaternion.identity (Vector3.mk sx sy sz)
  = Matrix4.mk sx 0 0 0  0 sy 0 0  0 0 sz 0
               (Vector3.x p) (Vector3.y p) (Vector3.z p) 1.
Proof.
  unfold Matrix4.compose, Quaternion.identity.
  cbn [Quaternion.x Quaternion.y Quaternion.z Quaternion.w
       Vector3.x Vector3.y Vector3.z].
  repeat rewrite ?Rmult_0_l, ?Rplus_0_l, ?Rmult_0_r, ?Rplus_0_r,
    ?Rminus_0_r, ?Rmult_1_l.
  reflexivity.
Qed.

Lemma quaternionOf_diag (sx sy sz a b c : R) :
  0 < sx -> 0 < sy -> 0 < sz ->
  quaternionOf (Matrix4.mk sx 0 0 0  0 sy 0 0  0 0 sz 0  a b c 1)
  = Quaternion.identity.
Proof.
  intros Hx Hy Hz.
  unfold quaternionOf, Matrix4.decompose, Matrix4.determinant, Vector3.length.
  project_fields.
  replace (sx * sx + 0 * 0 + 0 * 0) with (sx * sx) by ring.
  replace (0 * 0 + sy * sy + 0 * 0) with (sy * sy) by ring.
  replace (0 * 0 + 0 * 0 + sz * sz) with (sz * sz) by ring.
  rewrite !sqrt_sq_nonneg by lra.
  match goal with
  | |- context [JS.ltb ?d 0] => replace d with (sx * sy * sz) by ring
  end.
  assert (Hdet : 0 < sx * sy * sz)
    by (repeat apply Rmult_lt_0_compat; assumption).
  unfold JS.ltb at 1 2 3.
  destruct (Rlt_dec (sx * sy * sz) 0) as [Hneg | _]; [lra |].
  replace (sx * (1 / sx)) with 1 by (field; lra).
  replace (sy * (1 / sy)) with 1 by (field; lra).
  replace (sz * (1 / sz)) with 1 by (field; lra).
  rewrite !Rmult_0_l.
  unfold Matrix4.toQuaternion.
  project_fields.
  unfold JS.ltb at 1.
  destruct (Rlt_dec 0 (1 + 1 + 1)) as [_ | Hn]; [| lra].
  replace (1 + 1 + 1 + 1) with (2 * 2) by ring.
  rewrite sqrt_sq_nonneg by lra.
  unfold Quaternion.identity. f_equal; lra.
Qed.

Lemma makeOrnament_speed (g : RNG) :
  Ornament.speed (fst (makeOrnament g)) = 0.015 + draws g (7 + cursor g) * 0.03.
Proof. reflexivity. Qed.

Lemma makeOrnament_treePos (g : RNG) :
  Ornament.treePos (fst (makeOrnament g))
  = fst (randomOnConeSurface TREE_HEIGHT TREE_RADIUS_BASE (advance g 3)).
Proof. reflexivity. Qed.

Lemma randomOnConeSurface_value (height radiusBase : R) (g : RNG) :
  fst (randomOnConeSurface height radiusBase g) =
  let u := draws g (cursor g) in
  let v := draws g (S (cursor g)) in
  let y := u * height in
  let rAtHeight := (1 - y / height) * radiusBase in
  let theta := v * PI * 2 in
  let r := rAtHeight + 0.1 in
  Vector3.mk (r * cos theta) y (r * sin theta).
Proof. reflexivity. Qed.

(** The ornaments drawn from the all-zero stream. *)
Lemma zeroStream_ornament (c : nat) :
  let od := fst (makeOrnament (advance zeroStream c)) in
  Ornament.speed od = 0.015
  /\ Ornament.scale od = 0.15
  /\ Vector3.x (Ornament.treePos od) = 3.6.
Proof.
  cbv zeta. split; [| split].
  - rewrite makeOrnament_speed. unfold zeroStream, advance. cbn [draws]. lra.
  - rewrite makeOrnament_scale. unfold zeroStream, advance. cbn [draws]. lra.
  - rewrite makeOrnament_treePos, randomOnConeSurface_value. cbv zeta.
    unfold zeroStream, advance, TREE_HEIGHT, TREE_RADIUS_BASE.
    cbn [Vector3.x draws].
    replace (0 * PI * 2) with 0 by ring. rewrite cos_0. lra.
Qed.

Lemma zeroStream_draws : forall k, 0 <= draws zeroStream k < 1.
Proof. intros k. unfold zeroStream. cbn [draws]. lra. Qed.

(** The first ornament's slot after the first render from the all-zero
    stream. *)
Lemma zeroStream_mount :
  exists s0 omesh od,
    mount zeroStream = Done (needlesOf zeroStream, ornamentsOf zeroStream, s0)
    /\ nth_error (ornamentsOf zeroStream) 0 = Some od
    /\ ornamentsMesh s0 = Some omesh
    /\ (0 < length (InstancedMesh.instanceMatrix omesh))%nat
    /\ InstancedMesh.getMatrixAt 0 omesh
       = Matrix4.compose Vector3.zero Quaternion.identity
                         (Vector3.mk 0.15 0.15 0.15)
    /\ Ornament.speed od = 0.015
    /\ Vector3.x (Ornament.treePos od) = 3.6.
Proof.
  destruct (mount_spec zeroStream zeroStream_draws) as (s0 & Hmount & _ & HO).
  destruct (ornamentsOf_spec zeroStream) as [_ Hnth].
  assert (H0 : (0 < ORNAMENT_COUNT)%nat) by (unfold ORNAMENT_COUNT; lia).
  specialize (Hnth 0%nat H0).
  destruct (zeroStream_ornament (PARTICLE_COUNT * 13 + 0 * 8))
    as (Hspeed & Hscale & Htree).
  set (od := fst (makeOrnament
                    (advance zeroStream (PARTICLE_COUNT * 13 + 0 * 8)))) in *.
  exists s0. eexists. exists od.
  split; [exact Hmount |]. split; [exact Hnth |]. split; [exact HO |].
  cbn [InstancedMesh.instanceMatrix]. unfold InstancedMesh.getMatrixAt.
  cbn [InstancedMesh.instanceMatrix].
  split; [rewrite applySteps_length, repeat_length; exact H0 |].
  split; [| split; assumption].
  rewrite (applySteps_nth Matrix4.zero
             (setupOrnamentMatrix Vector3.zero Quaternion.identity)
             (ornamentsOf zeroStream) 0 0 _ od (Nat.le_0_l 0));
    [| exact Hnth | rewrite repeat_length; exact H0].
  unfold setupOrnamentMatrix, Vector3.setScalar. rewrite Hscale. reflexivity.
Qed.

(** C1, as stated, fails for ornaments.  After the first render from the
    all-zero stream, one frame in mode TREE_SHAPE at t = 0 with dt = 1 does not
    move the first ornament by the factor speed * 60 * dt. *)
Lemma ornament_factor_counterexample :
  exists needles ornaments s0 omesh omesh' od,
    mount zeroStream = Done (needles, ornaments, s0)
    /\ nth_error ornaments 0 = Some od
    /\ ornamentsMesh s0 = Some omesh
    /\ ornamentsMesh (useFrame needles ornaments TREE_SHAPE 0 1 s0)
       = Some omesh'
    /\ positionOf (InstancedMesh.getMatrixAt 0 omesh')
       <> Vector3.lerp (positionOf (InstancedMesh.getMatrixAt 0 omesh))
                       (ornamentTargetPos true 0 od 0)
                       (Ornament.speed od * 60 * 1).
Proof.
  destruct zeroStream_mount
    as (s0 & omesh & od & Hmount & Hnth & HO & Hlen & Hslot & Hspeed & Htree).
  destruct (useFrame_ornament_slot (needlesOf zeroStream)
              (ornamentsOf zeroStream) TREE_SHAPE 0 1 s0 omesh 0 od
              HO Hnth Hlen) as (omesh' & E & _ & _ & Hstep).
  exists (needlesOf zeroStream), (ornamentsOf zeroStream), s0, omesh, omesh', od.
  split; [exact Hmount |]. split; [exact Hnth |]. split; [exact HO |].
  split; [exact E |].
  rewrite Hstep. unfold ornamentStep. rewrite positionOf_compose.
  cbn [TreeMorphState_eqb].
  intros Heq. apply (f_equal Vector3.x) in Heq.
  unfold Vector3.lerp, ornamentTargetPos in Heq.
  cbn [Vector3.x] in Heq. rewrite Hslot, positionOf_compose in Heq.
  cbn [Vector3.x Vector3.zero] in Heq. rewrite Hspeed, Htree in Heq. lra.
Qed.

Lemma slerp_zero (q target : Quaternion.t) (a : R) :
  Quaternion.slerp q target (a * 60 * 0) = q.
Proof.
  unfold Quaternion.slerp, JS.eqb.
  destruct (Req_dec_T (a * 60 * 0) 0) as [_ | Hne]; [reflexivity | lra].
Qed.

(** C2, as stated, fails for ornaments.  After the first render from the
    all-zero stream, one frame at t = 2 with dt = 0 (blend factor 0, so a
    spherical interpolation toward any target would leave the orientation as
    it was) turns the first ornament by 1 radian about the vertical axis. *)
Lemma ornament_orientation_counterexample :
  exists needles ornaments s0 omesh omesh' od,
    mount zeroStream = Done (needles, ornaments, s0)
    /\ nth_error ornaments 0 = Some od
    /\ ornamentsMesh s0 = Some omesh
    /\ ornamentsMesh (useFrame needles ornaments TREE_SHAPE 2 0 s0)
       = Some omesh'
    /\ forall target,
         InstancedMesh.getMatrixAt 0 omesh'
         <> Matrix4.compose
              (positionOf (InstancedMesh.getMatrixAt 0 omesh'))
              (Quaternion.slerp
                 (quaternionOf (InstancedMesh.getMatrixAt 0 omesh)) target
                 (Ornament.speed od * 60 * 0))
              (scaleOf (InstancedMesh.getMatrixAt 0 omesh)).
Proof.
  destruct zeroStream_mount
    as (s0 & omesh & od & Hmount & Hnth & HO & Hlen & Hslot & Hspeed & Htree).
  destruct (useFrame_ornament_slot (needlesOf zeroStream)
              (ornamentsOf zeroStream) TREE_SHAPE 2 0 s0 omesh 0 od
              HO Hnth Hlen) as (omesh' & E & _ & _ & Hstep).
  exists (needlesOf zeroStream), (ornamentsOf zeroStream), s0, omesh, omesh', od.
  split; [exact Hmount |]. split; [exact Hnth |]. split; [exact HO |].
  split; [exact E |].
  assert (Hq : quaternionOf (InstancedMesh.getMatrixAt 0 omesh)
               = Quaternion.identity)
    by (rewrite Hslot, compose_identity; apply quaternionOf_diag; lra).
  assert (Hs : scaleOf (InstancedMesh.getMatrixAt 0 omesh)
               = Vector3.mk 0.15 0.15 0.15).
  { rewrite Hslot. unfold Quaternion.identity.
    apply scaleOf_compose_vertical; cbn [Vector3.x Vector3.y Vector3.z]; lra. }
  intros target. rewrite slerp_zero, Hq.
  rewrite Hstep at 1. unfold ornamentStep at 1.
  rewrite Hs, setFromEuler_vertical.
  replace (2 * 0.5 + INR 0) with 1 by (cbn [INR]; lra).
  intros Heq. apply (f_equal Matrix4.te2) in Heq.
  unfold Matrix4.compose, Quaternion.identity in Heq.
  cbn [Matrix4.te2 Quaternion.x Quaternion.y Quaternion.z Quaternion.w
       Vector3.x] in Heq.
  pose proof PI2_1 as Hpi.
  assert (Hsin : 0 < sin (1 / 2)) by (apply sin_gt_0; lra).
  assert (Hcos : 0 < cos (1 / 2)) by (apply cos_gt_0; lra).
  assert (Hsc : 0 < cos (1 / 2) * sin (1 / 2))
    by (apply Rmult_lt_0_compat; assumption).
  lra.
Qed.


(** * Further properties of the component *)

(** ** The surface sampler and the datasets *)

Lemma radial_polar (r theta : R) :
  0 <= r ->
  sqrt (r * cos theta * (r * cos theta) + r * sin theta * (r * sin theta)) = r.
Proof.
  intros Hr.
  replace (r * cos theta * (r * cos theta) + r * sin theta * (r * sin theta))
    with (r * r * (sin theta * sin theta + cos theta * cos theta)) by ring.
  rewrite sin2_cos2', Rmult_1_r. apply sqrt_sq_nonneg. exact Hr.
Qed.

Lemma unit_fraction (u height : R) :
  0 < height -> 0 <= u < 1 -> 0 <= u * height / height < 1.
Proof.
  intros Hh Hu. unfold Rdiv. rewrite Rmult_assoc, Rinv_r by lra. lra.
Qed.

Lemma surface_sample_geometry (height radiusBase : R) (g : RNG) :
  0 < height ->
  0 < radiusBase ->
  (forall k, 0 <= draws g k < 1) ->
  let p := fst (randomOnConeSurface height radiusBase g) in
  0 <= Vector3.y p < height
  /\ radial p = radiusAt height radiusBase p + 0.1.
Proof.
  intros Hh Hr Hdraws p.
  assert (Hu : 0 <= draws g (cursor g) < 1) by apply Hdraws.
  assert (Hy : Vector3.y p = draws g (cursor g) * height) by reflexivity.
  pose proof (unit_fraction _ _ Hh Hu) as Hfrac.
  split; [rewrite Hy; split; nra |].
  unfold radial, radiusAt. rewrite Hy. unfold p.
  rewrite randomOnConeSurface_value. cbv zeta.
  cbn [Vector3.x Vector3.y Vector3.z].
  rewrite radial_polar by nra. ring.
Qed.

(** X1. For height > 0, base radius > 0 and draws in [0, 1), the point
    returned by [randomOnConeSurface] has 0 <= y < height and lies at distance
    exactly 0.1 outside the cone's surface: its distance from the vertical
    axis is the cross-sectional radius at its height plus 0.1, so it is never
    inside the cone. *)
Theorem randomOnConeSurface_spec (height radiusBase : R) (g : RNG) :
  0 < height ->
  0 < radiusBase ->
  (forall k, 0 <= draws g k < 1) ->
  let p := fst (randomOnConeSurface height radiusBase g) in
  0 <= Vector3.y p < height
  /\ radial p = radiusAt height radiusBase p + 0.1
  /\ ~ inCone height radiusBase p.
Proof.
  intros Hh Hr Hdraws p.
  destruct (surface_sample_geometry height radiusBase g Hh Hr Hdraws)
    as [Hy Hrad].
  fold p in Hy, Hrad.
  split; [exact Hy |]. split; [exact Hrad |].
  intros [_ Hin]. rewrite Hrad in Hin. lra.
Qed.

(** Witness of [randomOnConeSurface_spec]: the configured cone, every draw
    0. *)
Lemma randomOnConeSurface_spec_witness :
  radial (fst (randomOnConeSurface 8 3.5 zeroStream))
  = radiusAt 8 3.5 (fst (randomOnConeSurface 8 3.5 zeroStream)) + 0.1.
Proof.
  apply (randomOnConeSurface_spec 8 3.5 zeroStream).
  - lra.
  - lra.
  - intros k. simpl. lra.
Defined.

Lemma sphere_sample_inside (radius : R) (g : RNG) :
  0 < radius ->
  (forall k, 0 <= draws g k < 1) ->
  Vector3.length (fst (randomInSphere radius g)) < radius.
Proof.
  intros Hrad Hdraws.
  assert (Hw : 0 <= draws g (S (S (cursor g))) < 1) by apply Hdraws.
  pose proof (cbrt_nonneg _ (proj1 Hw)) as Hc0.
  pose proof (cbrt_lt_1 _ Hw) as Hc1.
  assert (Hr0 : 0 <= JS.cbrt (draws g (S (S (cursor g)))) * radius)
    by (apply Rmult_le_pos; lra).
  rewrite randomInSphere_value. cbv zeta. unfold Vector3.length.
  cbn [Vector3.x Vector3.y Vector3.z].
  rewrite sphere_norm, sqrt_sq_nonneg by exact Hr0. nra.
Qed.

Lemma cone_sample_inside (height radiusBase : R) (g : RNG) :
  0 < height ->
  0 < radiusBase ->
  (forall k, 0 <= draws g k < 1) ->
  inCone height radiusBase (fst (randomInCone height radiusBase g)).
Proof.
  intros Hh Hr Hdraws.
  assert (Hu : 0 <= draws g (cursor g) < 1) by apply Hdraws.
  pose proof (sqrt_lt_1_unit _ (Hdraws (S (S (cursor g))))) as Hw.
  pose proof (unit_fraction _ _ Hh Hu) as Hfrac.
  unfold inCone, radial, radiusAt.
  rewrite randomInCone_value. cbv zeta.
  cbn [Vector3.x Vector3.y Vector3.z].
  set (u := draws g (cursor g)) in *.
  set (rw := sqrt (draws g (S (S (cursor g))))) in *.
  set (f := u * height / height) in *.
  assert (Hrh : 0 <= (1 - f) * radiusBase) by (apply Rmult_le_pos; lra).
  split; [split; nra |].
  rewrite radial_polar by (apply Rmult_le_pos; lra).
  replace (radiusBase * (1 - f)) with ((1 - f) * radiusBase) by ring.
  nra.
Qed.

Lemma advance_draws (g : RNG) (c : nat) : draws (advance g c) = draws g.
Proof. reflexivity. Qed.

Lemma makeNeedle_rotations (g : RNG) :
  Needle.treeRot (fst (makeNeedle g))
  = Euler.mk ((draws g (6 + cursor g) - 0.5) * 0.5)
             (draws g (7 + cursor g) * PI * 2)
             ((draws g (8 + cursor g) - 0.5) * 0.5)
  /\ Needle.scatterRot (fst (makeNeedle g))
     = Euler.mk (draws g (9 + cursor g) * PI)
                (draws g (10 + cursor g) * PI)
                (draws g (11 + cursor g) * PI).
Proof. split; reflexivity. Qed.

Lemma makeNeedle_wellFormed (g : RNG) :
  (forall k, 0 <= draws g k < 1) ->
  needleWellFormed (fst (makeNeedle g)).
Proof.
  intros Hdraws. unfold needleWellFormed.
  destruct (makeNeedle_rotations g) as [-> ->].
  cbn [Euler.x Euler.y Euler.z].
  pose proof PI_RGT_0 as Hpi.
  pose proof (Hdraws (6 + cursor g)%nat).
  pose proof (Hdraws (7 + cursor g)%nat).
  pose proof (Hdraws (8 + cursor g)%nat).
  pose proof (Hdraws (9 + cursor g)%nat).
  pose proof (Hdraws (10 + cursor g)%nat).
  pose proof (Hdraws (11 + cursor g)%nat).
  split.
  { rewrite makeNeedle_scatterPos. apply sphere_sample_inside;
      [unfold SCATTER_RADIUS; lra | exact Hdraws]. }
  split.
  { rewrite makeNeedle_treePos. apply cone_sample_inside;
      [unfold TREE_HEIGHT; lra | unfold TREE_RADIUS_BASE; lra |].
    intros k. rewrite advance_draws. apply Hdraws. }
  split; [apply makeNeedle_speed_range; exact Hdraws |].
  repeat split; nra.
Qed.

Lemma makeOrnament_scatterPos (g : RNG) :
  Ornament.scatterPos (fst (makeOrnament g))
  = fst (randomInSphere SCATTER_RADIUS g).
Proof. reflexivity. Qed.

Lemma makeOrnament_wellFormed (g : RNG) :
  (forall k, 0 <= draws g k < 1) ->
  ornamentWellFormed (fst (makeOrnament g)).
Proof.
  intros Hdraws. unfold ornamentWellFormed.
  assert (Hadv : forall k, 0 <= draws (advance g 3) k < 1)
    by (intros k; rewrite advance_draws; apply Hdraws).
  assert (Hh : 0 < TREE_HEIGHT) by (unfold TREE_HEIGHT; lra).
  assert (Hr : 0 < TREE_RADIUS_BASE) by (unfold TREE_RADIUS_BASE; lra).
  destruct (surface_sample_geometry TREE_HEIGHT TREE_RADIUS_BASE
              (advance g 3) Hh Hr Hadv) as [Hy Hrad].
  rewrite makeOrnament_treePos, makeOrnament_color, makeOrnament_scale,
    makeOrnament_speed, makeOrnament_scatterPos.
  pose proof (Hdraws (6 + cursor g)%nat).
  pose proof (Hdraws (7 + cursor g)%nat).
  split.
  { apply sphere_sample_inside; [unfold SCATTER_RADIUS; lra | exact Hdraws]. }
  split; [exact Hy |]. split; [exact Hrad |].
  split; [apply palette_index; apply Hdraws |].
  split; lra.
Qed.

Lemma Forall_of_nth {A : Type} (P : A -> Prop) (l : list A) (f : nat -> A)
    (n : nat) :
  length l = n ->
  (forall i, (i < n)%nat -> nth_error l i = Some (f i)) ->
  (forall i, (i < n)%nat -> P (f i)) ->
  Forall P l.
Proof.
  intros Hlen Hnth HP. apply Forall_forall. intros a Hin.
  destruct (In_nth_error _ _ Hin) as [i Hi].
  assert (Hlt : (i < n)%nat).
  { rewrite <- Hlen. apply nth_error_Some. rewrite Hi. discriminate. }
  assert (Ha : a = f i) by (apply Some_inj; rewrite <- Hi; apply Hnth; exact Hlt).
  rewrite Ha. apply HP. exact Hlt.
Qed.

(** X2. For draws in [0, 1), the needle dataset ([needlesOf], what
    [needleData] returns) has PARTICLE_COUNT entries and each
    of them has its scattered position strictly inside the sphere of radius
    SCATTER_RADIUS, its arranged position inside the tree cone, its speed in
    [0.02, 0.06), an arranged orientation tilted by less than 0.25 rad about
    x and z with a spin in [0, 2 pi), and scattered angles in [0, pi). *)
Theorem needleData_wellFormed (g : RNG) :
  (forall k, 0 <= draws g k < 1) ->
  length (needlesOf g) = PARTICLE_COUNT
  /\ Forall needleWellFormed (needlesOf g).
Proof.
  intros Hdraws.
  destruct (needlesOf_spec g) as [Hlen Hnth].
  split; [exact Hlen |].
  apply (Forall_of_nth needleWellFormed (needlesOf g)
           (fun i => fst (makeNeedle (advance g (i * 13)))) PARTICLE_COUNT
           Hlen Hnth).
  intros i _. apply makeNeedle_wellFormed.
  intros k. rewrite advance_draws. apply Hdraws.
Qed.

(** Witness of [needleData_wellFormed]: every draw 0. *)
Lemma needleData_wellFormed_witness :
  length (needlesOf zeroStream) = PARTICLE_COUNT
  /\ Forall needleWellFormed (needlesOf zeroStream).
Proof.
  apply (needleData_wellFormed zeroStream).
  intros k. simpl. lra.
Defined.

(** X3. For draws in [0, 1), the ornament dataset ([ornamentsOf], what
    [ornamentData] returns when run after [needleData], on the draws that
    follow) has ORNAMENT_COUNT entries and each of them has its
    scattered position strictly inside the sphere of radius SCATTER_RADIUS,
    its arranged position at a height in [0, TREE_HEIGHT) and exactly 0.1
    outside the tree cone's surface, a palette colour, its scale in
    [0.15, 0.4) and its speed in [0.015, 0.045). *)
Theorem ornamentData_wellFormed (g : RNG) :
  (forall k, 0 <= draws g k < 1) ->
  length (ornamentsOf g) = ORNAMENT_COUNT
  /\ Forall ornamentWellFormed (ornamentsOf g).
Proof.
  intros Hdraws.
  destruct (ornamentsOf_spec g) as [Hlen Hnth].
  split; [exact Hlen |].
  apply (Forall_of_nth ornamentWellFormed (ornamentsOf g)
           (fun j => fst (makeOrnament
                            (advance g (PARTICLE_COUNT * 13 + j * 8))))
           ORNAMENT_COUNT Hlen Hnth).
  intros j _. apply makeOrnament_wellFormed.
  intros k. rewrite advance_draws. apply Hdraws.
Qed.

(** Witness of [ornamentData_wellFormed]: every draw 0. *)
Lemma ornamentData_wellFormed_witness :
  length (ornamentsOf zeroStream) = ORNAMENT_COUNT
  /\ Forall ornamentWellFormed (ornamentsOf zeroStream).
Proof.
  apply (ornamentData_wellFormed zeroStream).
  intros k. simpl. lra.
Defined.

(** ** When the setup pass throws *)

Lemma setupOrnament_undefined (d : Ornament.t) (k : nat)
    (st : InstancedMesh.t * Object3D.t) :
  Ornament.color d = None -> setupOrnament d k st = Throws.
Proof.
  intros Hcol. destruct st as [mesh dm]. unfold setupOrnament.
  rewrite Hcol. reflexivity.
Qed.

Lemma setupOrnaments_outcome (ornaments : list Ornament.t) :
  forall (k : nat) (mesh : InstancedMesh.t) (dm : Object3D.t),
    (Exists (fun d => Ornament.color d = None) ornaments
     /\ forEachE_from setupOrnament ornaments k (mesh, dm) = Throws)
    \/ (Forall (fun d => Ornament.color d <> None) ornaments
        /\ exists mesh' dm',
            forEachE_from setupOrnament ornaments k (mesh, dm)
            = Done (mesh', dm')
            /\ (InstancedMesh.instanceColor mesh' = None
                <-> ornaments = []
                    /\ InstancedMesh.instanceColor mesh = None)).
Proof.
  induction ornaments as [| d rest IH]; intros k mesh dm.
  - right. split; [constructor |].
    exists mesh, dm. split; [reflexivity |]. tauto.
  - destruct (Ornament.color d) as [col |] eqn:Hcol.
    + destruct (setupOrnament_step d k mesh dm col Hcol)
        as (dm1 & Estep & _ & _).
      cbn [forEachE_from]. rewrite Estep.
      match goal with
      | |- context [forEachE_from _ rest (S k) (?m1, dm1)] =>
          destruct (IH (S k) m1 dm1)
            as [[Hex Hthrow] | (Hall & mesh' & dm' & E & Hiff)]
      end.
      * left. split; [apply Exists_cons_tl; exact Hex | exact Hthrow].
      * right. split.
        { constructor; [rewrite Hcol; discriminate | exact Hall]. }
        exists mesh', dm'. split; [exact E |].
        rewrite setColorAt_color in Hiff.
        split.
        { intros Hnone. apply Hiff in Hnone. destruct Hnone as [_ H].
          discriminate H. }
        { intros [H _]. discriminate H. }
    + left. split; [apply Exists_cons_hd; exact Hcol |].
      cbn [forEachE_from].
      rewrite (setupOrnament_undefined d k (mesh, dm) Hcol). reflexivity.
Qed.

Lemma Exists_Forall_neg_absurd {A : Type} (P : A -> Prop) (l : list A) :
  Exists P l -> Forall (fun a => ~ P a) l -> False.
Proof.
  induction 1 as [a l Ha | a l _ IH]; intros Hall;
    inversion Hall; subst; auto.
Qed.

(** X4. The setup pass throws exactly when the ornament mesh is attached and
    either some ornament's colour is undefined, or there is no ornament at all
    and the mesh has no colour buffer yet (flagging the missing buffer for
    upload dereferences null).  With the ornament ref null it never throws. *)
Theorem useLayoutEffect_throws_iff (needles : list Needle.t)
    (ornaments : list Ornament.t) (s : Scene) :
  useLayoutEffect needles ornaments s = Throws
  <-> exists om,
        ornamentsMesh s = Some om
        /\ (Exists (fun d => Ornament.color d = None) ornaments
            \/ (ornaments = [] /\ InstancedMesh.instanceColor om = None)).
Proof.
  unfold useLayoutEffect.
  destruct (ornamentsMesh s) as [om |] eqn:Hom.
  - destruct (setupOrnaments_outcome ornaments 0 om (dummy (scratch s)))
      as [[Hex Hthrow] | (Hall & mesh' & dm' & E & Hiff)].
    + rewrite Hthrow. split; [| reflexivity].
      intros _. exists om. split; [reflexivity | left; exact Hex].
    + rewrite E.
      destruct (InstancedMesh.instanceColor mesh') as [buf |] eqn:Hbuf.
      * cbn [needlesMesh scratch dummy].
        split.
        { destruct (needlesMesh s) as [nm |]; [| discriminate].
          destruct (JS.forEach setupNeedle needles (nm, dm')). discriminate. }
        { intros (om' & Heq & [Hex | Hnil]).
          - exfalso. exact (Exists_Forall_neg_absurd _ _ Hex Hall).
          - apply Some_inj in Heq. subst om'.
            apply Hiff in Hnil. discriminate Hnil. }
      * split; [| reflexivity].
        intros _. exists om. split; [reflexivity |].
        right. apply Hiff. reflexivity.
  - split.
    + destruct (needlesMesh s) as [nm |]; [| discriminate].
      destruct (JS.forEach setupNeedle needles (nm, dummy (scratch s))).
      discriminate.
    + intros (om & Heq & _). discriminate Heq.
Qed.

(** ** What a frame leaves alone *)

Lemma store_out_of_range {A : Type} (i : nat) (a : A) (arr : list A) :
  (length arr <= i)%nat -> JS.store i a arr = arr.
Proof.
  revert i. induction arr as [| b rest IH]; intros [| j] Hi; cbn in *;
    try reflexivity; try lia.
  f_equal. apply IH. lia.
Qed.

Lemma applySteps_after {A B : Type} (dflt : B) (step : A -> nat -> B -> B)
    (arr : list A) (k j : nat) (buf : list B) :
  (k + length arr <= j)%nat ->
  nth j (applySteps dflt step arr k buf) dflt = nth j buf dflt.
Proof.
  revert k buf. induction arr as [| d rest IH]; intros k buf Hj; cbn in *.
  - reflexivity.
  - rewrite IH by lia. apply nth_store_neq. lia.
Qed.

Lemma applySteps_truncate {A B : Type} (dflt : B) (step : A -> nat -> B -> B)
    (arr : list A) :
  forall (k : nat) (buf : list B),
    applySteps dflt step arr k buf
    = applySteps dflt step (firstn (length buf - k) arr) k buf.
Proof.
  induction arr as [| d rest IH]; intros k buf.
  - rewrite firstn_nil. reflexivity.
  - destruct (le_lt_dec (length buf) k) as [Hout | Hin].
    + replace (length buf - k)%nat with 0%nat by lia.
      cbn [firstn applySteps].
      rewrite store_out_of_range by exact Hout.
      rewrite IH. replace (length buf - S k)%nat with 0%nat by lia.
      reflexivity.
    + replace (length buf - k)%nat with (S (length buf - S k)) by lia.
      cbn [firstn applySteps].
      rewrite IH, store_length. reflexivity.
Qed.

Lemma stepMesh_bounds {A : Type} (step : A -> nat -> Matrix4.t -> Matrix4.t)
    (arr : list A) (mesh : InstancedMesh.t) :
  length (InstancedMesh.instanceMatrix (stepMesh step arr mesh))
  = length (InstancedMesh.instanceMatrix mesh)
  /\ InstancedMesh.instanceColor (stepMesh step arr mesh)
     = InstancedMesh.instanceColor mesh
  /\ (forall j, (length arr <= j)%nat ->
      InstancedMesh.getMatrixAt j (stepMesh step arr mesh)
      = InstancedMesh.getMatrixAt j mesh)
  /\ stepMesh step arr mesh
     = stepMesh step
         (firstn (length (InstancedMesh.instanceMatrix mesh)) arr) mesh.
Proof.
  split; [apply stepMesh_length |]. split; [reflexivity |]. split.
  - intros j Hj. unfold InstancedMesh.getMatrixAt, stepMesh.
    cbn [InstancedMesh.instanceMatrix]. apply applySteps_after. lia.
  - unfold stepMesh. f_equal.
    rewrite (applySteps_truncate Matrix4.zero step arr 0
               (InstancedMesh.instanceMatrix mesh)).
    rewrite Nat.sub_0_r. reflexivity.
Qed.

(** X5. A frame never resizes an instance buffer and never touches a colour
    buffer; a slot with no dataset entry (index at or past the dataset's
    length) keeps its matrix; and dataset entries past the end of the buffer
    have no effect: the frame writes the same buffers as with the dataset cut
    to the buffer's length. *)
Theorem useFrame_bounds (needles : list Needle.t)
    (ornaments : list Ornament.t) (mode : TreeMorphState) (time delta : R)
    (s : Scene) (nmesh omesh : InstancedMesh.t) :
  needlesMesh s = Some nmesh ->
  ornamentsMesh s = Some omesh ->
  let s' := useFrame needles ornaments mode time delta s in
  let cut :=
    useFrame
      (firstn (length (InstancedMesh.instanceMatrix nmesh)) needles)
      (firstn (length (InstancedMesh.instanceMatrix omesh)) ornaments)
      mode time delta s in
  exists nmesh' omesh',
    needlesMesh s' = Some nmesh'
    /\ ornamentsMesh s' = Some omesh'
    /\ length (InstancedMesh.instanceMatrix nmesh')
       = length (InstancedMesh.instanceMatrix nmesh)
    /\ length (InstancedMesh.instanceMatrix omesh')
       = length (InstancedMesh.instanceMatrix omesh)
    /\ InstancedMesh.instanceColor nmesh' = InstancedMesh.instanceColor nmesh
    /\ InstancedMesh.instanceColor omesh' = InstancedMesh.instanceColor omesh
    /\ (forall j, (length needles <= j)%nat ->
        InstancedMesh.getMatrixAt j nmesh' = InstancedMesh.getMatrixAt j nmesh)
    /\ (forall j, (length ornaments <= j)%nat ->
        InstancedMesh.getMatrixAt j omesh' = InstancedMesh.getMatrixAt j omesh)
    /\ needlesMesh cut = Some nmesh'
    /\ ornamentsMesh cut = Some omesh'.
Proof.
  intros Hn Ho s' cut.
  destruct (useFrame_refs needles ornaments mode time delta s)
    as (HN & HO & _).
  destruct (useFrame_refs
              (firstn (length (InstancedMesh.instanceMatrix nmesh)) needles)
              (firstn (length (InstancedMesh.instanceMatrix omesh)) ornaments)
              mode time delta s) as (HN' & HO' & _).
  rewrite Hn in HN, HN'. rewrite Ho in HO, HO'. cbn [option_map] in *.
  set (isTree := TreeMorphState_eqb mode TREE_SHAPE) in *.
  destruct (stepMesh_bounds (needleStep isTree time delta) needles nmesh)
    as (N1 & N2 & N3 & N4).
  destruct (stepMesh_bounds (ornamentStep isTree time delta) ornaments omesh)
    as (O1 & O2 & O3 & O4).
  do 2 eexists.
  split; [exact HN |]. split; [exact HO |].
  split; [exact N1 |]. split; [exact O1 |].
  split; [exact N2 |]. split; [exact O2 |].
  split; [exact N3 |]. split; [exact O3 |].
  split.
  - unfold cut. rewrite HN', <- N4. reflexivity.
  - unfold cut. rewrite HO', <- O4. reflexivity.
Qed.

(** Witness of [useFrame_bounds]: the one-needle, one-ornament scene with
    three needles and two ornaments in the datasets. *)
Lemma useFrame_bounds_witness :
  exists nmesh' omesh',
    needlesMesh
      (useFrame [oneNeedle; oneNeedle; oneNeedle] [oneOrnament; oneOrnament]
                SCATTERED 1 (/ 60) smallScene) = Some nmesh'
    /\ ornamentsMesh
         (useFrame [oneNeedle; oneNeedle; oneNeedle] [oneOrnament; oneOrnament]
                   SCATTERED 1 (/ 60) smallScene) = Some omesh'
    /\ length (InstancedMesh.instanceMatrix nmesh') = 1%nat
    /\ length (InstancedMesh.instanceMatrix omesh') = 1%nat.
Proof.
  destruct (useFrame_bounds [oneNeedle; oneNeedle; oneNeedle]
              [oneOrnament; oneOrnament] SCATTERED 1 (/ 60) smallScene
              (newInstancedMesh 1) (newInstancedMesh 1) eq_refl eq_refl)
    as (nmesh' & omesh' & H1 & H2 & H3 & H4 & _).
  exists nmesh', omesh'. repeat split; assumption.
Defined.

(** ** Ornament scale, from the first render on *)

Lemma runFrames_ornament_scale (needles : list Needle.t)
    (ornaments : list Ornament.t) (j : nat) (od : Ornament.t)
    (frames : list Frame) :
  nth_error ornaments j = Some od ->
  forall (s : Scene) (mesh : InstancedMesh.t),
    ornamentsMesh s = Some mesh ->
    (j < length (InstancedMesh.instanceMatrix mesh))%nat ->
    affine (InstancedMesh.getMatrixAt j mesh) ->
    exists mesh',
      ornamentsMesh (runFrames needles ornaments frames s) = Some mesh'
      /\ scaleOf (InstancedMesh.getMatrixAt j mesh')
         = scaleOf (InstancedMesh.getMatrixAt j mesh)
      /\ affine (InstancedMesh.getMatrixAt j mesh').
Proof.
  intros Hd. induction frames as [| f frames IH]; intros s mesh Hm Hj Haff.
  - exists mesh. auto.
  - rewrite runFrames_cons.
    destruct (useFrame_ornament_slot needles ornaments (treeState f) (time f)
                (delta f) s mesh j od Hm Hd Hj)
      as (m1 & E1 & Hlen1 & _ & Hs1).
    assert (Hj1 : (j < length (InstancedMesh.instanceMatrix m1))%nat)
      by (rewrite Hlen1; exact Hj).
    assert (Haff1 : affine (InstancedMesh.getMatrixAt j m1))
      by (rewrite Hs1; apply compose_affine).
    destruct (IH _ _ E1 Hj1 Haff1) as (mesh' & E & Hscale & Haff').
    exists mesh'. split; [exact E |]. split; [| exact Haff'].
    rewrite Hscale, Hs1. apply ornamentStep_scaleOf. exact Haff.
Qed.

Lemma mount_ornament_slot (g : RNG) (j : nat) :
  (forall k, 0 <= draws g k < 1) ->
  (j < ORNAMENT_COUNT)%nat ->
  exists s0 omesh od,
    mount g = Done (needlesOf g, ornamentsOf g, s0)
    /\ nth_error (ornamentsOf g) j = Some od
    /\ ornamentWellFormed od
    /\ ornamentsMesh s0 = Some omesh
    /\ (j < length (InstancedMesh.instanceMatrix omesh))%nat
    /\ InstancedMesh.getMatrixAt j omesh
       = Matrix4.compose Vector3.zero Quaternion.identity
                         (Vector3.setScalar (Ornament.scale od)).
Proof.
  intros Hdraws Hj.
  destruct (mount_spec g Hdraws) as (s0 & Hmount & _ & HO).
  destruct (ornamentsOf_spec g) as [_ Hnth].
  specialize (Hnth j Hj).
  set (od := fst (makeOrnament (advance g (PARTICLE_COUNT * 13 + j * 8)))) in *.
  assert (Hwf : ornamentWellFormed od).
  { apply makeOrnament_wellFormed. intros k. rewrite advance_draws.
    apply Hdraws. }
  exists s0. eexists. exists od.
  split; [exact Hmount |]. split; [exact Hnth |]. split; [exact Hwf |].
  split; [exact HO |].
  cbn [InstancedMesh.instanceMatrix]. unfold InstancedMesh.getMatrixAt.
  cbn [InstancedMesh.instanceMatrix].
  split; [rewrite applySteps_length, repeat_length; exact Hj |].
  rewrite (applySteps_nth Matrix4.zero
             (setupOrnamentMatrix Vector3.zero Quaternion.identity)
             (ornamentsOf g) 0 j _ od (Nat.le_0_l j));
    [| rewrite Nat.sub_0_r; exact Hnth | rewrite repeat_length; exact Hj].
  reflexivity.
Qed.

(** X6. From the first render on, whatever frames run and whatever their
    modes, times and deltas, every ornament's slot reads back the uniform
    scale the dataset gave that ornament, a value in [0.15, 0.4). *)
Theorem ornament_scale_kept (g : RNG) (frames : list Frame) (j : nat) :
  (forall k, 0 <= draws g k < 1) ->
  (j < ORNAMENT_COUNT)%nat ->
  exists needles ornaments s0 od omesh',
    mount g = Done (needles, ornaments, s0)
    /\ nth_error ornaments j = Some od
    /\ 0.15 <= Ornament.scale od < 0.4
    /\ ornamentsMesh (runFrames needles ornaments frames s0) = Some omesh'
    /\ scaleOf (InstancedMesh.getMatrixAt j omesh')
       = Vector3.setScalar (Ornament.scale od).
Proof.
  intros Hdraws Hj.
  destruct (mount_ornament_slot g j Hdraws Hj)
    as (s0 & omesh & od & Hmount & Hnth & Hwf & HO & Hlen & Hslot).
  destruct Hwf as (_ & _ & _ & _ & Hscale & _).
  assert (Haff : affine (InstancedMesh.getMatrixAt j omesh))
    by (rewrite Hslot; apply compose_affine).
  destruct (runFrames_ornament_scale (needlesOf g) (ornamentsOf g) j od
              frames Hnth s0 omesh HO Hlen Haff)
    as (omesh' & E & Hkept & _).
  exists (needlesOf g), (ornamentsOf g), s0, od, omesh'.
  split; [exact Hmount |]. split; [exact Hnth |]. split; [exact Hscale |].
  split; [exact E |].
  rewrite Hkept, Hslot. unfold Quaternion.identity.
  apply scaleOf_compose_vertical;
    unfold Vector3.setScalar; cbn [Vector3.x Vector3.y Vector3.z]; lra.
Qed.

(** Witness of [ornament_scale_kept]: every draw 0, the first ornament, five
    scattered seconds then three arranged ones. *)
Lemma ornament_scale_kept_witness :
  exists needles ornaments s0 od omesh',
    mount zeroStream = Done (needles, ornaments, s0)
    /\ nth_error ornaments 0 = Some od
    /\ 0.15 <= Ornament.scale od < 0.4
    /\ ornamentsMesh
         (runFrames needles ornaments
            (steadyFrames SCATTERED 300 0 ++ steadyFrames TREE_SHAPE 180 5) s0)
       = Some omesh'
    /\ scaleOf (InstancedMesh.getMatrixAt 0 omesh')
       = Vector3.setScalar (Ornament.scale od).
Proof.
  apply (ornament_scale_kept zeroStream
           (steadyFrames SCATTERED 300 0 ++ steadyFrames TREE_SHAPE 180 5) 0).
  - intros k. simpl. lra.
  - unfold ORNAMENT_COUNT. lia.
Defined.

(** ** Distance to the target, frame by frame *)

Lemma lerp_distance (p t : Vector3.t) (a : R) :
  Vector3.distanceTo (Vector3.lerp p t a) t
  = Rabs (1 - a) * Vector3.distanceTo p t.
Proof.
  unfold Vector3.distanceTo, Vector3.lerp.
  cbn [Vector3.x Vector3.y Vector3.z].
  set (S := (Vector3.x p - Vector3.x t) * (Vector3.x p - Vector3.x t)
            + (Vector3.y p - Vector3.y t) * (Vector3.y p - Vector3.y t)
            + (Vector3.z p - Vector3.z t) * (Vector3.z p - Vector3.z t)).
  match goal with
  | |- sqrt ?e = _ => replace e with ((1 - a) * (1 - a) * S)
      by (unfold S; ring)
  end.
  rewrite sqrt_mult_alt by apply Rle_0_sqr.
  rewrite sqrt_sq_abs. reflexivity.
Qed.

Lemma scaled_distance_cases (a d d' : R) :
  0 <= d ->
  d' = Rabs (1 - a) * d ->
  (a = 1 -> d' = 0)
  /\ (0 <= a <= 2 -> d' <= d)
  /\ (2 < a -> 0 < d -> d < d').
Proof.
  intros Hd ->. split; [| split].
  - intros ->. replace (1 - 1) with 0 by ring. rewrite Rabs_R0. ring.
  - intros Ha. assert (Rabs (1 - a) <= 1) by (apply Rabs_le; lra). nra.
  - intros Ha Hpos.
    assert (1 < Rabs (1 - a)).
    { rewrite <- Rabs_Ropp, Rabs_pos_eq by lra. lra. }
    nra.
Qed.

(** X7. One frame multiplies a needle's distance to that frame's target by
    |1 - speed * 60 * dt| and an ornament's by |1 - speed * 50 * dt|; the
    factor is not clamped.  So a blend factor of exactly 1 lands the element
    on the target, a factor in [0, 2] never takes it farther away, and a
    factor above 2 (a long stall) leaves it farther from the target than it
    was. *)
Theorem frame_distance_to_target (needles : list Needle.t)
    (ornaments : list Ornament.t) (mode : TreeMorphState) (time delta : R)
    (s : Scene) (nmesh omesh : InstancedMesh.t) (i j : nat)
    (nd : Needle.t) (od : Ornament.t) :
  needlesMesh s = Some nmesh ->
  ornamentsMesh s = Some omesh ->
  nth_error needles i = Some nd ->
  nth_error ornaments j = Some od ->
  (i < length (InstancedMesh.instanceMatrix nmesh))%nat ->
  (j < length (InstancedMesh.instanceMatrix omesh))%nat ->
  let isTree := TreeMorphState_eqb mode TREE_SHAPE in
  let s' := useFrame needles ornaments mode time delta s in
  let nt := needleTargetPos isTree time nd i in
  let ot := ornamentTargetPos isTree time od j in
  let na := Needle.speed nd * 60 * delta in
  let oa := Ornament.speed od * 50 * delta in
  exists nmesh' omesh',
    needlesMesh s' = Some nmesh'
    /\ ornamentsMesh s' = Some omesh'
    /\ (let d := Vector3.distanceTo
                   (positionOf (InstancedMesh.getMatrixAt i nmesh)) nt in
        let d' := Vector3.distanceTo
                    (positionOf (InstancedMesh.getMatrixAt i nmesh')) nt in
        d' = Rabs (1 - na) * d
        /\ (na = 1 -> d' = 0)
        /\ (0 <= na <= 2 -> d' <= d)
        /\ (2 < na -> 0 < d -> d < d'))
    /\ (let d := Vector3.distanceTo
                   (positionOf (InstancedMesh.getMatrixAt j omesh)) ot in
        let d' := Vector3.distanceTo
                    (positionOf (InstancedMesh.getMatrixAt j omesh')) ot in
        d' = Rabs (1 - oa) * d
        /\ (oa = 1 -> d' = 0)
        /\ (0 <= oa <= 2 -> d' <= d)
        /\ (2 < oa -> 0 < d -> d < d')).
Proof.
  intros Hn Ho Hnd Hod Hi Hj isTree s' nt ot na oa.
  destruct (useFrame_needle_slot needles ornaments mode time delta s
              nmesh i nd Hn Hnd Hi) as (nmesh' & Hn' & _ & Hni).
  destruct (useFrame_ornament_slot needles ornaments mode time delta s
              omesh j od Ho Hod Hj) as (omesh' & Ho' & _ & _ & Hoj).
  exists nmesh', omesh'.
  split; [exact Hn' |]. split; [exact Ho' |]. split.
  - cbv zeta.
    assert (E : Vector3.distanceTo
                  (positionOf (InstancedMesh.getMatrixAt i nmesh')) nt
                = Rabs (1 - na)
                  * Vector3.distanceTo
                      (positionOf (InstancedMesh.getMatrixAt i nmesh)) nt).
    { rewrite Hni. unfold needleStep. rewrite positionOf_compose.
      apply lerp_distance. }
    split; [exact E |].
    apply scaled_distance_cases; [apply distanceTo_nonneg | exact E].
  - cbv zeta.
    assert (E : Vector3.distanceTo
                  (positionOf (InstancedMesh.getMatrixAt j omesh')) ot
                = Rabs (1 - oa)
                  * Vector3.distanceTo
                      (positionOf (InstancedMesh.getMatrixAt j omesh)) ot).
    { rewrite Hoj. unfold ornamentStep. rewrite positionOf_compose.
      apply lerp_distance. }
    split; [exact E |].
    apply scaled_distance_cases; [apply distanceTo_nonneg | exact E].
Qed.

(** Witness of [frame_distance_to_target]: a stall of 3 seconds in the
    one-needle, one-ornament scene (needle factor 3.6). *)
Lemma frame_distance_to_target_witness :
  exists nmesh' omesh',
    needlesMesh (useFrame [oneNeedle] [oneOrnament] TREE_SHAPE 0 3 smallScene)
    = Some nmesh'
    /\ ornamentsMesh
         (useFrame [oneNeedle] [oneOrnament] TREE_SHAPE 0 3 smallScene)
       = Some omesh'
    /\ Vector3.distanceTo
         (positionOf (InstancedMesh.getMatrixAt 0 nmesh'))
         (needleTargetPos true 0 oneNeedle 0)
       = Rabs (1 - Needle.speed oneNeedle * 60 * 3)
         * Vector3.distanceTo
             (positionOf (InstancedMesh.getMatrixAt 0 (newInstancedMesh 1)))
             (needleTargetPos true 0 oneNeedle 0).
Proof.
  destruct (frame_distance_to_target [oneNeedle] [oneOrnament] TREE_SHAPE 0 3
              smallScene (newInstancedMesh 1) (newInstancedMesh 1) 0 0
              oneNeedle oneOrnament eq_refl eq_refl eq_refl eq_refl
              (Nat.lt_0_succ 0) (Nat.lt_0_succ 0))
    as (nmesh' & omesh' & H1 & H2 & (H3 & _) & _).
  exists nmesh', omesh'. repeat split; assumption.
Defined.

(** ** Arranged needles converge, scattered needles hover *)

Lemma exp_decay_below (k d eps e : R) :
  0 < k -> 0 <= d -> 0 < eps ->
  d / (eps * k) <= e ->
  exp (- (k * e)) * d < eps.
Proof.
  intros Hk Hd Heps He.
  destruct Hd as [Hd | <-]; [| rewrite Rmult_0_r; exact Heps].
  assert (Hek : 0 < eps * k) by (apply Rmult_lt_0_compat; assumption).
  assert (Hke : d / eps <= k * e).
  { replace (d / eps) with (k * (d / (eps * k))) by (field; lra).
    apply Rmult_le_compat_l; lra. }
  assert (Hde : 0 < d / eps) by (apply Rdiv_lt_0_compat; assumption).
  pose proof (exp_ineq1_le (k * e)) as Hexp.
  assert (Hbig : d / eps < exp (k * e)) by lra.
  rewrite exp_Ropp.
  assert (Hpos : 0 < exp (k * e)) by apply exp_pos.
  apply Rmult_lt_reg_l with (exp (k * e)); [exact Hpos |].
  replace (exp (k * e) * (/ exp (k * e) * d)) with d by (field; lra).
  assert (Heq : d = d / eps * eps) by (field; lra).
  rewrite Heq at 1. apply Rmult_lt_compat_r; assumption.
Qed.

(** X8. In the arranged mode every needle converges to its arranged
    position, whatever the frame rate: from any state of the buffer and for
    every tolerance there is a time span after which any sequence of
    arranged frames with blend factors in [0, 1] that covers it leaves the
    needle closer to its arranged position than the tolerance. *)
Theorem arranged_converges (needles : list Needle.t)
    (ornaments : list Ornament.t) (s : Scene) (nmesh : InstancedMesh.t)
    (i : nat) (nd : Needle.t) (eps : R) :
  needlesMesh s = Some nmesh ->
  nth_error needles i = Some nd ->
  (i < length (InstancedMesh.instanceMatrix nmesh))%nat ->
  0 < Needle.speed nd ->
  0 < eps ->
  exists T,
    forall frames,
      Forall (fun f => treeState f = TREE_SHAPE
                       /\ 0 <= Needle.speed nd * 60 * delta f <= 1) frames ->
      T <= elapsed frames ->
      exists nmesh',
        needlesMesh (runFrames needles ornaments frames s) = Some nmesh'
        /\ Vector3.distanceTo
             (positionOf (InstancedMesh.getMatrixAt i nmesh'))
             (Needle.treePos nd) < eps.
Proof.
  intros Hn Hnd Hi Hspeed Heps.
  set (p0 := positionOf (InstancedMesh.getMatrixAt i nmesh)).
  set (d0 := Vector3.distanceTo p0 (Needle.treePos nd)).
  exists (d0 / (eps * (Needle.speed nd * 60))).
  intros frames Hall HT.
  destruct (runFrames_needle_position needles ornaments i nd frames Hnd s
              nmesh Hn Hi) as (nmesh' & E & _ & Hpos).
  exists nmesh'. split; [exact E |].
  rewrite Hpos. fold p0.
  assert (Hmode : Forall (fun f => treeState f = TREE_SHAPE) frames)
    by (eapply Forall_impl; [| exact Hall]; intros f [H _]; exact H).
  assert (Hfac : Forall (fun f => 0 <= Needle.speed nd * 60 * delta f <= 1)
                        frames)
    by (eapply Forall_impl; [| exact Hall]; intros f [_ H]; exact H).
  destruct (needleTrack_arranged nd i frames Hmode p0) as (Hx & Hy & Hz).
  destruct (contraction_bound nd frames Hfac) as [Hc0 Hc1].
  rewrite (distanceTo_scaled p0 _ (Needle.treePos nd)
             (contraction nd frames) Hc0 Hx Hy Hz).
  fold d0.
  assert (Hd0 : 0 <= d0) by apply distanceTo_nonneg.
  apply Rle_lt_trans
    with (exp (- (Needle.speed nd * 60 * elapsed frames)) * d0).
  - apply Rmult_le_compat_r; assumption.
  - apply exp_decay_below; [lra | exact Hd0 | exact Heps | exact HT].
Qed.

(** Witness of [arranged_converges]: the one-needle scene, tolerance
    1/100. *)
Lemma arranged_converges_witness :
  exists T,
    forall frames,
      Forall (fun f => treeState f = TREE_SHAPE
                       /\ 0 <= Needle.speed oneNeedle * 60 * delta f <= 1)
             frames ->
      T <= elapsed frames ->
      exists nmesh',
        needlesMesh (runFrames [oneNeedle] [oneOrnament] frames smallScene)
        = Some nmesh'
        /\ Vector3.distanceTo
             (positionOf (InstancedMesh.getMatrixAt 0 nmesh'))
             (Needle.treePos oneNeedle) < 1 / 100.
Proof.
  apply (arranged_converges [oneNeedle] [oneOrnament] smallScene
           (newInstancedMesh 1) 0 oneNeedle (1 / 100) eq_refl eq_refl
           (Nat.lt_0_succ 0)).
  - simpl. lra.
  - lra.
Defined.

Lemma within_weaken (r r' : R) (p q : Vector3.t) :
  r <= r' -> within r p q -> within r' p q.
Proof. unfold within. intros Hr (Hx & Hy & Hz). repeat split; lra. Qed.

Lemma blend_toward_band (a r d w : R) :
  0 <= a <= 1 -> - r <= d <= r -> - 1 <= w <= 1 ->
  - ((1 - a) * r + 0.5 * a) <= (1 - a) * d + a * (w * 0.5)
  <= (1 - a) * r + 0.5 * a.
Proof.
  intros [Ha0 Ha1] [Hd0 Hd1] [Hw0 Hw1].
  assert (H1 : (1 - a) * d <= (1 - a) * r)
    by (apply Rmult_le_compat_l; lra).
  assert (H2 : (1 - a) * - r <= (1 - a) * d)
    by (apply Rmult_le_compat_l; lra).
  assert (H3 : a * (w * 0.5) <= a * 0.5)
    by (apply Rmult_le_compat_l; lra).
  assert (H4 : a * - 0.5 <= a * (w * 0.5))
    by (apply Rmult_le_compat_l; lra).
  split; lra.
Qed.

Lemma needleTrack_scattered_within (data : Needle.t) (i : nat)
    (frames : list Frame) :
  Forall (fun f => treeState f = SCATTERED
                   /\ 0 <= Needle.speed data * 60 * delta f <= 1) frames ->
  forall p r,
    within r p (Needle.scatterPos data) ->
    within (contraction data frames * r
            + 0.5 * (1 - contraction data frames))
           (needleTrack data i frames p) (Needle.scatterPos data).
Proof.
  induction 1 as [| f frames [Hmode Ha] _ IH]; intros p r Hp.
  - cbn [contraction fold_right needleTrack fold_left].
    eapply within_weaken; [| exact Hp]. lra.
  - rewrite needleTrack_cons, Hmode.
    cbn [TreeMorphState_eqb needleTargetPos contraction fold_right].
    fold (contraction data frames).
    set (a := Needle.speed data * 60 * delta f) in *.
    set (c := contraction data frames).
    replace ((1 - a) * c * r + 0.5 * (1 - (1 - a) * c))
      with (c * ((1 - a) * r + 0.5 * a) + 0.5 * (1 - c)) by ring.
    apply IH.
    pose proof (SIN_bound (time f + INR i)) as Hsin.
    destruct Hp as (Hx & Hy & Hz).
    unfold within, Vector3.lerp, Vector3.addScalar.
    cbn [Vector3.x Vector3.y Vector3.z].
    set (w := sin (time f + INR i)) in *.
    pose proof (blend_toward_band a r _ w Ha Hx Hsin) as Bx.
    pose proof (blend_toward_band a r _ w Ha Hy Hsin) as By.
    pose proof (blend_toward_band a r _ w Ha Hz Hsin) as Bz.
    repeat split; lra.
Qed.

Lemma contraction_unit (data : Needle.t) (frames : list Frame) :
  Forall (fun f => 0 <= Needle.speed data * 60 * delta f <= 1) frames ->
  0 <= contraction data frames <= 1.
Proof.
  induction 1 as [| f frames Ha _ IH].
  - cbn. lra.
  - cbn [contraction fold_right]. fold (contraction data frames).
    set (a := Needle.speed data * 60 * delta f) in *.
    set (c := contraction data frames) in *.
    assert (0 <= (1 - a) * c) by (apply Rmult_le_pos; lra).
    assert ((1 - a) * c <= 1 * 1) by (apply Rmult_le_compat; lra).
    lra.
Qed.

(** X9. While scattered, with blend factors in [0, 1], a needle is drawn
    into the cube of half-width 0.5 around its scattered position: if every
    coordinate starts within r of it, then after the frames every coordinate
    is within C * r + 0.5 * (1 - C) of it, where C, the product of the
    frames' factors 1 - speed * 60 * dt, is at most
    exp (- speed * 60 * elapsed time).  A needle inside that cube never
    leaves it. *)
Theorem scattered_hover (needles : list Needle.t)
    (ornaments : list Ornament.t) (s : Scene) (nmesh : InstancedMesh.t)
    (i : nat) (nd : Needle.t) (frames : list Frame) (r : R) :
  needlesMesh s = Some nmesh ->
  nth_error needles i = Some nd ->
  (i < length (InstancedMesh.instanceMatrix nmesh))%nat ->
  Forall (fun f => treeState f = SCATTERED
                   /\ 0 <= Needle.speed nd * 60 * delta f <= 1) frames ->
  within r (positionOf (InstancedMesh.getMatrixAt i nmesh))
         (Needle.scatterPos nd) ->
  let C := contraction nd frames in
  exists nmesh',
    needlesMesh (runFrames needles ornaments frames s) = Some nmesh'
    /\ 0 <= C <= exp (- (Needle.speed nd * 60 * elapsed frames))
    /\ within (C * r + 0.5 * (1 - C))
              (positionOf (InstancedMesh.getMatrixAt i nmesh'))
              (Needle.scatterPos nd)
    /\ (r <= 0.5 ->
        within 0.5 (positionOf (InstancedMesh.getMatrixAt i nmesh'))
               (Needle.scatterPos nd)).
Proof.
  intros Hn Hnd Hi Hall Hr C.
  destruct (runFrames_needle_position needles ornaments i nd frames Hnd s
              nmesh Hn Hi) as (nmesh' & E & _ & Hpos).
  assert (Hfac : Forall (fun f => 0 <= Needle.speed nd * 60 * delta f <= 1)
                        frames)
    by (eapply Forall_impl; [| exact Hall]; intros f [_ H]; exact H).
  pose proof (contraction_bound nd frames Hfac) as HC. fold C in HC.
  pose proof (needleTrack_scattered_within nd i frames Hall _ r Hr) as Hw.
  fold C in Hw. rewrite <- Hpos in Hw.
  pose proof (contraction_unit nd frames Hfac) as HC1. fold C in HC1.
  exists nmesh'. split; [exact E |]. split; [exact HC |].
  split; [exact Hw |].
  intros Hr05. eapply within_weaken; [| exact Hw]. nra.
Qed.

(** Witness of [scattered_hover]: the one-needle scene, two scattered
    frames. *)
Lemma scattered_hover_witness :
  let frames := [mkFrame SCATTERED 0 (/ 60); mkFrame SCATTERED (/ 60) (/ 30)] in
  let C := contraction oneNeedle frames in
  exists nmesh',
    needlesMesh (runFrames [oneNeedle] [oneOrnament] frames smallScene)
    = Some nmesh'
    /\ 0 <= C <= exp (- (Needle.speed oneNeedle * 60 * elapsed frames))
    /\ within (C * 3 + 0.5 * (1 - C))
              (positionOf (InstancedMesh.getMatrixAt 0 nmesh'))
              (Needle.scatterPos oneNeedle)
    /\ (3 <= 0.5 ->
        within 0.5 (positionOf (InstancedMesh.getMatrixAt 0 nmesh'))
               (Needle.scatterPos oneNeedle)).
Proof.
  apply (scattered_hover [oneNeedle] [oneOrnament] smallScene
           (newInstancedMesh 1) 0 oneNeedle
           [mkFrame SCATTERED 0 (/ 60); mkFrame SCATTERED (/ 60) (/ 30)] 3
           eq_refl eq_refl (Nat.lt_0_succ 0)).
  - repeat constructor; simpl; lra.
  - unfold within, positionOf, InstancedMesh.getMatrixAt. simpl.
    repeat split; lra.
Defined.

(** ** The scene stays in a box *)

Lemma abs_le_sqrt (a S : R) : a * a <= S -> - sqrt S <= a <= sqrt S.
Proof.
  intros H.
  assert (Habs : Rabs a <= sqrt S).
  { rewrite <- sqrt_sq_abs. apply sqrt_le_1_alt. exact H. }
  pose proof (Rle_abs a). pose proof (Rle_abs (- a)) as Hneg.
  rewrite Rabs_Ropp in Hneg. split; lra.
Qed.

Lemma length_inBox (p : Vector3.t) : inBox (Vector3.length p) p.
Proof.
  unfold inBox, Vector3.length.
  pose proof (Rle_0_sqr (Vector3.x p)) as Hx.
  pose proof (Rle_0_sqr (Vector3.y p)) as Hy.
  pose proof (Rle_0_sqr (Vector3.z p)) as Hz.
  unfold Rsqr in Hx, Hy, Hz.
  repeat split; apply abs_le_sqrt; lra.
Qed.

Lemma radial_bounds (p : Vector3.t) :
  - radial p <= Vector3.x p <= radial p
  /\ - radial p <= Vector3.z p <= radial p.
Proof.
  unfold radial.
  pose proof (Rle_0_sqr (Vector3.x p)) as Hx.
  pose proof (Rle_0_sqr (Vector3.z p)) as Hz.
  unfold Rsqr in Hx, Hz.
  split; apply abs_le_sqrt; lra.
Qed.

Lemma lerp_inBox (r a : R) (p t : Vector3.t) :
  0 <= a <= 1 -> inBox r p -> inBox r t -> inBox r (Vector3.lerp p t a).
Proof.
  unfold inBox, Vector3.lerp. cbn [Vector3.x Vector3.y Vector3.z].
  intros Ha (Hx & Hy & Hz) (Tx & Ty & Tz).
  assert (Hconv : forall u v, - r <= u <= r -> - r <= v <= r ->
                              - r <= u + (v - u) * a <= r).
  { intros u v Hu Hv.
    replace (u + (v - u) * a) with ((1 - a) * u + a * v) by ring.
    assert ((1 - a) * u <= (1 - a) * r) by (apply Rmult_le_compat_l; lra).
    assert ((1 - a) * - r <= (1 - a) * u) by (apply Rmult_le_compat_l; lra).
    assert (a * v <= a * r) by (apply Rmult_le_compat_l; lra).
    assert (a * - r <= a * v) by (apply Rmult_le_compat_l; lra).
    split; lra. }
  repeat split; apply Hconv; assumption.
Qed.

Lemma needleTarget_inBox (isTree : bool) (time : R) (nd : Needle.t)
    (i : nat) :
  needleWellFormed nd ->
  inBox 15.5 (needleTargetPos isTree time nd i).
Proof.
  intros (Hscat & (Hy & Hrad) & _).
  unfold needleTargetPos. destruct isTree.
  - destruct (radial_bounds (Needle.treePos nd)) as [Hx Hz].
    unfold radiusAt, TREE_HEIGHT, TREE_RADIUS_BASE in *.
    unfold inBox. repeat split; lra.
  - pose proof (length_inBox (Needle.scatterPos nd)) as (Hx & Hy' & Hz).
    pose proof (SIN_bound (time + INR i)) as Hsin.
    unfold SCATTER_RADIUS in Hscat.
    unfold inBox, Vector3.addScalar. cbn [Vector3.x Vector3.y Vector3.z].
    repeat split; lra.
Qed.

Lemma ornamentTarget_inBox (isTree : bool) (time : R) (od : Ornament.t)
    (j : nat) :
  ornamentWellFormed od ->
  inBox 16 (ornamentTargetPos isTree time od j).
Proof.
  intros (Hscat & Hy & Hrad & _).
  unfold ornamentTargetPos. destruct isTree.
  - destruct (radial_bounds (Ornament.treePos od)) as [Hx Hz].
    pose proof (SIN_bound (time * 2 + INR j)) as Hsin.
    unfold radiusAt, TREE_HEIGHT, TREE_RADIUS_BASE in *.
    unfold inBox. cbn [Vector3.x Vector3.y Vector3.z].
    repeat split; lra.
  - pose proof (length_inBox (Ornament.scatterPos od)) as (Hx & Hy' & Hz).
    pose proof (SIN_bound (time * 0.5 + INR j)) as Hs1.
    pose proof (COS_bound (time * 0.3 + INR j)) as Hs2.
    pose proof (SIN_bound (time * 0.7 + INR j)) as Hs3.
    unfold SCATTER_RADIUS in Hscat.
    unfold inBox, Vector3.add. cbn [Vector3.x Vector3.y Vector3.z].
    repeat split; lra.
Qed.

Lemma runFrames_needle_inBox (needles : list Needle.t)
    (ornaments : list Ornament.t) (i : nat) (nd : Needle.t)
    (frames : list Frame) :
  nth_error needles i = Some nd ->
  needleWellFormed nd ->
  Forall (fun f => 0 <= delta f <= 5 / 18) frames ->
  forall (s : Scene) (mesh : InstancedMesh.t),
    needlesMesh s = Some mesh ->
    (i < length (InstancedMesh.instanceMatrix mesh))%nat ->
    inBox 15.5 (positionOf (InstancedMesh.getMatrixAt i mesh)) ->
    exists mesh',
      needlesMesh (runFrames needles ornaments frames s) = Some mesh'
      /\ inBox 15.5 (positionOf (InstancedMesh.getMatrixAt i mesh')).
Proof.
  intros Hd Hwf.
  induction 1 as [| f frames Hf _ IH]; intros s mesh Hm Hi Hbox.
  - exists mesh. auto.
  - rewrite runFrames_cons.
    destruct (useFrame_needle_slot needles ornaments (treeState f) (time f)
                (delta f) s mesh i nd Hm Hd Hi) as (m1 & E1 & Hlen1 & Hs1).
    apply (IH _ m1 E1); [rewrite Hlen1; exact Hi |].
    rewrite Hs1. unfold needleStep. rewrite positionOf_compose.
    apply lerp_inBox;
      [| exact Hbox | apply needleTarget_inBox; exact Hwf].
    destruct Hwf as (_ & _ & Hspeed & _).
    split; [apply Rmult_le_pos; lra | nra].
Qed.

Lemma runFrames_ornament_inBox (needles : list Needle.t)
    (ornaments : list Ornament.t) (j : nat) (od : Ornament.t)
    (frames : list Frame) :
  nth_error ornaments j = Some od ->
  ornamentWellFormed od ->
  Forall (fun f => 0 <= delta f <= 5 / 18) frames ->
  forall (s : Scene) (mesh : InstancedMesh.t),
    ornamentsMesh s = Some mesh ->
    (j < length (InstancedMesh.instanceMatrix mesh))%nat ->
    inBox 16 (positionOf (InstancedMesh.getMatrixAt j mesh)) ->
    exists mesh',
      ornamentsMesh (runFrames needles ornaments frames s) = Some mesh'
      /\ inBox 16 (positionOf (InstancedMesh.getMatrixAt j mesh')).
Proof.
  intros Hd Hwf.
  induction 1 as [| f frames Hf _ IH]; intros s mesh Hm Hj Hbox.
  - exists mesh. auto.
  - rewrite runFrames_cons.
    destruct (useFrame_ornament_slot needles ornaments (treeState f) (time f)
                (delta f) s mesh j od Hm Hd Hj)
      as (m1 & E1 & Hlen1 & _ & Hs1).
    apply (IH _ m1 E1); [rewrite Hlen1; exact Hj |].
    rewrite Hs1. unfold ornamentStep. rewrite positionOf_compose.
    apply lerp_inBox;
      [| exact Hbox | apply ornamentTarget_inBox; exact Hwf].
    destruct Hwf as (_ & _ & _ & _ & _ & Hspeed).
    split; [apply Rmult_le_pos; lra | nra].
Qed.

Lemma mount_needle_slot (g : RNG) (i : nat) :
  (forall k, 0 <= draws g k < 1) ->
  (i < PARTICLE_COUNT)%nat ->
  exists s0 nmesh nd,
    mount g = Done (needlesOf g, ornamentsOf g, s0)
    /\ nth_error (needlesOf g) i = Some nd
    /\ needleWellFormed nd
    /\ needlesMesh s0 = Some nmesh
    /\ (i < length (InstancedMesh.instanceMatrix nmesh))%nat
    /\ InstancedMesh.getMatrixAt i nmesh
       = Matrix4.compose Vector3.zero Quaternion.identity
                         (Vector3.mk 0.1 0.4 0.1).
Proof.
  intros Hdraws Hi.
  destruct (mount_spec g Hdraws) as (s0 & Hmount & HN & _).
  destruct (needlesOf_spec g) as [_ Hnth].
  specialize (Hnth i Hi).
  set (nd := fst (makeNeedle (advance g (i * 13)))) in *.
  assert (Hwf : needleWellFormed nd).
  { apply makeNeedle_wellFormed. intros k. rewrite advance_draws.
    apply Hdraws. }
  assert (Hi0 : (i < length (InstancedMesh.instanceMatrix
                               (newInstancedMesh PARTICLE_COUNT)))%nat)
    by (rewrite instanceMatrix_new, repeat_length; exact Hi).
  exists s0. eexists. exists nd.
  split; [exact Hmount |]. split; [exact Hnth |]. split; [exact Hwf |].
  split; [exact HN |].
  split; [rewrite stepMesh_length; exact Hi0 |].
  rewrite (stepMesh_slot _ _ _ i nd Hnth Hi0). reflexivity.
Qed.

Lemma zero_inBox (r : R) : 0 <= r -> inBox r Vector3.zero.
Proof.
  intros Hr. unfold inBox, Vector3.zero. cbn [Vector3.x Vector3.y Vector3.z].
  repeat split; lra.
Qed.

(** X10. Every element starts at the origin on the first render, and while
    every frame's delta is in [0, 5/18] the scene stays in a box: after any
    such frames, in any modes and at any clock times, every needle has all
    three coordinates in [-15.5, 15.5] and every ornament in [-16, 16]. *)
Theorem elements_stay_in_box (g : RNG) (frames : list Frame) :
  (forall k, 0 <= draws g k < 1) ->
  Forall (fun f => 0 <= delta f <= 5 / 18) frames ->
  exists needles ornaments s0,
    mount g = Done (needles, ornaments, s0)
    /\ (forall i, (i < PARTICLE_COUNT)%nat ->
          exists nmesh0 nmesh',
            needlesMesh s0 = Some nmesh0
            /\ positionOf (InstancedMesh.getMatrixAt i nmesh0) = Vector3.zero
            /\ needlesMesh (runFrames needles ornaments frames s0)
               = Some nmesh'
            /\ inBox 15.5 (positionOf (InstancedMesh.getMatrixAt i nmesh')))
    /\ (forall j, (j < ORNAMENT_COUNT)%nat ->
          exists omesh0 omesh',
            ornamentsMesh s0 = Some omesh0
            /\ positionOf (InstancedMesh.getMatrixAt j omesh0) = Vector3.zero
            /\ ornamentsMesh (runFrames needles ornaments frames s0)
               = Some omesh'
            /\ inBox 16 (positionOf (InstancedMesh.getMatrixAt j omesh'))).
Proof.
  intros Hdraws Hframes.
  destruct (mount_spec g Hdraws) as (s0 & Hmount & _).
  exists (needlesOf g), (ornamentsOf g), s0.
  split; [exact Hmount |]. split.
  - intros i Hi.
    destruct (mount_needle_slot g i Hdraws Hi)
      as (s1 & nmesh & nd & Hmount1 & Hnth & Hwf & HN & Hlen & Hslot).
    assert (Hs : s1 = s0) by congruence. subst s1.
    assert (Hpos : positionOf (InstancedMesh.getMatrixAt i nmesh)
                   = Vector3.zero)
      by (rewrite Hslot; apply positionOf_compose).
    destruct (runFrames_needle_inBox (needlesOf g) (ornamentsOf g) i nd
                frames Hnth Hwf Hframes s0 nmesh HN Hlen)
      as (nmesh' & E & Hbox).
    { rewrite Hpos. apply zero_inBox. lra. }
    exists nmesh, nmesh'. auto.
  - intros j Hj.
    destruct (mount_ornament_slot g j Hdraws Hj)
      as (s1 & omesh & od & Hmount1 & Hnth & Hwf & HO & Hlen & Hslot).
    assert (Hs : s1 = s0) by congruence. subst s1.
    assert (Hpos : positionOf (InstancedMesh.getMatrixAt j omesh)
                   = Vector3.zero)
      by (rewrite Hslot; apply positionOf_compose).
    destruct (runFrames_ornament_inBox (needlesOf g) (ornamentsOf g) j od
                frames Hnth Hwf Hframes s0 omesh HO Hlen)
      as (omesh' & E & Hbox).
    { rewrite Hpos. apply zero_inBox. lra. }
    exists omesh, omesh'. auto.
Qed.

(** Witness of [elements_stay_in_box]: every draw 0, a scattered frame and
    an arranged frame after a stall of a quarter of a second. *)
Lemma elements_stay_in_box_witness :
  let frames := [mkFrame SCATTERED 0 (/ 60); mkFrame TREE_SHAPE 1 (1 / 4)] in
  exists needles ornaments s0,
    mount zeroStream = Done (needles, ornaments, s0)
    /\ (forall i, (i < PARTICLE_COUNT)%nat ->
          exists nmesh0 nmesh',
            needlesMesh s0 = Some nmesh0
            /\ positionOf (InstancedMesh.getMatrixAt i nmesh0) = Vector3.zero
            /\ needlesMesh (runFrames needles ornaments frames s0)
               = Some nmesh'
            /\ inBox 15.5 (positionOf (InstancedMesh.getMatrixAt i nmesh')))
    /\ (forall j, (j < ORNAMENT_COUNT)%nat ->
          exists omesh0 omesh',
            ornamentsMesh s0 = Some omesh0
            /\ positionOf (InstancedMesh.getMatrixAt j omesh0) = Vector3.zero
            /\ ornamentsMesh (runFrames needles ornaments frames s0)
               = Some omesh'
            /\ inBox 16 (positionOf (InstancedMesh.getMatrixAt j omesh'))).
Proof.
  apply (elements_stay_in_box zeroStream
           [mkFrame SCATTERED 0 (/ 60); mkFrame TREE_SHAPE 1 (1 / 4)]).
  - intros k. simpl. lra.
  - repeat constructor; simpl; lra.
Defined.

(** ** The star *)

Lemma runFrames_star (needles : list Needle.t) (ornaments : list Ornament.t)
    (frames : list Frame) (s : Scene) :
  starMesh (runFrames needles ornaments frames s)
  = option_map
      (fun star =>
         fold_left
           (fun st f =>
              animateStar (TreeMorphState_eqb (treeState f) TREE_SHAPE)
                          (delta f) st)
           frames star)
      (starMesh s).
Proof.
  revert s. induction frames as [| f frames IH]; intros s.
  - cbn. destruct (starMesh s); reflexivity.
  - rewrite runFrames_cons, IH.
    destruct (useFrame_refs needles ornaments (treeState f) (time f)
                (delta f) s) as (_ & _ & ->).
    destruct (starMesh s); reflexivity.
Qed.

Lemma mount_star (g : RNG) :
  (forall k, 0 <= draws g k < 1) ->
  exists s0,
    mount g = Done (needlesOf g, ornamentsOf g, s0)
    /\ starMesh s0
       = Some (Mesh.mk (Vector3.mk 0 (TREE_HEIGHT + 0.5) 0) (Euler.mk 0 0 0)
                       (Vector3.setScalar 1)).
Proof.
  intros Hdraws.
  destruct initialScene_refs as (Hn & Ho & _ & _).
  destruct (useLayoutEffect_spec (needlesOf g) (ornamentsOf g) initialScene
              (newInstancedMesh PARTICLE_COUNT)
              (newInstancedMesh ORNAMENT_COUNT) Hn Ho
              (ornamentsOf_nonempty g) (ornamentsOf_colors g Hdraws))
    as (s0 & E & _ & _ & Hstar).
  exists s0. split.
  - rewrite mount_unfold, E. reflexivity.
  - rewrite Hstar. reflexivity.
Qed.

Lemma star_fold_spin (frames : list Frame) (star : Mesh.t) :
  let star' :=
    fold_left
      (fun st f =>
         animateStar (TreeMorphState_eqb (treeState f) TREE_SHAPE)
                     (delta f) st)
      frames star in
  Euler.y (Mesh.rotation star')
  = Euler.y (Mesh.rotation star) + 0.5 * elapsed frames
  /\ Euler.x (Mesh.rotation star') = Euler.x (Mesh.rotation star)
  /\ Euler.z (Mesh.rotation star') = Euler.z (Mesh.rotation star)
  /\ Vector3.x (Mesh.position star') = Vector3.x (Mesh.position star)
  /\ Vector3.z (Mesh.position star') = Vector3.z (Mesh.position star)
  /\ (frames <> [] ->
      Mesh.scale star'
      = Vector3.setScalar (Vector3.x (Mesh.scale star'))).
Proof.
  revert star. induction frames as [| f frames IH]; intros star.
  - cbn. repeat split; try lra. intros H. contradiction.
  - cbn [fold_left elapsed fold_right]. fold (elapsed frames).
    cbv zeta in IH.
    destruct (IH (animateStar (TreeMorphState_eqb (treeState f) TREE_SHAPE)
                              (delta f) star))
      as (Hy & Hx & Hz & Px & Pz & Hs).
    cbv zeta. rewrite Hy, Hx, Hz, Px, Pz.
    unfold animateStar at 1 2 3 4 5.
    cbn [Mesh.rotation Mesh.position Euler.x Euler.y Euler.z
         Vector3.x Vector3.z].
    repeat split; try lra.
    intros _. destruct frames as [| f' frames'].
    + cbn [fold_left]. unfold animateStar, Vector3.setScalar.
      cbn [Mesh.scale Vector3.x]. reflexivity.
    + apply Hs. discriminate.
Qed.

(** X11. The star spins at half a radian per second whatever the mode: after
    any frames its rotation about the vertical axis has grown by 0.5 times
    the elapsed time; its other two Euler angles and the x and z of its
    position are untouched, and once a frame has run its scale is uniform.
    The needle and ornament loops do not touch it. *)
Theorem star_spin (needles : list Needle.t) (ornaments : list Ornament.t)
    (frames : list Frame) (s : Scene) (star : Mesh.t) :
  starMesh s = Some star ->
  exists star',
    starMesh (runFrames needles ornaments frames s) = Some star'
    /\ Euler.y (Mesh.rotation star')
       = Euler.y (Mesh.rotation star) + 0.5 * elapsed frames
    /\ Euler.x (Mesh.rotation star') = Euler.x (Mesh.rotation star)
    /\ Euler.z (Mesh.rotation star') = Euler.z (Mesh.rotation star)
    /\ Vector3.x (Mesh.position star') = Vector3.x (Mesh.position star)
    /\ Vector3.z (Mesh.position star') = Vector3.z (Mesh.position star)
    /\ (frames <> [] ->
        Mesh.scale star' = Vector3.setScalar (Vector3.x (Mesh.scale star'))).
Proof.
  intros Hstar. rewrite runFrames_star, Hstar. cbn [option_map].
  eexists. split; [reflexivity |]. apply star_fold_spin.
Qed.

(** Witness of [star_spin]: the declared scene, half a second in two
    frames of different modes. *)
Lemma star_spin_witness :
  let frames := [mkFrame SCATTERED 0 (/ 4); mkFrame TREE_SHAPE (/ 4) (/ 4)] in
  let star := Mesh.mk (Vector3.mk 0 (TREE_HEIGHT + 0.5) 0) (Euler.mk 0 0 0)
                      (Vector3.setScalar 1) in
  exists star',
    starMesh (runFrames [oneNeedle] [oneOrnament] frames initialScene)
    = Some star'
    /\ Euler.y (Mesh.rotation star')
       = Euler.y (Mesh.rotation star) + 0.5 * elapsed frames
    /\ Euler.x (Mesh.rotation star') = Euler.x (Mesh.rotation star)
    /\ Euler.z (Mesh.rotation star') = Euler.z (Mesh.rotation star)
    /\ Vector3.x (Mesh.position star') = Vector3.x (Mesh.position star)
    /\ Vector3.z (Mesh.position star') = Vector3.z (Mesh.position star)
    /\ (frames <> [] ->
        Mesh.scale star' = Vector3.setScalar (Vector3.x (Mesh.scale star'))).
Proof.
  exact (star_spin [oneNeedle] [oneOrnament]
           [mkFrame SCATTERED 0 (/ 4); mkFrame TREE_SHAPE (/ 4) (/ 4)]
           initialScene _ eq_refl).
Defined.

Lemma star_fold_blend (mode : TreeMorphState) (frames : list Frame) :
  Forall (fun f => treeState f = mode) frames ->
  forall star,
    let star' :=
      fold_left
        (fun st f =>
           animateStar (TreeMorphState_eqb (treeState f) TREE_SHAPE)
                       (delta f) st)
        frames star in
    Vector3.y (Mesh.position star') - starTargetY mode
    = blendFactor 2 frames
      * (Vector3.y (Mesh.position star) - starTargetY mode)
    /\ Vector3.x (Mesh.scale star') - starTargetScale mode
       = blendFactor 3 frames
         * (Vector3.x (Mesh.scale star) - starTargetScale mode).
Proof.
  induction 1 as [| f frames Hmode _ IH]; intros star.
  - cbn. split; ring.
  - cbn [fold_left blendFactor fold_right].
    fold (blendFactor 2 frames). fold (blendFactor 3 frames).
    cbv zeta in IH.
    destruct (IH (animateStar (TreeMorphState_eqb (treeState f) TREE_SHAPE)
                              (delta f) star)) as [Hy Hs].
    cbv zeta. rewrite Hy, Hs, Hmode.
    unfold animateStar, starTargetY, starTargetScale, MathUtils.lerp,
      Vector3.setScalar.
    cbn [Mesh.position Mesh.scale Vector3.x Vector3.y].
    destruct (TreeMorphState_eqb mode TREE_SHAPE); split; ring.
Qed.

(** X12. While the mode is held, the star's height and scale follow a blend
    law: after the frames, the offset of its height from the mode's target
    (8.5 arranged, 20 scattered) is the product of the frames' factors
    1 - 2 * dt times the offset before, and the offset of its scale from the
    mode's target (1.5 arranged, 0 scattered) is the product of the factors
    1 - 3 * dt times the offset before. *)
Theorem star_blend (needles : list Needle.t) (ornaments : list Ornament.t)
    (mode : TreeMorphState) (frames : list Frame) (s : Scene)
    (star : Mesh.t) :
  starMesh s = Some star ->
  Forall (fun f => treeState f = mode) frames ->
  exists star',
    starMesh (runFrames needles ornaments frames s) = Some star'
    /\ Vector3.y (Mesh.position star') - starTargetY mode
       = blendFactor 2 frames
         * (Vector3.y (Mesh.position star) - starTargetY mode)
    /\ Vector3.x (Mesh.scale star') - starTargetScale mode
       = blendFactor 3 frames
         * (Vector3.x (Mesh.scale star) - starTargetScale mode).
Proof.
  intros Hstar Hmode. rewrite runFrames_star, Hstar. cbn [option_map].
  eexists. split; [reflexivity |]. apply star_fold_blend. exact Hmode.
Qed.

(** Witness of [star_blend]: the declared scene, two scattered frames. *)
Lemma star_blend_witness :
  let frames := [mkFrame SCATTERED 0 (/ 4); mkFrame SCATTERED (/ 4) (/ 4)] in
  let star := Mesh.mk (Vector3.mk 0 (TREE_HEIGHT + 0.5) 0) (Euler.mk 0 0 0)
                      (Vector3.setScalar 1) in
  exists star',
    starMesh (runFrames [oneNeedle] [oneOrnament] frames initialScene)
    = Some star'
    /\ Vector3.y (Mesh.position star') - starTargetY SCATTERED
       = blendFactor 2 frames
         * (Vector3.y (Mesh.position star) - starTargetY SCATTERED)
    /\ Vector3.x (Mesh.scale star') - starTargetScale SCATTERED
       = blendFactor 3 frames
         * (Vector3.x (Mesh.scale star) - starTargetScale SCATTERED).
Proof.
  apply (star_blend [oneNeedle] [oneOrnament] SCATTERED
           [mkFrame SCATTERED 0 (/ 4); mkFrame SCATTERED (/ 4) (/ 4)]
           initialScene _ eq_refl).
  repeat constructor.
Defined.

Lemma star_fold_envelope (frames : list Frame) :
  Forall (fun f => 0 <= delta f <= 1 / 3) frames ->
  forall star,
    TREE_HEIGHT + 0.5 <= Vector3.y (Mesh.position star) <= 20 ->
    0 <= Vector3.x (Mesh.scale star) <= 1.5 ->
    let star' :=
      fold_left
        (fun st f =>
           animateStar (TreeMorphState_eqb (treeState f) TREE_SHAPE)
                       (delta f) st)
        frames star in
    TREE_HEIGHT + 0.5 <= Vector3.y (Mesh.position star') <= 20
    /\ 0 <= Vector3.x (Mesh.scale star') <= 1.5.
Proof.
  induction 1 as [| f frames Hd _ IH]; intros star Hy Hs.
  - cbn. split; assumption.
  - cbn [fold_left]. apply IH.
    + unfold animateStar, MathUtils.lerp, TREE_HEIGHT in *.
      cbn [Mesh.position Vector3.y].
      set (y0 := Vector3.y (Mesh.position star)) in *.
      set (d := delta f) in *.
      assert ((1 - d * 2) * 8.5 <= (1 - d * 2) * y0)
        by (apply Rmult_le_compat_l; lra).
      assert ((1 - d * 2) * y0 <= (1 - d * 2) * 20)
        by (apply Rmult_le_compat_l; lra).
      destruct (TreeMorphState_eqb (treeState f) TREE_SHAPE); split; lra.
    + unfold animateStar, MathUtils.lerp, Vector3.setScalar.
      cbn [Mesh.scale Vector3.x].
      set (x0 := Vector3.x (Mesh.scale star)) in *.
      set (d := delta f) in *.
      assert ((1 - d * 3) * 0 <= (1 - d * 3) * x0)
        by (apply Rmult_le_compat_l; lra).
      assert ((1 - d * 3) * x0 <= (1 - d * 3) * 1.5)
        by (apply Rmult_le_compat_l; lra).
      destruct (TreeMorphState_eqb (treeState f) TREE_SHAPE); split; lra.
Qed.

(** X13. From the first render on, the star stays on the vertical axis.
    While every frame's delta is in [0, 1/3] its height stays in [8.5, 20]
    and its scale in [0, 1.5], whatever the modes; and as long as the mode
    has always been TREE_SHAPE it sits exactly at height 8.5, whatever the
    deltas. *)
Theorem star_envelope (g : RNG) (frames : list Frame) :
  (forall k, 0 <= draws g k < 1) ->
  exists needles ornaments s0 star',
    mount g = Done (needles, ornaments, s0)
    /\ starMesh (runFrames needles ornaments frames s0) = Some star'
    /\ Vector3.x (Mesh.position star') = 0
    /\ Vector3.z (Mesh.position star') = 0
    /\ (Forall (fun f => treeState f = TREE_SHAPE) frames ->
        Vector3.y (Mesh.position star') = TREE_HEIGHT + 0.5)
    /\ (Forall (fun f => 0 <= delta f <= 1 / 3) frames ->
        TREE_HEIGHT + 0.5 <= Vector3.y (Mesh.position star') <= 20
        /\ 0 <= Vector3.x (Mesh.scale star') <= 1.5).
Proof.
  intros Hdraws.
  destruct (mount_star g Hdraws) as (s0 & Hmount & Hstar).
  exists (needlesOf g), (ornamentsOf g), s0.
  rewrite runFrames_star, Hstar. cbn [option_map].
  eexists. split; [exact Hmount |]. split; [reflexivity |].
  match goal with
  | |- context [fold_left ?F frames ?st] =>
      pose proof (star_fold_spin frames st) as Hspin;
      pose proof (fun H => star_fold_blend TREE_SHAPE frames H st) as Hblend;
      pose proof (fun H => star_fold_envelope frames H st) as Henv
  end.
  cbv zeta in Hspin, Hblend, Henv.
  destruct Hspin as (_ & _ & _ & Px & Pz & _).
  split; [rewrite Px; reflexivity |].
  split; [rewrite Pz; reflexivity |].
  split.
  - intros Hmode. destruct (Hblend Hmode) as [Hy _].
    unfold starTargetY in Hy. cbn [TreeMorphState_eqb Mesh.position Vector3.y]
      in Hy.
    rewrite Rminus_diag, Rmult_0_r in Hy. lra.
  - intros Hd. apply Henv; [exact Hd | |].
    + cbn [Mesh.position Vector3.y]. unfold TREE_HEIGHT. lra.
    + unfold Vector3.setScalar. cbn [Mesh.scale Vector3.x]. lra.
Qed.

(** Witness of [star_envelope]: every draw 0, one scattered frame. *)
Lemma star_envelope_witness :
  exists needles ornaments s0 star',
    mount zeroStream = Done (needles, ornaments, s0)
    /\ starMesh (runFrames needles ornaments [mkFrame SCATTERED 0 (/ 4)] s0)
       = Some star'
    /\ Vector3.x (Mesh.position star') = 0
    /\ Vector3.z (Mesh.position star') = 0
    /\ (Forall (fun f => treeState f = TREE_SHAPE)
               [mkFrame SCATTERED 0 (/ 4)] ->
        Vector3.y (Mesh.position star') = TREE_HEIGHT + 0.5)
    /\ (Forall (fun f => 0 <= delta f <= 1 / 3) [mkFrame SCATTERED 0 (/ 4)] ->
        TREE_HEIGHT + 0.5 <= Vector3.y (Mesh.position star') <= 20
        /\ 0 <= Vector3.x (Mesh.scale star') <= 1.5).
Proof.
  apply (star_envelope zeroStream [mkFrame SCATTERED 0 (/ 4)]).
  intros k. simpl. lra.
Defined.

(** X14. The star's blend factors are not clamped: one scattered frame whose
    delta exceeds 1/3 s turns a positive star scale negative, and one whose
    delta exceeds 1/2 s carries a star that is below height 20 above it. *)
Theorem star_overshoot (needles : list Needle.t)
    (ornaments : list Ornament.t) (time delta : R) (s : Scene)
    (star : Mesh.t) :
  starMesh s = Some star ->
  0 < Vector3.x (Mesh.scale star) ->
  Vector3.y (Mesh.position star) < 20 ->
  exists star',
    starMesh (useFrame needles ornaments SCATTERED time delta s) = Some star'
    /\ (1 / 3 < delta -> Vector3.x (Mesh.scale star') < 0)
    /\ (1 / 2 < delta -> 20 < Vector3.y (Mesh.position star')).
Proof.
  intros Hstar Hs Hy.
  destruct (useFrame_refs needles ornaments SCATTERED time delta s)
    as (_ & _ & ->).
  rewrite Hstar. cbn [option_map TreeMorphState_eqb].
  eexists. split; [reflexivity |].
  unfold animateStar, MathUtils.lerp, Vector3.setScalar.
  cbn [Mesh.scale Mesh.position Vector3.x Vector3.y].
  split; intros Hd; nra.
Qed.

(** Witness of [star_overshoot]: the declared scene, a stall of one
    second. *)
Lemma star_overshoot_witness :
  exists star',
    starMesh (useFrame [oneNeedle] [oneOrnament] SCATTERED 0 1 initialScene)
    = Some star'
    /\ (1 / 3 < 1 -> Vector3.x (Mesh.scale star') < 0)
    /\ (1 / 2 < 1 -> 20 < Vector3.y (Mesh.position star')).
Proof.
  apply (star_overshoot [oneNeedle] [oneOrnament] 0 1 initialScene _ eq_refl).
  - simpl. lra.
  - simpl. unfold TREE_HEIGHT. lra.
Defined.

(** ** Target orientations *)

(** X15. The orientation a frame steers a needle toward is a unit
    quaternion in both modes, at every clock time and for every dataset
    entry: building it from the Euler angles and, when scattered, multiplying
    by the slow spin about the vertical axis never changes its length. *)
Theorem needle_target_orientation_unit (isTree : bool) (time : R)
    (data : Needle.t) :
  Quaternion.length (needleTargetQuat isTree time data) = 1.
Proof.
  apply quaternion_length_one. unfold needleTargetQuat. destruct isTree.
  - apply setFromEuler_sq.
  - rewrite multiply_sq.
    rewrite (setFromEuler_sq (Needle.scatterRot data)).
    unfold Quaternion.setFromAxisAngle.
    cbn [Quaternion.x Quaternion.y Quaternion.z Quaternion.w
         Vector3.x Vector3.y Vector3.z].
    pose proof (sin2_cos2' (time * 0.1 / 2)) as H.
    rewrite Rmult_0_l, Rmult_1_l. lra.
Qed.

(** ** Which draws an entry of a dataset depends on *)

Lemma makeNeedle_local (g g' : RNG) :
  (forall k, (k < 13)%nat ->
     draws g (k + cursor g) = draws g' (k + cursor g')) ->
  fst (makeNeedle g) = fst (makeNeedle g').
Proof.
  intros H.
  pose proof (H 0%nat ltac:(lia)) as H0. pose proof (H 1%nat ltac:(lia)) as H1.
  pose proof (H 2%nat ltac:(lia)) as H2. pose proof (H 3%nat ltac:(lia)) as H3.
  pose proof (H 4%nat ltac:(lia)) as H4. pose proof (H 5%nat ltac:(lia)) as H5.
  pose proof (H 6%nat ltac:(lia)) as H6. pose proof (H 7%nat ltac:(lia)) as H7.
  pose proof (H 8%nat ltac:(lia)) as H8. pose proof (H 9%nat ltac:(lia)) as H9.
  pose proof (H 10%nat ltac:(lia)) as H10.
  pose proof (H 11%nat ltac:(lia)) as H11.
  pose proof (H 12%nat ltac:(lia)) as H12.
  cbn [Nat.add] in H0, H1, H2, H3, H4, H5, H6, H7, H8, H9, H10, H11, H12.
  cbv beta iota zeta
      delta [makeNeedle randomInSphere randomInCone random bind ret fst snd
             draws cursor].
  destruct g as [d c], g' as [d' c'].
  cbn [draws cursor] in *.
  rewrite H0, H1, H2, H3, H4, H5, H6, H7, H8, H9, H10, H11, H12.
  reflexivity.
Qed.

Lemma makeOrnament_local (g g' : RNG) :
  (forall k, (k < 8)%nat ->
     draws g (k + cursor g) = draws g' (k + cursor g')) ->
  fst (makeOrnament g) = fst (makeOrnament g').
Proof.
  intros H.
  pose proof (H 0%nat ltac:(lia)) as H0. pose proof (H 1%nat ltac:(lia)) as H1.
  pose proof (H 2%nat ltac:(lia)) as H2. pose proof (H 3%nat ltac:(lia)) as H3.
  pose proof (H 4%nat ltac:(lia)) as H4. pose proof (H 5%nat ltac:(lia)) as H5.
  pose proof (H 6%nat ltac:(lia)) as H6. pose proof (H 7%nat ltac:(lia)) as H7.
  cbn [Nat.add] in H0, H1, H2, H3, H4, H5, H6, H7.
  cbv beta iota zeta
      delta [makeOrnament randomInSphere randomOnConeSurface random bind ret
             fst snd draws cursor].
  destruct g as [d c], g' as [d' c'].
  cbn [draws cursor] in *.
  rewrite H0, H1, H2, H3, H4, H5, H6, H7.
  reflexivity.
Qed.

(** X16. Needle i of the dataset is determined by thirteen draws, numbers
    13 i to 13 i + 12 after the cursor: two random streams that agree on
    that window give the same needle i, whatever they hold elsewhere. *)
Theorem needleData_local (g g' : RNG) (i : nat) :
  (i < PARTICLE_COUNT)%nat ->
  (forall k, (k < 13)%nat ->
     draws g (k + (i * 13 + cursor g))
     = draws g' (k + (i * 13 + cursor g'))) ->
  nth_error (needlesOf g) i = nth_error (needlesOf g') i.
Proof.
  intros Hi H.
  destruct (needlesOf_spec g) as [_ Hg].
  destruct (needlesOf_spec g') as [_ Hg'].
  rewrite (Hg i Hi), (Hg' i Hi). f_equal.
  apply makeNeedle_local. intros k Hk.
  rewrite !advance_draws. unfold advance. cbn [cursor].
  apply H. exact Hk.
Qed.

(** Witness of [needleData_local]: the all-zero stream and a stream that is
    1/2 from the fourteenth draw on give the same first needle. *)
Lemma needleData_local_witness :
  nth_error (needlesOf zeroStream) 0
  = nth_error
      (needlesOf (mkRNG (fun k => if Nat.ltb k 13 then 0 else 1 / 2) 0)) 0.
Proof.
  apply (needleData_local zeroStream
           (mkRNG (fun k => if Nat.ltb k 13 then 0 else 1 / 2) 0) 0).
  - unfold PARTICLE_COUNT. lia.
  - intros k Hk. unfold zeroStream. cbn [draws cursor].
    destruct (Nat.ltb_spec (k + (0 * 13 + 0)) 13) as [_ | Hge];
      [reflexivity | lia].
Defined.

(** X17. Ornament j of the dataset is determined by eight draws, numbers
    13 * PARTICLE_COUNT + 8 j to 13 * PARTICLE_COUNT + 8 j + 7 after the
    cursor (the needle dataset is built first and takes thirteen draws a
    needle): two random streams that agree on that window give the same
    ornament j. *)
Theorem ornamentData_local (g g' : RNG) (j : nat) :
  (j < ORNAMENT_COUNT)%nat ->
  (forall k, (k < 8)%nat ->
     draws g (k + (PARTICLE_COUNT * 13 + j * 8 + cursor g))
     = draws g' (k + (PARTICLE_COUNT * 13 + j * 8 + cursor g'))) ->
  nth_error (ornamentsOf g) j = nth_error (ornamentsOf g') j.
Proof.
  intros Hj H.
  destruct (ornamentsOf_spec g) as [_ Hg].
  destruct (ornamentsOf_spec g') as [_ Hg'].
  rewrite (Hg j Hj), (Hg' j Hj). f_equal.
  apply makeOrnament_local. intros k Hk.
  rewrite !advance_draws. unfold advance. cbn [cursor].
  apply H. exact Hk.
Qed.

(** Witness of [ornamentData_local]: the all-zero stream and a stream whose
    first hundred draws are 1/2 give the same first ornament. *)
Lemma ornamentData_local_witness :
  nth_error (ornamentsOf zeroStream) 0
  = nth_error
      (ornamentsOf (mkRNG (fun k => if Nat.ltb k 100 then 1 / 2 else 0) 0)) 0.
Proof.
  apply (ornamentData_local zeroStream
           (mkRNG (fun k => if Nat.ltb k 100 then 1 / 2 else 0) 0) 0).
  - unfold ORNAMENT_COUNT. lia.
  - intros k Hk. unfold zeroStream. cbn [draws cursor].
    destruct (Nat.ltb_spec (k + (PARTICLE_COUNT * 13 + 0 * 8 + 0)) 100)
      as [Hlt | _]; [unfold PARTICLE_COUNT in Hlt; lia | reflexivity].
Defined.

(** ** Running the setup pass again *)

Lemma applySteps_idempotent {A B : Type} (dflt : B)
    (step : A -> nat -> B -> B) (arr : list A) (k : nat) (buf : list B) :
  (forall d i o, step d i (step d i o) = step d i o) ->
  applySteps dflt step arr k (applySteps dflt step arr k buf)
  = applySteps dflt step arr k buf.
Proof.
  intros Hidem.
  apply (nth_ext _ _ dflt dflt).
  - apply applySteps_length.
  - intros j Hj. rewrite !applySteps_length in Hj.
    destruct (lt_dec j k) as [Hlt | Hge].
    + rewrite !applySteps_before by exact Hlt. reflexivity.
    + destruct (nth_error arr (j - k)) as [d |] eqn:Hd.
      * rewrite (applySteps_nth dflt step arr k j _ d);
          [| lia | exact Hd | rewrite applySteps_length; exact Hj].
        rewrite (applySteps_nth dflt step arr k j buf d);
          [| lia | exact Hd | exact Hj].
        apply Hidem.
      * apply nth_error_None in Hd.
        rewrite (applySteps_after dflt step arr k j
                   (applySteps dflt step arr k buf)) by lia.
        reflexivity.
Qed.

Lemma setupOrnaments_dummy (ornaments : list Ornament.t) :
  forall (k : nat) (mesh mesh' : InstancedMesh.t) (dm dm' : Object3D.t),
    forEachE_from setupOrnament ornaments k (mesh, dm) = Done (mesh', dm') ->
    Object3D.position dm' = Object3D.position dm
    /\ Object3D.quaternion dm' = Object3D.quaternion dm.
Proof.
  induction ornaments as [| d rest IH]; intros k mesh mesh' dm dm' E.
  - cbn in E. injection E as _ <-. auto.
  - cbn [forEachE_from] in E.
    destruct (Ornament.color d) as [col |] eqn:Hcol.
    + destruct (setupOrnament_step d k mesh dm col Hcol)
        as (dm1 & Estep & Hp1 & Hq1).
      rewrite Estep in E. destruct (IH _ _ _ _ _ E) as [Hp Hq].
      split; congruence.
    + rewrite (setupOrnament_undefined d k (mesh, dm) Hcol) in E.
      discriminate E.
Qed.

Lemma setupNeedles_dummy (needles : list Needle.t) (mesh : InstancedMesh.t)
    (dm : Object3D.t) :
  let dm' := snd (JS.forEach setupNeedle needles (mesh, dm)) in
  Object3D.position dm' = Object3D.position dm
  /\ Object3D.quaternion dm' = Object3D.quaternion dm.
Proof.
  unfold JS.forEach.
  apply (forEach_from_steps
           (fun x => Object3D.position x = Object3D.position dm
                     /\ Object3D.quaternion x = Object3D.quaternion dm)
           setupNeedle
           (setupNeedleMatrix (Object3D.position dm)
                              (Object3D.quaternion dm))).
  - intros d i m sc [Hp Hq]. unfold setupNeedle, setupNeedleMatrix.
    cbn. rewrite Hp, Hq. auto.
  - auto.
Qed.

Lemma useLayoutEffect_scratch (needles : list Needle.t)
    (ornaments : list Ornament.t) (s s1 : Scene) :
  useLayoutEffect needles ornaments s = Done s1 ->
  Object3D.position (dummy (scratch s1))
  = Object3D.position (dummy (scratch s))
  /\ Object3D.quaternion (dummy (scratch s1))
     = Object3D.quaternion (dummy (scratch s)).
Proof.
  unfold useLayoutEffect. intros E.
  assert (Hneedles :
    forall s0 s2,
      match needlesMesh s0 with
      | Some mesh =>
          let '(mesh', dummy') :=
            JS.forEach setupNeedle needles (mesh, dummy (scratch s0)) in
          Done (mkScene (Some mesh') (ornamentsMesh s0) (starMesh s0)
                        (mkScratch dummy' (tempVec (scratch s0))))
      | None => Done s0
      end = Done s2 ->
      Object3D.position (dummy (scratch s2))
      = Object3D.position (dummy (scratch s0))
      /\ Object3D.quaternion (dummy (scratch s2))
         = Object3D.quaternion (dummy (scratch s0))).
  { intros s0 s2 E0. destruct (needlesMesh s0) as [nm |].
    - pose proof (setupNeedles_dummy needles nm (dummy (scratch s0))) as Hd.
      destruct (JS.forEach setupNeedle needles (nm, dummy (scratch s0)))
        as [nm' dm'].
      injection E0 as <-. exact Hd.
    - injection E0 as <-. auto. }
  destruct (ornamentsMesh s) as [om |].
  - destruct (forEachE_from setupOrnament ornaments 0
                (om, dummy (scratch s))) as [[om' dm'] |] eqn:EO;
      [| discriminate E].
    destruct (setupOrnaments_dummy ornaments 0 om om' _ dm' EO) as [Hp Hq].
    destruct (InstancedMesh.instanceColor om'); [| discriminate E].
    destruct (Hneedles _ _ E) as [Hp' Hq'].
    cbn [scratch dummy] in Hp', Hq'. split; congruence.
  - apply Hneedles. exact E.
Qed.

Lemma setupOrnamentColor_idempotent (d : Ornament.t) (i : nat)
    (o : Color.t) :
  setupOrnamentColor d i (setupOrnamentColor d i o) = setupOrnamentColor d i o.
Proof. unfold setupOrnamentColor. destruct (Ornament.color d); reflexivity. Qed.

(** X18. The setup pass is idempotent on the refs: when both instanced
    meshes are attached and every ornament has a palette colour, running the
    layout effect a second time (as React's strict mode does in development) does not
    throw
    and leaves the needle buffer, the ornament buffer with its colours and
    the star exactly as the first run left them. *)
Theorem useLayoutEffect_idempotent (needles : list Needle.t)
    (ornaments : list Ornament.t) (s : Scene) (nm om : InstancedMesh.t) :
  needlesMesh s = Some nm ->
  ornamentsMesh s = Some om ->
  ornaments <> [] ->
  Forall (fun d => exists col, Ornament.color d = Some col /\ In col colors)
         ornaments ->
  exists s1 s2,
    useLayoutEffect needles ornaments s = Done s1
    /\ useLayoutEffect needles ornaments s1 = Done s2
    /\ needlesMesh s2 = needlesMesh s1
    /\ ornamentsMesh s2 = ornamentsMesh s1
    /\ starMesh s2 = starMesh s1.
Proof.
  intros Hn Ho Hne Hall.
  destruct (useLayoutEffect_spec needles ornaments s nm om Hn Ho Hne Hall)
    as (s1 & E1 & HN1 & HO1 & Hstar1).
  cbv zeta in HN1, HO1.
  destruct (useLayoutEffect_scratch needles ornaments s s1 E1) as [Hp Hq].
  destruct (useLayoutEffect_spec needles ornaments s1 _ _ HN1 HO1 Hne Hall)
    as (s2 & E2 & HN2 & HO2 & Hstar2).
  cbv zeta in HN2, HO2. rewrite Hp, Hq in HN2, HO2.
  exists s1, s2. split; [exact E1 |]. split; [exact E2 |].
  split; [| split; [| exact Hstar2]].
  - rewrite HN2, HN1. f_equal. unfold stepMesh.
    cbn [InstancedMesh.instanceMatrix InstancedMesh.instanceColor].
    f_equal. apply applySteps_idempotent. reflexivity.
  - rewrite HO2, HO1. f_equal.
    cbn [InstancedMesh.instanceMatrix]. unfold colorBuffer at 1.
    cbn [InstancedMesh.instanceColor].
    f_equal.
    + apply applySteps_idempotent. reflexivity.
    + f_equal. apply applySteps_idempotent.
      apply setupOrnamentColor_idempotent.
Qed.

(** Witness of [useLayoutEffect_idempotent]: the one-needle, one-ornament
    scene. *)
Lemma useLayoutEffect_idempotent_witness :
  exists s1 s2,
    useLayoutEffect [oneNeedle] [oneOrnament] smallScene = Done s1
    /\ useLayoutEffect [oneNeedle] [oneOrnament] s1 = Done s2
    /\ needlesMesh s2 = needlesMesh s1
    /\ ornamentsMesh s2 = ornamentsMesh s1
    /\ starMesh s2 = starMesh s1.
Proof.
  apply (useLayoutEffect_idempotent [oneNeedle] [oneOrnament] smallScene
           (newInstancedMesh 1) (newInstancedMesh 1) eq_refl eq_refl).
  - discriminate.
  - constructor; [| constructor].
    exists (Color.mk 16766720). split; [reflexivity | left; reflexivity].
Defined.
